(** * Layer compositor (threeify): resource cache, copy-then-blend pipeline
      and viewport transform

    Shallow embedding of [src/lib/engines/layerCompositor/LayerCompositor.ts],
    of the [main] function of [fragment.glsl] and of the WebGL wrappers the
    compositor builds on.

    Conventions of the embedding.
    - JavaScript numbers that carry geometry (sizes, scales, pan, opacity)
      are exact rationals [Q]; counters ([renderId], layer versions) are [Z].
      Rounding is not modelled.  The infinities and NaN are modelled where
      the code can produce them from finite inputs, in the pan offset
      ([Double], [imagePanOffsetD]).
    - GPU objects are handles ([nat]) handed out by the rendering context;
      what the GPU is asked to do is recorded as a log of commands, newest
      first.
    - A promise is an index into the promise store [promises]; the body of
      the asynchronous loader is split at its single [await]: the part that
      runs inside the call and the continuation that the event loop runs
      when the fetch ends.  What the network and the driver answer is an
      input of a run: a fetch delivers an image or fails, and
      [gl.createTexture()] hands out a texture or answers [null]; each
      answer has its own operation in [Op].
    - The two caches are JS objects used as maps, modelled as [gmap]s; see
      [inheritedKey] for the urls on which the two differ.
    - [history] is ghost instrumentation: it records, newest first, the
      moments the cache invariant speaks about. *)

From stdpp Require Import gmap strings list fin_maps.
From Stdlib Require Import QArith Qabs Qminmax Qround Lqa.

Local Open Scope Z_scope.

(** ** Numbers and vectors *)

Definition Qlt_bool (a b : Q) : bool := negb (Qle_bool b a).

(** [Math.sign] on a rational. *)
Definition Qsign (a : Q) : Q := inject_Z (Z.sgn (Qnum a)).

Module Vector2.
Record t : Type := mk { x : Q; y : Q }.
(** [width] and [height] are aliases of [x] and [y]. *)
Definition width (v : t) : Q := x v.
Definition height (v : t) : Q := y v.
Definition clone (v : t) : t := v.
Definition multiplyByScalar (k : Q) (v : t) : t := mk (x v * k)%Q (y v * k)%Q.
Definition add (w v : t) : t := mk (x v + x w)%Q (y v + y w)%Q.
Definition sub (w v : t) : t := mk (x v - x w)%Q (y v - y w)%Q.
Definition equals (w v : t) : bool := Qeq_bool (x v) (x w) && Qeq_bool (y v) (y w).
End Vector2.

Module Vector3.
Record t : Type := mk { x : Q; y : Q; z : Q }.
End Vector3.

(** Modelled from the spec: [ceilPow2] of [math/Functions] is not part of the
    sources at hand; the spec describes it as rounding a size up to the next
    power of two.  Non-positive arguments give 0. *)
Definition ceilPow2 (q : Q) : Q :=
  if Qle_bool q 0 then 0%Q
  else if Qle_bool 1 q then inject_Z (2 ^ Z.log2_up (Qceiling q))
  else (1 / inject_Z (2 ^ Z.log2 (Qfloor (/ q))))%Q.

(** ** Matrices, blend states and uniforms

    The matrix constructors of [math/Matrix4.Functions] and
    [makeMatrix3FromViewToLayerUv] live outside the sources at hand; they are
    kept symbolic, applied to the arguments the compositor passes. *)

Inductive Matrix4 : Type :=
| makeMatrix4Orthographic (left right top bottom near far : Q)
| makeMatrix4OrthographicSimple (height : Q) (center : Vector2.t) (near far zoom aspectRatio : Q)
| makeMatrix4Scale (v : Vector3.t)
| Matrix4Given (tag : nat).

Inductive Matrix3 : Type :=
| makeMatrix3FromViewToLayerUv (layerSize : Vector2.t) (flipY : bool)
| Matrix3Given (tag : nat).

Inductive BlendState : Type :=
| copySourceBlendState
| BlendStateGiven (tag : nat).

Inductive UniformValue : Type :=
| UMatrix4 (m : Matrix4)
| UMatrix3 (m : Matrix3)
| UNumber (q : Q)
| UInt (n : Z)
| UTexture (texImage2D : option nat).

(** [UniformValueMap]: a JS object used as a map from uniform name to value. *)
Abbreviation UniformValueMap := (gmap string UniformValue).

(** ** Images, layers and layer images *)

Inductive Image : Type :=
| ImageBitmap (handle : nat)
| HTMLImageElement (handle : nat).

Module LayerMask.
Record t : Type := mk {
  url : string;
  mode : Z;
  texImage2D : nat;
  opacity : option Q;
  viewToLayerUv : Matrix3 }.
End LayerMask.

Module Layer.
Record t : Type := mk {
  url : string;
  mask : option LayerMask.t;
  isTriviallyBlended : bool;
  planeToImage : Matrix4;
  texImage2D : nat;
  viewToLayerUv : Matrix3;
  blendModeUniformValue : Z;
  opacity : Q;
  blendModeBlendState : BlendState }.
End Layer.

Module LayerImage.
Record t : Type := mk {
  url : string;
  texImage2D : nat;
  image : option Image;
  disposed : bool;
  renderId : Z }.
Definition set_renderId (r : Z) (li : t) : t :=
  mk (url li) (texImage2D li) (image li) (disposed li) r.
End LayerImage.

Inductive ImageFitMode : Type := FitWidth | FitHeight.

(** ** The rendering context *)

Inductive FramebufferRef : Type :=
| CanvasFramebuffer
| OffscreenFramebuffer (id : nat).

Inductive TextureSource : Type :=
| SourceSize (size : Vector2.t)
| SourceImage (image : Image).

(** What reaches the GL context, one constructor per wrapper call.
    [CmdCreateTexture] stands for everything [new TexImage2D(...)] does on a
    run that returns (TexImage2D.ts 27-76, embedded call by call in
    [TexImage2D.constructor] below): [gl.createTexture], the upload or the
    allocation of every level, the texture parameters and, for a texture
    whose parameters ask for mipmaps and whose sides are powers of two (the
    offscreen colour attachments), [gl.generateMipmap].
    [CmdGenerateMipmaps] is the call of [generateMipmaps()] on the write
    attachment that ends a recomposition. *)
Inductive GpuCommand : Type :=
| CmdCreateTexture (id : nat) (source : TextureSource)
| CmdDeleteTexture (id : nat)
| CmdCreateFramebuffer (id : nat)
| CmdDeleteFramebuffer (id : nat)
| CmdAttach (framebuffer texImage2D : nat)
| CmdClear (target : FramebufferRef) (color : Vector3.t) (alpha : Q)
| CmdDraw (target : FramebufferRef) (uniforms : UniformValueMap) (blendState : BlendState)
| CmdGenerateMipmaps (texImage2D : nat).

Module RenderingContext.
Record t : Type := mk {
  canvasSize : Vector2.t;        (* canvasFramebuffer.size *)
  devicePixelRatio : Q;          (* canvasFramebuffer.devicePixelRatio *)
  nextResourceId : nat;
  resources : gset nat;          (* registered and not yet disposed *)
  commands : list GpuCommand }.  (* newest first *)

Definition issue (c : GpuCommand) (ctx : t) : t :=
  mk (canvasSize ctx) (devicePixelRatio ctx) (nextResourceId ctx) (resources ctx)
     (c :: commands ctx).

(** [registerResource]: hands out the next id. *)
Definition registerResource (ctx : t) : nat * t :=
  let id := nextResourceId ctx in
  (id, mk (canvasSize ctx) (devicePixelRatio ctx) (S id) ({[id]} ∪ resources ctx)
          (commands ctx)).

Definition disposeResource (id : nat) (ctx : t) : t :=
  mk (canvasSize ctx) (devicePixelRatio ctx) (nextResourceId ctx) (resources ctx ∖ {[id]})
     (commands ctx).

Definition resize (size : Vector2.t) (dpr : Q) (ctx : t) : t :=
  mk size dpr (nextResourceId ctx) (resources ctx) (commands ctx).
End RenderingContext.

(** [new TexImage2D(...)] on a run that returns: creates the GL texture,
    uploads, registers.  The run on which [gl.createTexture()] answers
    [null] throws before any of this (TexImage2D.ts 39-42) and leaves the
    context as it was; the loader's side of it is [finishLoadGlNull]. *)
Definition newTexImage2D (source : TextureSource) (ctx : RenderingContext.t)
  : nat * RenderingContext.t :=
  let '(id, ctx1) := RenderingContext.registerResource ctx in
  (id, RenderingContext.issue (CmdCreateTexture id source) ctx1).

(** [TexImage2D.dispose]: guarded by the object's [disposed] flag, which is
    set exactly when the resource has been handed back to the context. *)
Definition TexImage2D_dispose (id : nat) (ctx : RenderingContext.t) : RenderingContext.t :=
  if bool_decide (id ∈ RenderingContext.resources ctx)
  then RenderingContext.issue (CmdDeleteTexture id) (RenderingContext.disposeResource id ctx)
  else ctx.

Definition newFramebuffer (ctx : RenderingContext.t) : nat * RenderingContext.t :=
  let '(id, ctx1) := RenderingContext.registerResource ctx in
  (id, RenderingContext.issue (CmdCreateFramebuffer id) ctx1).

Definition Framebuffer_dispose (id : nat) (ctx : RenderingContext.t) : RenderingContext.t :=
  if bool_decide (id ∈ RenderingContext.resources ctx)
  then RenderingContext.issue (CmdDeleteFramebuffer id) (RenderingContext.disposeResource id ctx)
  else ctx.

(** ** Promises and the ghost history *)

(** A function body either returns a value or throws. *)
Inductive Outcome (E A : Type) : Type :=
| Returned (value : A)
| Threw (error : E).
Arguments Returned {E A} value.
Arguments Threw {E A} error.

(** What ends the loader body by a throw: [fetchImage] rejects, or
    [new TexImage2D] throws [createTexture failed] because
    [gl.createTexture()] answered [null] (TexImage2D.ts 39-42). *)
Inductive LoadError : Type :=
| fetchFailed
| createTextureFailed.

Inductive PromiseState : Type :=
| Pending (url : string)             (* suspended at [await fetchImage(url)] *)
| Fulfilled (value : option nat)     (* a texture, or [null]: cancelled *)
| Rejected (error : LoadError).      (* the loader body threw *)

(** The ghost history, newest first.  [EvLoadCompleted url desired]: the
    loader body for [url] came back from a load, with [url] desired or not
    at its membership re-check; a load that ends by a throw completes
    nothing and logs nothing. *)
Inductive Event : Type :=
| EvLoadCompleted (url : string) (desired : bool)
| EvDiscarded (url : string).

#[global] Instance Event_eq_dec : EqDecision Event.
Proof. solve_decision. Defined.

(** ** The compositor *)

Record LayerCompositor : Type := mkLayerCompositor {
  context : RenderingContext.t;
  layerImageCache : gmap string LayerImage.t;      (* images that are ready to be used *)
  texImage2DPromiseCache : gmap string nat;        (* url -> promise *)
  desiredImages : gset string;
  autoDiscard : bool;
  renderId : Z;
  imageSize : Vector2.t;
  imageFitMode : ImageFitMode;
  zoomScale : Q;
  panPosition : Vector2.t;
  layers : list Layer.t;
  layerVersion : Z;
  offlineLayerVersion : Z;
  offscreenSize : Vector2.t;
  offscreenWriteFramebuffer : option nat;
  offscreenWriteColorAttachment : option nat;
  offscreenReadFramebuffer : option nat;
  offscreenReadColorAttachment : option nat;
  (* the JavaScript runtime around the object *)
  promises : list PromiseState;                    (* promise store *)
  fetchLog : list string;                          (* calls of fetchImage, newest first *)
  closedBitmaps : list nat;                        (* ImageBitmap.close() calls *)
  history : list Event;                            (* ghost, newest first *)
  imageBitmapSupported : bool }.

Definition set_context v (s : LayerCompositor) : LayerCompositor :=
  mkLayerCompositor v (layerImageCache s) (texImage2DPromiseCache s) (desiredImages s)
    (autoDiscard s) (renderId s) (imageSize s) (imageFitMode s) (zoomScale s)
    (panPosition s) (layers s) (layerVersion s) (offlineLayerVersion s) (offscreenSize
    s) (offscreenWriteFramebuffer s) (offscreenWriteColorAttachment s)
    (offscreenReadFramebuffer s) (offscreenReadColorAttachment s) (promises s) (fetchLog
    s) (closedBitmaps s) (history s) (imageBitmapSupported s).
Definition set_layerImageCache v (s : LayerCompositor) : LayerCompositor :=
  mkLayerCompositor (context s) v (texImage2DPromiseCache s) (desiredImages s)
    (autoDiscard s) (renderId s) (imageSize s) (imageFitMode s) (zoomScale s)
    (panPosition s) (layers s) (layerVersion s) (offlineLayerVersion s) (offscreenSize
    s) (offscreenWriteFramebuffer s) (offscreenWriteColorAttachment s)
    (offscreenReadFramebuffer s) (offscreenReadColorAttachment s) (promises s) (fetchLog
    s) (closedBitmaps s) (history s) (imageBitmapSupported s).
Definition set_texImage2DPromiseCache v (s : LayerCompositor) : LayerCompositor :=
  mkLayerCompositor (context s) (layerImageCache s) v (desiredImages s) (autoDiscard s)
    (renderId s) (imageSize s) (imageFitMode s) (zoomScale s) (panPosition s) (layers s)
    (layerVersion s) (offlineLayerVersion s) (offscreenSize s)
    (offscreenWriteFramebuffer s) (offscreenWriteColorAttachment s)
    (offscreenReadFramebuffer s) (offscreenReadColorAttachment s) (promises s) (fetchLog
    s) (closedBitmaps s) (history s) (imageBitmapSupported s).
Definition set_desiredImages v (s : LayerCompositor) : LayerCompositor :=
  mkLayerCompositor (context s) (layerImageCache s) (texImage2DPromiseCache s) v
    (autoDiscard s) (renderId s) (imageSize s) (imageFitMode s) (zoomScale s)
    (panPosition s) (layers s) (layerVersion s) (offlineLayerVersion s) (offscreenSize
    s) (offscreenWriteFramebuffer s) (offscreenWriteColorAttachment s)
    (offscreenReadFramebuffer s) (offscreenReadColorAttachment s) (promises s) (fetchLog
    s) (closedBitmaps s) (history s) (imageBitmapSupported s).
Definition set_autoDiscard v (s : LayerCompositor) : LayerCompositor :=
  mkLayerCompositor (context s) (layerImageCache s) (texImage2DPromiseCache s)
    (desiredImages s) v (renderId s) (imageSize s) (imageFitMode s) (zoomScale s)
    (panPosition s) (layers s) (layerVersion s) (offlineLayerVersion s) (offscreenSize
    s) (offscreenWriteFramebuffer s) (offscreenWriteColorAttachment s)
    (offscreenReadFramebuffer s) (offscreenReadColorAttachment s) (promises s) (fetchLog
    s) (closedBitmaps s) (history s) (imageBitmapSupported s).
Definition set_renderId v (s : LayerCompositor) : LayerCompositor :=
  mkLayerCompositor (context s) (layerImageCache s) (texImage2DPromiseCache s)
    (desiredImages s) (autoDiscard s) v (imageSize s) (imageFitMode s) (zoomScale s)
    (panPosition s) (layers s) (layerVersion s) (offlineLayerVersion s) (offscreenSize
    s) (offscreenWriteFramebuffer s) (offscreenWriteColorAttachment s)
    (offscreenReadFramebuffer s) (offscreenReadColorAttachment s) (promises s) (fetchLog
    s) (closedBitmaps s) (history s) (imageBitmapSupported s).
Definition set_imageSize v (s : LayerCompositor) : LayerCompositor :=
  mkLayerCompositor (context s) (layerImageCache s) (texImage2DPromiseCache s)
    (desiredImages s) (autoDiscard s) (renderId s) v (imageFitMode s) (zoomScale s)
    (panPosition s) (layers s) (layerVersion s) (offlineLayerVersion s) (offscreenSize
    s) (offscreenWriteFramebuffer s) (offscreenWriteColorAttachment s)
    (offscreenReadFramebuffer s) (offscreenReadColorAttachment s) (promises s) (fetchLog
    s) (closedBitmaps s) (history s) (imageBitmapSupported s).
Definition set_imageFitMode v (s : LayerCompositor) : LayerCompositor :=
  mkLayerCompositor (context s) (layerImageCache s) (texImage2DPromiseCache s)
    (desiredImages s) (autoDiscard s) (renderId s) (imageSize s) v (zoomScale s)
    (panPosition s) (layers s) (layerVersion s) (offlineLayerVersion s) (offscreenSize
    s) (offscreenWriteFramebuffer s) (offscreenWriteColorAttachment s)
    (offscreenReadFramebuffer s) (offscreenReadColorAttachment s) (promises s) (fetchLog
    s) (closedBitmaps s) (history s) (imageBitmapSupported s).
Definition set_zoomScale v (s : LayerCompositor) : LayerCompositor :=
  mkLayerCompositor (context s) (layerImageCache s) (texImage2DPromiseCache s)
    (desiredImages s) (autoDiscard s) (renderId s) (imageSize s) (imageFitMode s) v
    (panPosition s) (layers s) (layerVersion s) (offlineLayerVersion s) (offscreenSize
    s) (offscreenWriteFramebuffer s) (offscreenWriteColorAttachment s)
    (offscreenReadFramebuffer s) (offscreenReadColorAttachment s) (promises s) (fetchLog
    s) (closedBitmaps s) (history s) (imageBitmapSupported s).
Definition set_panPosition v (s : LayerCompositor) : LayerCompositor :=
  mkLayerCompositor (context s) (layerImageCache s) (texImage2DPromiseCache s)
    (desiredImages s) (autoDiscard s) (renderId s) (imageSize s) (imageFitMode s)
    (zoomScale s) v (layers s) (layerVersion s) (offlineLayerVersion s) (offscreenSize
    s) (offscreenWriteFramebuffer s) (offscreenWriteColorAttachment s)
    (offscreenReadFramebuffer s) (offscreenReadColorAttachment s) (promises s) (fetchLog
    s) (closedBitmaps s) (history s) (imageBitmapSupported s).
Definition set_layers v (s : LayerCompositor) : LayerCompositor :=
  mkLayerCompositor (context s) (layerImageCache s) (texImage2DPromiseCache s)
    (desiredImages s) (autoDiscard s) (renderId s) (imageSize s) (imageFitMode s)
    (zoomScale s) (panPosition s) v (layerVersion s) (offlineLayerVersion s)
    (offscreenSize s) (offscreenWriteFramebuffer s) (offscreenWriteColorAttachment s)
    (offscreenReadFramebuffer s) (offscreenReadColorAttachment s) (promises s) (fetchLog
    s) (closedBitmaps s) (history s) (imageBitmapSupported s).
Definition set_layerVersion v (s : LayerCompositor) : LayerCompositor :=
  mkLayerCompositor (context s) (layerImageCache s) (texImage2DPromiseCache s)
    (desiredImages s) (autoDiscard s) (renderId s) (imageSize s) (imageFitMode s)
    (zoomScale s) (panPosition s) (layers s) v (offlineLayerVersion s) (offscreenSize s)
    (offscreenWriteFramebuffer s) (offscreenWriteColorAttachment s)
    (offscreenReadFramebuffer s) (offscreenReadColorAttachment s) (promises s) (fetchLog
    s) (closedBitmaps s) (history s) (imageBitmapSupported s).
Definition set_offlineLayerVersion v (s : LayerCompositor) : LayerCompositor :=
  mkLayerCompositor (context s) (layerImageCache s) (texImage2DPromiseCache s)
    (desiredImages s) (autoDiscard s) (renderId s) (imageSize s) (imageFitMode s)
    (zoomScale s) (panPosition s) (layers s) (layerVersion s) v (offscreenSize s)
    (offscreenWriteFramebuffer s) (offscreenWriteColorAttachment s)
    (offscreenReadFramebuffer s) (offscreenReadColorAttachment s) (promises s) (fetchLog
    s) (closedBitmaps s) (history s) (imageBitmapSupported s).
Definition set_offscreenSize v (s : LayerCompositor) : LayerCompositor :=
  mkLayerCompositor (context s) (layerImageCache s) (texImage2DPromiseCache s)
    (desiredImages s) (autoDiscard s) (renderId s) (imageSize s) (imageFitMode s)
    (zoomScale s) (panPosition s) (layers s) (layerVersion s) (offlineLayerVersion s) v
    (offscreenWriteFramebuffer s) (offscreenWriteColorAttachment s)
    (offscreenReadFramebuffer s) (offscreenReadColorAttachment s) (promises s) (fetchLog
    s) (closedBitmaps s) (history s) (imageBitmapSupported s).
Definition set_offscreenWriteFramebuffer v (s : LayerCompositor) : LayerCompositor :=
  mkLayerCompositor (context s) (layerImageCache s) (texImage2DPromiseCache s)
    (desiredImages s) (autoDiscard s) (renderId s) (imageSize s) (imageFitMode s)
    (zoomScale s) (panPosition s) (layers s) (layerVersion s) (offlineLayerVersion s)
    (offscreenSize s) v (offscreenWriteColorAttachment s) (offscreenReadFramebuffer s)
    (offscreenReadColorAttachment s) (promises s) (fetchLog s) (closedBitmaps s)
    (history s) (imageBitmapSupported s).
Definition set_offscreenWriteColorAttachment v (s : LayerCompositor) : LayerCompositor :=
  mkLayerCompositor (context s) (layerImageCache s) (texImage2DPromiseCache s)
    (desiredImages s) (autoDiscard s) (renderId s) (imageSize s) (imageFitMode s)
    (zoomScale s) (panPosition s) (layers s) (layerVersion s) (offlineLayerVersion s)
    (offscreenSize s) (offscreenWriteFramebuffer s) v (offscreenReadFramebuffer s)
    (offscreenReadColorAttachment s) (promises s) (fetchLog s) (closedBitmaps s)
    (history s) (imageBitmapSupported s).
Definition set_offscreenReadFramebuffer v (s : LayerCompositor) : LayerCompositor :=
  mkLayerCompositor (context s) (layerImageCache s) (texImage2DPromiseCache s)
    (desiredImages s) (autoDiscard s) (renderId s) (imageSize s) (imageFitMode s)
    (zoomScale s) (panPosition s) (layers s) (layerVersion s) (offlineLayerVersion s)
    (offscreenSize s) (offscreenWriteFramebuffer s) (offscreenWriteColorAttachment s) v
    (offscreenReadColorAttachment s) (promises s) (fetchLog s) (closedBitmaps s)
    (history s) (imageBitmapSupported s).
Definition set_offscreenReadColorAttachment v (s : LayerCompositor) : LayerCompositor :=
  mkLayerCompositor (context s) (layerImageCache s) (texImage2DPromiseCache s)
    (desiredImages s) (autoDiscard s) (renderId s) (imageSize s) (imageFitMode s)
    (zoomScale s) (panPosition s) (layers s) (layerVersion s) (offlineLayerVersion s)
    (offscreenSize s) (offscreenWriteFramebuffer s) (offscreenWriteColorAttachment s)
    (offscreenReadFramebuffer s) v (promises s) (fetchLog s) (closedBitmaps s) (history
    s) (imageBitmapSupported s).
Definition set_promises v (s : LayerCompositor) : LayerCompositor :=
  mkLayerCompositor (context s) (layerImageCache s) (texImage2DPromiseCache s)
    (desiredImages s) (autoDiscard s) (renderId s) (imageSize s) (imageFitMode s)
    (zoomScale s) (panPosition s) (layers s) (layerVersion s) (offlineLayerVersion s)
    (offscreenSize s) (offscreenWriteFramebuffer s) (offscreenWriteColorAttachment s)
    (offscreenReadFramebuffer s) (offscreenReadColorAttachment s) v (fetchLog s)
    (closedBitmaps s) (history s) (imageBitmapSupported s).
Definition set_fetchLog v (s : LayerCompositor) : LayerCompositor :=
  mkLayerCompositor (context s) (layerImageCache s) (texImage2DPromiseCache s)
    (desiredImages s) (autoDiscard s) (renderId s) (imageSize s) (imageFitMode s)
    (zoomScale s) (panPosition s) (layers s) (layerVersion s) (offlineLayerVersion s)
    (offscreenSize s) (offscreenWriteFramebuffer s) (offscreenWriteColorAttachment s)
    (offscreenReadFramebuffer s) (offscreenReadColorAttachment s) (promises s) v
    (closedBitmaps s) (history s) (imageBitmapSupported s).
Definition set_closedBitmaps v (s : LayerCompositor) : LayerCompositor :=
  mkLayerCompositor (context s) (layerImageCache s) (texImage2DPromiseCache s)
    (desiredImages s) (autoDiscard s) (renderId s) (imageSize s) (imageFitMode s)
    (zoomScale s) (panPosition s) (layers s) (layerVersion s) (offlineLayerVersion s)
    (offscreenSize s) (offscreenWriteFramebuffer s) (offscreenWriteColorAttachment s)
    (offscreenReadFramebuffer s) (offscreenReadColorAttachment s) (promises s) (fetchLog
    s) v (history s) (imageBitmapSupported s).
Definition set_history v (s : LayerCompositor) : LayerCompositor :=
  mkLayerCompositor (context s) (layerImageCache s) (texImage2DPromiseCache s)
    (desiredImages s) (autoDiscard s) (renderId s) (imageSize s) (imageFitMode s)
    (zoomScale s) (panPosition s) (layers s) (layerVersion s) (offlineLayerVersion s)
    (offscreenSize s) (offscreenWriteFramebuffer s) (offscreenWriteColorAttachment s)
    (offscreenReadFramebuffer s) (offscreenReadColorAttachment s) (promises s) (fetchLog
    s) (closedBitmaps s) v (imageBitmapSupported s).

(** ** Texture cache and asynchronous loader *)

(** [releaseImage]: closes the bitmap when it is an [ImageBitmap]. *)
Definition releaseImage (image : option Image) (s : LayerCompositor) : LayerCompositor :=
  match image with
  | Some (ImageBitmap h) =>
      if imageBitmapSupported s then set_closedBitmaps (h :: closedBitmaps s) s else s
  | _ => s
  end.

(** [LayerImage.dispose]. The disposed object is dropped by its only caller,
    so the flags it sets on itself are not kept. *)
Definition LayerImage_dispose (li : LayerImage.t) (s : LayerCompositor) : LayerCompositor :=
  if LayerImage.disposed li then s
  else releaseImage (LayerImage.image li)
         (set_context (TexImage2D_dispose (LayerImage.texImage2D li) (context s)) s).

(** [createTexture(ctx, url, image)] on a run where [gl.createTexture()]
    hands out a texture.  When it answers [null] the constructor throws
    before it uploads or registers anything: that run changes no state and
    makes no [LayerImage]; see [finishLoadGlNull]. *)
Definition createTexture (url : string) (image : Image) (s : LayerCompositor)
  : LayerImage.t * LayerCompositor :=
  let '(id, ctx) := newTexImage2D (SourceImage image) (context s) in
  (LayerImage.mk url id (Some image) false (-1), set_context ctx s).

(** The loader body from the membership re-check on (lines 222-228); the
    result is the value the loader's promise is fulfilled with. *)
Definition finishLoad (url : string) (image : Image) (hadToFetch : bool)
    (s : LayerCompositor) : option nat * LayerCompositor :=
  let wanted := bool_decide (url ∈ desiredImages s) in
  let s := set_history (EvLoadCompleted url wanted :: history s) s in
  if wanted then
    let '(li, s1) := createTexture url image s in
    (Some (LayerImage.texImage2D li),
     set_layerImageCache (<[url := li]> (layerImageCache s1)) s1)
  else
    let s1 := set_texImage2DPromiseCache (delete url (texImage2DPromiseCache s)) s in
    (None, if hadToFetch then releaseImage (Some image) s1 else s1).

(** [loadTexImage2D]. The promise returned by the [async] wrapper adopts the
    cached promise, so the call is identified with the promise it settles
    with. Without an image the body calls [fetchImage] and suspends; with one
    it runs to its end inside the call.  This is the run on which
    [gl.createTexture()] hands out a texture, for a url that is no
    [inheritedKey] (defined below, with the runs that end by a throw). *)
Definition loadTexImage2D (url : string) (image : option Image) (s : LayerCompositor)
  : nat * LayerCompositor :=
  let s := set_desiredImages ({[url]} ∪ desiredImages s) s in
  match texImage2DPromiseCache s !! url with
  | Some existingValue => (existingValue, s)
  | None =>
      let p := length (promises s) in
      match image with
      | None =>
          let s1 := set_fetchLog (url :: fetchLog s) s in
          let s2 := set_promises (promises s1 ++ [Pending url]) s1 in
          (p, set_texImage2DPromiseCache (<[url := p]> (texImage2DPromiseCache s2)) s2)
      | Some img =>
          let '(v, s1) := finishLoad url img false s in
          let s2 := set_promises (promises s1 ++ [Fulfilled v]) s1 in
          (p, set_texImage2DPromiseCache (<[url := p]> (texImage2DPromiseCache s2)) s2)
      end
  end.

(** The event loop resumes the loader suspended in promise [p]: the fetch
    has delivered [image] and [hadToFetch] is set. *)
Definition resumeLoad (p : nat) (image : Image) (s : LayerCompositor) : LayerCompositor :=
  match promises s !! p with
  | Some (Pending url) =>
      let '(v, s1) := finishLoad url image true s in
      set_promises (<[p := Fulfilled v]> (promises s1)) s1
  | _ => s
  end.

(** *** Loads that end by a throw

    What the driver and the network answer is an input of a run.
    [finishLoad], [loadTexImage2D] and [resumeLoad] above are the runs on
    which the fetch delivers and [gl.createTexture()] hands out a texture;
    the three functions below are the other runs.  Nothing in the loader
    catches: the promise of the body is rejected, and since it was stored in
    [texImage2DPromiseCache] before it settled it stays there, rejected,
    until the url is discarded. *)

(** The loader body from the membership re-check on (lines 222-228) when
    [gl.createTexture()] answers [null]: for a url that is still desired
    the body ends by the throw of [createTexture], the maps as they were
    (the image is not released); for a url that is not desired
    [createTexture] is not reached. *)
Definition finishLoadGlNull (url : string) (image : Image) (hadToFetch : bool)
    (s : LayerCompositor) : Outcome LoadError (option nat) * LayerCompositor :=
  if bool_decide (url ∈ desiredImages s) then (Threw createTextureFailed, s)
  else let '(v, s1) := finishLoad url image hadToFetch s in (Returned v, s1).

(** How the promise of the loader body settles. *)
Definition settle (o : Outcome LoadError (option nat)) : PromiseState :=
  match o with
  | Returned v => Fulfilled v
  | Threw e => Rejected e
  end.

(** [loadTexImage2D(url, image)] with a pre-decoded image when
    [gl.createTexture()] answers [null]: the body runs inside the call and
    throws, and the rejected promise is stored in the map (line 214). *)
Definition loadTexImage2DGlNull (url : string) (image : Image) (s : LayerCompositor)
  : nat * LayerCompositor :=
  let s := set_desiredImages ({[url]} ∪ desiredImages s) s in
  match texImage2DPromiseCache s !! url with
  | Some existingValue => (existingValue, s)
  | None =>
      let p := length (promises s) in
      let '(o, s1) := finishLoadGlNull url image false s in
      let s2 := set_promises (promises s1 ++ [settle o]) s1 in
      (p, set_texImage2DPromiseCache (<[url := p]> (texImage2DPromiseCache s2)) s2)
  end.

(** The event loop resumes the loader suspended in promise [p] with the
    fetched [image], and [gl.createTexture()] answers [null]. *)
Definition resumeLoadGlNull (p : nat) (image : Image) (s : LayerCompositor)
  : LayerCompositor :=
  match promises s !! p with
  | Some (Pending url) =>
      let '(o, s1) := finishLoadGlNull url image true s in
      set_promises (<[p := settle o]> (promises s1)) s1
  | _ => s
  end.

(** [fetchImage(url)] rejects: the loader suspended in promise [p] ends at
    its [await] (line 219), before the membership re-check. *)
Definition rejectLoad (p : nat) (s : LayerCompositor) : LayerCompositor :=
  match promises s !! p with
  | Some (Pending url) => set_promises (<[p := Rejected fetchFailed]> (promises s)) s
  | _ => s
  end.

(** The two maps are plain JS objects, read with [map[url]] at lines 211,
    214 and 236.  For a url that is the name of a property every object
    inherits from [Object.prototype] such a read finds the inherited
    property where a [gmap] finds nothing; the maps of this model are the
    code on every other url, and [inheritedKey] tells the two kinds
    apart. *)
Definition inheritedKey (url : string) : bool :=
  bool_decide (url ∈ ["constructor"; "toString"; "toLocaleString"; "valueOf";
                      "hasOwnProperty"; "isPrototypeOf"; "propertyIsEnumerable";
                      "__proto__"; "__defineGetter__"; "__defineSetter__";
                      "__lookupGetter__"; "__lookupSetter__"]).

(** [discardTexImage2D].  (For a desired url that is an [inheritedKey],
    [this.layerImageCache[url]?.dispose()] at line 236 finds the inherited
    property and throws; this function is the code on every other url.) *)
Definition discardTexImage2D (url : string) (s : LayerCompositor) : bool * LayerCompositor :=
  if bool_decide (url ∈ desiredImages s) then
    let s1 := set_desiredImages (desiredImages s ∖ {[url]}) s in
    let s1 := set_history (EvDiscarded url :: history s1) s1 in
    let s2 := match layerImageCache s1 !! url with
              | Some li => LayerImage_dispose li s1
              | None => s1
              end in
    let s3 := set_layerImageCache (delete url (layerImageCache s2)) s2 in
    (true, set_texImage2DPromiseCache (delete url (texImage2DPromiseCache s3)) s3)
  else (false, s).

(** ** Offscreen buffer manager *)

Definition issue (c : GpuCommand) (s : LayerCompositor) : LayerCompositor :=
  set_context (RenderingContext.issue c (context s)) s.

Definition isUndefined {A} (o : option A) : bool :=
  match o with None => true | Some _ => false end.

(** [this.makeColorMipmapAttachment()]: a texture of the offscreen size. *)
Definition makeColorMipmapAttachment (s : LayerCompositor) : nat * LayerCompositor :=
  let '(id, ctx) := newTexImage2D (SourceSize (offscreenSize s)) (context s) in
  (id, set_context ctx s).

(** The block under [// write buffer] (lines 168-179). *)
Definition replaceWriteTarget (s : LayerCompositor) : LayerCompositor :=
  let s := match offscreenWriteFramebuffer s with
           | Some fb => set_offscreenWriteFramebuffer None
                          (set_context (Framebuffer_dispose fb (context s)) s)
           | None => s
           end in
  let '(wfb, ctx) := newFramebuffer (context s) in
  let s := set_offscreenWriteFramebuffer (Some wfb) (set_context ctx s) in
  let s := match offscreenWriteColorAttachment s with
           | Some t => set_offscreenWriteColorAttachment None
                         (set_context (TexImage2D_dispose t (context s)) s)
           | None => s
           end in
  let '(watt, s) := makeColorMipmapAttachment s in
  let s := set_offscreenWriteColorAttachment (Some watt) s in
  issue (CmdAttach wfb watt) s.

(** The block under [// read buffer] (lines 183-194). *)
Definition replaceReadTarget (s : LayerCompositor) : LayerCompositor :=
  let s := match offscreenReadFramebuffer s with
           | Some fb => set_offscreenReadFramebuffer None
                          (set_context (Framebuffer_dispose fb (context s)) s)
           | None => s
           end in
  let '(rfb, ctx) := newFramebuffer (context s) in
  let s := set_offscreenReadFramebuffer (Some rfb) (set_context ctx s) in
  let s := match offscreenReadColorAttachment s with
           | Some t => set_offscreenReadColorAttachment None
                         (set_context (TexImage2D_dispose t (context s)) s)
           | None => s
           end in
  let '(ratt, s) := makeColorMipmapAttachment s in
  let s := set_offscreenReadColorAttachment (Some ratt) s in
  issue (CmdAttach rfb ratt) s.

(** The size the offscreen targets need: [imageSize] rounded up. *)
Definition roundedImageSize (s : LayerCompositor) : Vector2.t :=
  Vector2.mk (ceilPow2 (Vector2.x (imageSize s))) (ceilPow2 (Vector2.y (imageSize s))).

(** The guard of [updateOffscreen]. *)
Definition offscreenOutdated (s : LayerCompositor) : bool :=
  isUndefined (offscreenWriteFramebuffer s)
  || isUndefined (offscreenReadFramebuffer s)
  || negb (Vector2.equals (roundedImageSize s) (offscreenSize s)).

Definition updateOffscreen (s : LayerCompositor) : LayerCompositor :=
  if offscreenOutdated s
  then replaceReadTarget (replaceWriteTarget (set_offscreenSize (roundedImageSize s) s))
  else s.

(** ** Layer stack and blend pipeline *)

(** [layerImage.renderId = this.renderId] when the image is resident. *)
Definition markUsed (url : string) (s : LayerCompositor) : LayerCompositor :=
  set_layerImageCache
    (alter (LayerImage.set_renderId (renderId s)) url (layerImageCache s)) s.

Definition copyUniforms (layer : Layer.t) (imageToOffscreen : Matrix4)
    (viewToImageUv : Matrix3) (s : LayerCompositor) : UniformValueMap :=
  list_to_map
    [ ("localToView", UMatrix4 (Layer.planeToImage layer));
      ("viewToScreen", UMatrix4 imageToOffscreen);
      ("mipmapBias", UNumber 0);
      ("imageMap", UTexture (offscreenWriteColorAttachment s));
      ("viewToImageUv", UMatrix3 viewToImageUv);
      ("layerMap", UTexture (offscreenWriteColorAttachment s));
      ("viewToLayerUv", UMatrix3 viewToImageUv);
      ("maskMode", UInt 0);
      ("blendMode", UInt 0);
      ("opacity", UNumber 1) ].

Definition blendUniforms (layer : Layer.t) (imageToOffscreen : Matrix4)
    (viewToImageUv : Matrix3) (s : LayerCompositor) : UniformValueMap :=
  let uniforms : UniformValueMap :=
    list_to_map
      [ ("localToView", UMatrix4 (Layer.planeToImage layer));
        ("viewToScreen", UMatrix4 imageToOffscreen);
        ("mipmapBias", UNumber 0);
        ("imageMap", UTexture (offscreenReadColorAttachment s));
        ("viewToImageUv", UMatrix3 viewToImageUv);
        ("layerMap", UTexture (Some (Layer.texImage2D layer)));
        ("viewToLayerUv", UMatrix3 (Layer.viewToLayerUv layer));
        ("maskMode", UInt 0);
        ("blendMode", UInt (Layer.blendModeUniformValue layer));
        ("opacity", UNumber (Layer.opacity layer)) ] in
  match Layer.mask layer with
  | Some mask =>
      <["viewToMaskUv" := UMatrix3 (LayerMask.viewToLayerUv mask)]>
        (<["maskOpacity" := UNumber (default 0%Q (LayerMask.opacity mask))]>
           (<["maskMap" := UTexture (Some (LayerMask.texImage2D mask))]>
              (<["maskMode" := UInt (LayerMask.mode mask)]> uniforms)))
  | None => uniforms
  end.

(** The draw that snapshots the write target into the read target. *)
Definition copyDraw (readFb : nat) (layer : Layer.t) (imageToOffscreen : Matrix4)
    (viewToImageUv : Matrix3) (s : LayerCompositor) : GpuCommand :=
  CmdDraw (OffscreenFramebuffer readFb)
          (copyUniforms layer imageToOffscreen viewToImageUv s) copySourceBlendState.

(** The draw that blends the layer into the write target. *)
Definition blendDraw (writeFb : nat) (layer : Layer.t) (imageToOffscreen : Matrix4)
    (viewToImageUv : Matrix3) (s : LayerCompositor) : GpuCommand :=
  CmdDraw (OffscreenFramebuffer writeFb)
          (blendUniforms layer imageToOffscreen viewToImageUv s)
          (Layer.blendModeBlendState layer).

(** Body of [this.#layers.forEach]. *)
Definition compositeLayer (readFb writeFb : nat) (imageToOffscreen : Matrix4)
    (viewToImageUv : Matrix3) (s : LayerCompositor) (layer : Layer.t) : LayerCompositor :=
  let s := markUsed (Layer.url layer) s in
  let s := match Layer.mask layer with
           | Some mask => markUsed (LayerMask.url mask) s
           | None => s
           end in
  let s := if negb (Layer.isTriviallyBlended layer)
           then issue (copyDraw readFb layer imageToOffscreen viewToImageUv s) s
           else s in
  issue (blendDraw writeFb layer imageToOffscreen viewToImageUv s) s.

Definition transparentBlack : Vector3.t := Vector3.mk 0 0 0.

Definition renderLayersToFramebuffer (s : LayerCompositor) : LayerCompositor :=
  let s := updateOffscreen s in
  if offlineLayerVersion s >=? layerVersion s then s
  else
    let s := set_offlineLayerVersion (layerVersion s) s in
    match offscreenWriteFramebuffer s, offscreenReadFramebuffer s with
    | Some writeFb, Some readFb =>
        let s := issue (CmdClear (OffscreenFramebuffer writeFb) transparentBlack 0) s in
        let s := issue (CmdClear (OffscreenFramebuffer readFb) transparentBlack 0) s in
        let imageToOffscreen :=
          makeMatrix4Orthographic 0 (Vector2.width (offscreenSize s))
                                  0 (Vector2.height (offscreenSize s)) (-1) 1 in
        let viewToImageUv := makeMatrix3FromViewToLayerUv (offscreenSize s) true in
        let s := foldl (compositeLayer readFb writeFb imageToOffscreen viewToImageUv)
                       s (layers s) in
        match offscreenWriteColorAttachment s with
        | Some att => issue (CmdGenerateMipmaps att) s
        | None => s
        end
    | _, _ => s
    end.

(** ** Viewport transform and presenter *)

Definition canvasSize (s : LayerCompositor) : Vector2.t :=
  RenderingContext.canvasSize (context s).

(** The viewport of lines 259-282 over the rationals: exact where no
    divisor is zero.  With a zero divisor a rational quotient is 0 where the
    doubles of the code give an infinity or NaN; those runs are followed in
    [imagePanOffsetD] below. *)
Definition imageToCanvasScale (s : LayerCompositor) : Q :=
  match imageFitMode s with
  | FitWidth => (Vector2.width (canvasSize s) / Vector2.width (imageSize s))%Q
  | FitHeight => (Vector2.height (canvasSize s) / Vector2.height (imageSize s))%Q
  end.

Definition canvasImageSize (s : LayerCompositor) : Vector2.t :=
  Vector2.multiplyByScalar (imageToCanvasScale s) (Vector2.clone (imageSize s)).

(** The pan offset in image space after clamping (lines 272-282). *)
Definition imagePanOffset (s : LayerCompositor) : Vector2.t :=
  let k := imageToCanvasScale s in
  let imagePanPosition :=
    Vector2.multiplyByScalar (RenderingContext.devicePixelRatio (context s))
      (Vector2.multiplyByScalar (1 / k)%Q (Vector2.clone (panPosition s))) in
  let imageCanvasSize := Vector2.multiplyByScalar (1 / k)%Q (Vector2.clone (canvasSize s)) in
  let offset :=
    Vector2.sub (Vector2.multiplyByScalar (1 # 2) (Vector2.clone imageCanvasSize))
                (Vector2.clone imagePanPosition) in
  Vector2.mk
    (Qsign (Vector2.x offset)
       * Qmin (Qabs (Vector2.x offset)) (Vector2.x (imageSize s) * (1 # 2)))%Q
    (Qsign (Vector2.y offset)
       * Qmin (Qabs (Vector2.y offset)) (Vector2.y (imageSize s) * (1 # 2)))%Q.

Definition canvasImageCenter (s : LayerCompositor) : Vector2.t :=
  let center := Vector2.multiplyByScalar (1 # 2) (Vector2.clone (canvasImageSize s)) in
  if Qlt_bool 1 (zoomScale s) then
    let canvasPanOffset :=
      Vector2.multiplyByScalar (imageToCanvasScale s) (Vector2.clone (imagePanOffset s)) in
    let centeredCanvasPanOffset :=
      Vector2.multiplyByScalar (1 - 1 / zoomScale s)%Q (Vector2.clone canvasPanOffset) in
    Vector2.add centeredCanvasPanOffset center
  else center.

(** *** The pan offset with the special values of the doubles

    [Double.t] adds to the rationals the two infinities and NaN, with the
    IEEE rules for them in the operations lines 262-282 use; a zero divisor
    is taken as [+0], and the rounding of finite results is left out. *)
Module Double.
Inductive t : Type :=
| Finite (q : Q)
| PosInf
| NegInf
| NaN.

(** The infinity of the sign of [q], for [q] other than zero. *)
Definition infinity (q : Q) : t := if Qlt_bool 0 q then PosInf else NegInf.

Definition mul (a b : t) : t :=
  match a, b with
  | NaN, _ | _, NaN => NaN
  | Finite x, Finite y => Finite (x * y)
  | Finite x, PosInf | PosInf, Finite x => if Qeq_bool x 0 then NaN else infinity x
  | Finite x, NegInf | NegInf, Finite x => if Qeq_bool x 0 then NaN else infinity (- x)
  | PosInf, PosInf | NegInf, NegInf => PosInf
  | PosInf, NegInf | NegInf, PosInf => NegInf
  end.

Definition div (a b : t) : t :=
  match a, b with
  | NaN, _ | _, NaN => NaN
  | Finite x, Finite y =>
      if Qeq_bool y 0 then (if Qeq_bool x 0 then NaN else infinity x)
      else Finite (x / y)
  | Finite _, PosInf | Finite _, NegInf => Finite 0
  | PosInf, Finite y => if Qle_bool 0 y then PosInf else NegInf
  | NegInf, Finite y => if Qle_bool 0 y then NegInf else PosInf
  | PosInf, PosInf | PosInf, NegInf | NegInf, PosInf | NegInf, NegInf => NaN
  end.

Definition sub (a b : t) : t :=
  match a, b with
  | NaN, _ | _, NaN => NaN
  | Finite x, Finite y => Finite (x - y)
  | Finite _, PosInf => NegInf
  | Finite _, NegInf => PosInf
  | PosInf, PosInf | NegInf, NegInf => NaN
  | PosInf, _ => PosInf
  | NegInf, _ => NegInf
  end.

(** [Math.abs], [Math.sign] and [Math.min]. *)
Definition abs (a : t) : t :=
  match a with
  | Finite q => Finite (Qabs q)
  | PosInf | NegInf => PosInf
  | NaN => NaN
  end.

Definition sign (a : t) : t :=
  match a with
  | Finite q => Finite (Qsign q)
  | PosInf => Finite 1
  | NegInf => Finite (-1)
  | NaN => NaN
  end.

Definition min (a b : t) : t :=
  match a, b with
  | NaN, _ | _, NaN => NaN
  | Finite x, Finite y => Finite (Qmin x y)
  | NegInf, _ | _, NegInf => NegInf
  | PosInf, c | c, PosInf => c
  end.

(** [a <= b]; every comparison with NaN is false. *)
Definition leb (a b : t) : bool :=
  match a, b with
  | NaN, _ | _, NaN => false
  | Finite x, Finite y => Qle_bool x y
  | NegInf, _ | _, PosInf => true
  | PosInf, _ | _, NegInf => false
  end.
End Double.

(** The extent of [v] on the axis the fit mode divides by. *)
Definition fitExtent (s : LayerCompositor) (v : Vector2.t) : Q :=
  match imageFitMode s with
  | FitWidth => Vector2.width v
  | FitHeight => Vector2.height v
  end.

Definition imageToCanvasScaleD (s : LayerCompositor) : Double.t :=
  match imageFitMode s with
  | FitWidth =>
      Double.div (Double.Finite (Vector2.width (canvasSize s)))
                 (Double.Finite (Vector2.width (imageSize s)))
  | FitHeight =>
      Double.div (Double.Finite (Vector2.height (canvasSize s)))
                 (Double.Finite (Vector2.height (imageSize s)))
  end.

(** [Math.sign(a) * Math.min(Math.abs(a), h)] (lines 276-277). *)
Definition clampD (a : Double.t) (h : Q) : Double.t :=
  Double.mul (Double.sign a) (Double.min (Double.abs a) (Double.Finite h)).

(** Lines 262-277, one component after the other. *)
Definition imagePanOffsetD (s : LayerCompositor) : Double.t * Double.t :=
  let k := imageToCanvasScaleD s in
  let inverse := Double.div (Double.Finite 1) k in
  let dpr := Double.Finite (RenderingContext.devicePixelRatio (context s)) in
  let imagePanPosition (pan : Q) := Double.mul (Double.mul (Double.Finite pan) inverse) dpr in
  let imageCanvasSize (extent : Q) := Double.mul (Double.Finite extent) inverse in
  let offset (pan extent : Q) :=
    Double.sub (imagePanPosition pan)
               (Double.mul (imageCanvasSize extent) (Double.Finite (1 # 2))) in
  (clampD (offset (Vector2.x (panPosition s)) (Vector2.x (canvasSize s)))
          (Vector2.x (imageSize s) * (1 # 2)),
   clampD (offset (Vector2.y (panPosition s)) (Vector2.y (canvasSize s)))
          (Vector2.y (imageSize s) * (1 # 2))).

(** A double that is a number of magnitude at most [h]. *)
Definition withinD (a : Double.t) (h : Q) : Prop :=
  ∃ q, a = Double.Finite q ∧ (Qabs q <= h)%Q.

Definition presentUniforms (s : LayerCompositor) (offscreenColorAttachment : nat)
  : UniformValueMap :=
  let size := canvasSize s in
  let canvasAspectRatio := (Vector2.width size / Vector2.height size)%Q in
  let imageToCanvas :=
    makeMatrix4OrthographicSimple (Vector2.height size) (canvasImageCenter s)
                                  (-1) 1 (zoomScale s) canvasAspectRatio in
  let planeToImage :=
    makeMatrix4Scale (Vector3.mk (Vector2.width (canvasImageSize s))
                                 (Vector2.height (canvasImageSize s)) 1) in
  let offscreenScaledSize :=
    Vector2.multiplyByScalar (imageToCanvasScale s) (Vector2.clone (offscreenSize s)) in
  let viewToLayerUv := makeMatrix3FromViewToLayerUv offscreenScaledSize true in
  list_to_map
    [ ("localToView", UMatrix4 planeToImage);
      ("viewToScreen", UMatrix4 imageToCanvas);
      ("mipmapBias", UNumber 0);
      ("layerMap", UTexture (Some offscreenColorAttachment));
      ("viewToLayerUv", UMatrix3 viewToLayerUv);
      ("maskMode", UInt 0);
      ("blendMode", UInt 0);
      ("opacity", UNumber 1) ].

(** The draw onto the visible surface. *)
Definition presentDraw (s : LayerCompositor) (offscreenColorAttachment : nat) : GpuCommand :=
  CmdDraw CanvasFramebuffer (presentUniforms s offscreenColorAttachment) copySourceBlendState.

(** One turn of the auto-discard loop. *)
Definition discardIfUnused (s : LayerCompositor) (url : string) : LayerCompositor :=
  match layerImageCache s !! url with
  | Some layerImage =>
      if LayerImage.renderId layerImage <? renderId s
      then snd (discardTexImage2D url s)
      else s
  | None => s
  end.

(** [for (const url in this.layerImageCache)]: the keys present when the
    loop starts, each looked up again when its turn comes. *)
Definition discardUnused (s : LayerCompositor) : LayerCompositor :=
  foldl discardIfUnused s (map fst (map_to_list (layerImageCache s))).

Definition render (s : LayerCompositor) : LayerCompositor :=
  let s := set_renderId (renderId s + 1) s in
  let s := renderLayersToFramebuffer s in
  match offscreenWriteColorAttachment s with
  | None => s
  | Some offscreenColorAttachment =>
      let s := issue (CmdClear CanvasFramebuffer transparentBlack 0) s in
      let s := issue (presentDraw s offscreenColorAttachment) s in
      if autoDiscard s then discardUnused s else s
  end.

(** [set layers]. *)
Definition setLayers (ls : list Layer.t) (s : LayerCompositor) : LayerCompositor :=
  set_layerVersion (layerVersion s + 1) (set_layers ls s).

(** ** Operations and runs

    The calls of the public methods and the turns of the event loop.  The
    last three are the turns on which a load ends by a throw. *)

Inductive Op : Type :=
| CallLoadTexImage2D (url : string) (image : option Image)
| CallDiscardTexImage2D (url : string)
| CallRender
| SetLayers (ls : list Layer.t)
| SetImageSize (size : Vector2.t)
| SetImageFitMode (mode : ImageFitMode)
| SetZoomScale (zoom : Q)
| SetPanPosition (pan : Vector2.t)
| SetAutoDiscard (flag : bool)
| ResizeCanvas (size : Vector2.t) (devicePixelRatio : Q)
| FetchDelivers (promise : nat) (image : Image)
| CallLoadTexImage2DGlNull (url : string) (image : Image)
| FetchDeliversGlNull (promise : nat) (image : Image)
| FetchFails (promise : nat).

Inductive Result : Type :=
| RPromise (p : nat)
| RBool (b : bool)
| RVoid.

Definition step (op : Op) (s : LayerCompositor) : Result * LayerCompositor :=
  match op with
  | CallLoadTexImage2D url image =>
      let '(p, s') := loadTexImage2D url image s in (RPromise p, s')
  | CallDiscardTexImage2D url =>
      let '(b, s') := discardTexImage2D url s in (RBool b, s')
  | CallRender => (RVoid, render s)
  | SetLayers ls => (RVoid, setLayers ls s)
  | SetImageSize size => (RVoid, set_imageSize size s)
  | SetImageFitMode mode => (RVoid, set_imageFitMode mode s)
  | SetZoomScale zoom => (RVoid, set_zoomScale zoom s)
  | SetPanPosition pan => (RVoid, set_panPosition pan s)
  | SetAutoDiscard flag => (RVoid, set_autoDiscard flag s)
  | ResizeCanvas size dpr =>
      (RVoid, set_context (RenderingContext.resize size dpr (context s)) s)
  | FetchDelivers p image => (RVoid, resumeLoad p image s)
  | CallLoadTexImage2DGlNull url image =>
      let '(p, s') := loadTexImage2DGlNull url image s in (RPromise p, s')
  | FetchDeliversGlNull p image => (RVoid, resumeLoadGlNull p image s)
  | FetchFails p => (RVoid, rejectLoad p s)
  end.

Fixpoint exec (ops : list Op) (s : LayerCompositor) : list Result * LayerCompositor :=
  match ops with
  | [] => ([], s)
  | op :: ops' =>
      let '(r, s1) := step op s in
      let '(rs, s2) := exec ops' s1 in
      (r :: rs, s2)
  end.

Definition run (ops : list Op) (s : LayerCompositor) : LayerCompositor := snd (exec ops s).

(** The compositor as its constructor leaves it, on a canvas of the given
    size and device pixel ratio. *)
Definition initial (size : Vector2.t) (dpr : Q) (bitmaps : bool) : LayerCompositor :=
  {| context := RenderingContext.mk size dpr 0 ∅ [];
     layerImageCache := ∅;
     texImage2DPromiseCache := ∅;
     desiredImages := ∅;
     autoDiscard := false;
     renderId := 0;
     imageSize := Vector2.mk 0 0;
     imageFitMode := FitHeight;
     zoomScale := 1;
     panPosition := Vector2.mk (1 # 2) (1 # 2);
     layers := [];
     layerVersion := 0;
     offlineLayerVersion := -1;
     offscreenSize := Vector2.mk 0 0;
     offscreenWriteFramebuffer := None;
     offscreenWriteColorAttachment := None;
     offscreenReadFramebuffer := None;
     offscreenReadColorAttachment := None;
     promises := [];
     fetchLog := [];
     closedBitmaps := [];
     history := [];
     imageBitmapSupported := bitmaps |}.

(** ** The blend fragment function ([fragment.glsl])

    Colour components are rationals: the rounding of the GPU's floats is
    left out.  What is proved of [main] below is about the textures it
    fetches and the branches it takes. *)

Module Shader.
Record vec2 : Type := mkVec2 { u : Q; v : Q }.
Record vec4 : Type := mkVec4 { r : Q; g : Q; b : Q; a : Q }.

Definition zero4 : vec4 := mkVec4 0 0 0 0.                     (* vec4(0.) *)
Definition scale (k : Q) (c : vec4) : vec4 :=                  (* c *= k *)
  mkVec4 (r c * k)%Q (g c * k)%Q (b c * k)%Q (a c * k)%Q.
Definition premultiply (c : vec4) : vec4 :=                    (* c.rgb *= c.a *)
  mkVec4 (r c * a c)%Q (g c * a c)%Q (b c * a c)%Q (a c).
Definition unpremultiply (c : vec4) : vec4 :=
  if Qlt_bool (1 # 510) (a c)                                  (* a > 0.5 / 255. *)
  then mkVec4 (r c / a c)%Q (g c / a c)%Q (b c / a c)%Q (a c)
  else mkVec4 0 0 0 (a c).

Inductive Sampler : Type := imageMap | layerMap | maskMap.

#[global] Instance Sampler_eq_dec : EqDecision Sampler.
Proof. solve_decision. Defined.

Record Uniforms : Type := mkUniforms {
  mipmapBias : Q;
  convertToPremultipliedAlpha : Z;
  maskMode : Z;
  blendMode : Z;
  maskOpacity : Q;
  opacity : Q }.

Record Varyings : Type := mkVaryings {
  v_image_uv : vec2;
  v_layer_uv : vec2;
  v_mask_uv : vec2 }.

(** [all(greaterThanEqual(vec4(uv, -uv), vec4(lowerBound, -upperBound)))]. *)
Definition hasMaskData (uv : vec2) : bool :=
  Qle_bool 0 (u uv) && Qle_bool 0 (v uv)
  && Qle_bool (-1) (- u uv) && Qle_bool (-1) (- v uv).

Section Main.
(** The textures bound to the samplers, and the two functions included
    from [mask.frag] and [blend.frag], which read the uniforms. *)
Variable texture2D : Sampler → vec2 → Q → vec4.
Variable getMaskValue : Uniforms → vec4 → Q.
Variable compositeColors : Uniforms → vec4 → vec4 → vec4.

(** The mask block once the mask colour is at hand. *)
Definition applyMask (un : Uniforms) (maskColor outputColor : vec4) : vec4 :=
  let maskColor := if convertToPremultipliedAlpha un =? 1
                   then premultiply maskColor else maskColor in
  let maskColor := scale (maskOpacity un) maskColor in
  scale (getMaskValue un maskColor) outputColor.

(** The blend block. *)
Definition applyBlend (un : Uniforms) (vy : Varyings) (outputColor : vec4)
  : vec4 * list (Sampler * vec2) :=
  if blendMode un =? 0 then (outputColor, [])
  else
    let imageColor := texture2D imageMap (v_image_uv vy) (mipmapBias un) in
    (compositeColors un (unpremultiply outputColor) imageColor,
     [(imageMap, v_image_uv vy)]).

(** [main]: the fragment colour, and the texture fetches it made, in
    order. *)
Definition main (un : Uniforms) (vy : Varyings) : vec4 * list (Sampler * vec2) :=
  let layerColor := texture2D layerMap (v_layer_uv vy) (mipmapBias un) in
  let layerColor := if convertToPremultipliedAlpha un =? 1
                    then premultiply layerColor else layerColor in
  let outputColor := scale (opacity un) layerColor in
  let '(outputColor, maskFetches) :=
    if maskMode un =? 0 then (outputColor, [])
    else
      if hasMaskData (v_mask_uv vy)
      then (applyMask un (texture2D maskMap (v_mask_uv vy) (mipmapBias un)) outputColor,
            [(maskMap, v_mask_uv vy)])
      else (applyMask un zero4 outputColor, []) in
  let '(outputColor, blendFetches) := applyBlend un vy outputColor in
  (outputColor, [(layerMap, v_layer_uv vy)] ++ maskFetches ++ blendFetches).
End Main.
End Shader.

(** * The WebGL wrappers

    The wrappers issue calls on [context.gl]; a call log, oldest first,
    stands for the GL state.  What a call returns from the driver is an
    input of the function that makes it. *)

(** ** [renderers/webgl2/Framebuffer.ts] *)

Module Framebuffer.
(** What [readPixels] reads of the attached [TexImage2D]. *)
Record TexImage2D : Type := mkTexImage2D {
  dataType : Z;
  pixelFormat : Z;
  size : Vector2.t }.

Record FramebufferAttachment : Type := mkFramebufferAttachment {
  attachmentPoint : Z;
  texImage2D : TexImage2D }.

Record ArrayBufferView : Type := mkArrayBufferView {
  byteLength : Q;
  bufferId : nat }.

Inductive GlCall : Type :=
| gl_createFramebuffer
| gl_framebufferTexture2D (attachmentPoint : Z) (texImage2D : TexImage2D)
| gl_deleteFramebuffer (glFramebuffer : nat)
| gl_bindFramebuffer (glFramebuffer : nat)
| gl_clearColor (r g b alpha : Q)
| gl_clear (attachmentFlags : Z)
| gl_checkFramebufferStatus
| gl_readPixels (width height : Q) (pixelFormat dataType : Z) (pixelBuffer : ArrayBufferView).

Inductive Error : Type :=
| createFramebufferFailed
| notImplemented
| canNotFindColor0Attachment
| canNotReadNonRGBA (pixelFormat : Z)
| canNotReadNonComplete (status : Z)
| pixelBufferTooSmall (byteLength pixelByteLength : Q).

(** The fields of [RenderingContext] the class touches: the framebuffer
    currently selected (by its GL handle) and the GL call log. *)
Record Context : Type := mkContext {
  framebuffer : option nat;
  gl : list GlCall }.

Definition call (c : GlCall) (ctx : Context) : Context :=
  mkContext (framebuffer ctx) (gl ctx ++ [c]).

Definition set_framebuffer (fb : option nat) (ctx : Context) : Context :=
  mkContext fb (gl ctx).

Record t : Type := mk {
  disposed : bool;
  attachments : list FramebufferAttachment;
  glFramebuffer : nat }.

(** [constructor]; [created] is what [gl.createFramebuffer()] returns. *)
Definition constructor (attachments : list FramebufferAttachment) (created : option nat)
    (ctx : Context) : Outcome Error t * Context :=
  let ctx := call gl_createFramebuffer ctx in
  match created with
  | None => (Threw createFramebufferFailed, ctx)
  | Some glFramebuffer =>
      (Returned (mk false attachments glFramebuffer),
       foldl (λ ctx attachment,
                call (gl_framebufferTexture2D (attachmentPoint attachment)
                                              (texImage2D attachment)) ctx)
             ctx attachments)
  end.

Definition dispose (this : t) (ctx : Context) : t * Context :=
  if negb (disposed this)
  then (mk true (attachments this) (glFramebuffer this),
        call (gl_deleteFramebuffer (glFramebuffer this)) ctx)
  else (this, ctx).

Definition clear (this : t) (color : Vector3.t) (alpha : Q) (attachmentFlags : Z)
    (ctx : Context) : Context :=
  let ctx := call (gl_bindFramebuffer (glFramebuffer this)) ctx in
  let ctx := call (gl_clearColor (Vector3.x color) (Vector3.y color) (Vector3.z color) alpha)
                  ctx in
  call (gl_clear attachmentFlags) ctx.

Definition render (this : t) (ctx : Context) : Outcome Error unit * Context :=
  (Threw notImplemented, ctx).

Section ReadPixels.
(** [AttachmentPoints.Color0], [PixelFormat.RGBA], [GL.FRAMEBUFFER_COMPLETE]
    and the two size tables of [textures/DataType] and
    [textures/PixelFormat]. *)
Variables Color0 RGBA FRAMEBUFFER_COMPLETE : Z.
Variable sizeOfDataType : Z → Q.
Variable numPixelFormatComponents : Z → Q.

Definition pixelByteLength (tex : TexImage2D) : Q :=
  (sizeOfDataType (dataType tex) * numPixelFormatComponents (pixelFormat tex)
   * Vector2.width (size tex) * Vector2.height (size tex))%Q.

(** The [try] block; [status] is what [gl.checkFramebufferStatus] returns. *)
Definition readPixels_try (tex : TexImage2D) (pixelBuffer : ArrayBufferView) (status : Z)
    (ctx : Context) : Outcome Error ArrayBufferView * Context :=
  let ctx := call gl_checkFramebufferStatus ctx in
  if negb (status =? FRAMEBUFFER_COMPLETE) then (Threw (canNotReadNonComplete status), ctx)
  else if Qlt_bool (byteLength pixelBuffer) (pixelByteLength tex)
  then (Threw (pixelBufferTooSmall (byteLength pixelBuffer) (pixelByteLength tex)), ctx)
  else (Returned pixelBuffer,
        call (gl_readPixels (Vector2.width (size tex)) (Vector2.height (size tex))
                            (pixelFormat tex) (dataType tex) pixelBuffer) ctx).

Definition readPixels (this : t) (pixelBuffer : ArrayBufferView) (status : Z)
    (ctx : Context) : Outcome Error ArrayBufferView * Context :=
  match find (λ attachment, attachmentPoint attachment =? Color0) (attachments this) with
  | None => (Threw canNotFindColor0Attachment, ctx)
  | Some attachment =>
      let tex := texImage2D attachment in
      if negb (pixelFormat tex =? RGBA) then (Threw (canNotReadNonRGBA (pixelFormat tex)), ctx)
      else
        let oldFramebuffer := framebuffer ctx in
        let ctx := set_framebuffer (Some (glFramebuffer this)) ctx in
        let '(result, ctx) := readPixels_try tex pixelBuffer status ctx in
        (result, set_framebuffer oldFramebuffer ctx)               (* finally *)
  end.
End ReadPixels.
End Framebuffer.

(** ** [lib/renderers/webgl/textures/TexImage2D.ts]

    The class in full; the compositor's [newTexImage2D] above keeps of it
    the registration and one upload. *)

Module TexParameters.
Record t : Type := mk {
  wrapS : Z;
  wrapT : Z;
  magFilter : Z;
  minFilter : Z;
  anisotropyLevels : Q;
  generateMipmaps : bool }.
End TexParameters.

Module TexImage2D.
(** [CubeMapPositiveX face] stands for [TextureTarget.CubeMapPositiveX + face]. *)
Inductive TextureTarget : Type :=
| Texture2D
| TextureCubeMap
| CubeMapPositiveX (face : nat).

#[global] Instance TextureTarget_eq_dec : EqDecision TextureTarget.
Proof. solve_decision. Defined.

(** The three kinds of [TextureSource] that [loadImage] tells apart, the
    third split by [image instanceof HTMLImageElement]. *)
Inductive TextureSource : Type :=
| SourceVector2 (size : Vector2.t)
| SourceArrayBufferImage (width height : Q) (data : nat)
| SourceHTMLImageElement (width height : Q) (handle : nat)
| SourceOtherImage (width height : Q) (handle : nat).

Definition sourceSize (image : TextureSource) : Vector2.t :=
  match image with
  | SourceVector2 size => size
  | SourceArrayBufferImage w h _ | SourceHTMLImageElement w h _ | SourceOtherImage w h _ =>
      Vector2.mk w h
  end.

Inductive TexParameterName : Type :=
| TEXTURE_WRAP_S | TEXTURE_WRAP_T | TEXTURE_MAG_FILTER | TEXTURE_MIN_FILTER.

(** The calls on [gl].  The formats passed to [gl.texImage2D] are the
    object's own fields and are left out; the call carries the source it
    uploads, whose kind fixes the overload used. *)
Inductive GlCall : Type :=
| gl_createTexture
| gl_bindTexture (target : TextureTarget) (texture : option nat)
| gl_texImage2D (target : TextureTarget) (level : nat) (image : TextureSource)
| gl_pixelStorei_UNPACK_PREMULTIPLY_ALPHA_WEBGL (value : bool)
| gl_texParameteri (target : TextureTarget) (pname : TexParameterName) (value : Z)
| gl_getParameter_MAX_TEXTURE_MAX_ANISOTROPY_EXT
| gl_texParameterf_TEXTURE_MAX_ANISOTROPY_EXT (target : TextureTarget) (value : Q)
| gl_generateMipmap (target : TextureTarget)
| gl_deleteTexture (texture : nat).

Inductive Error : Type :=
| createTextureFailed
| unsupportedNumberOfImages
| typeError.                 (* a property of [undefined] is read *)

Record t : Type := mk {
  id : option nat;           (* assigned when the constructor ends *)
  disposed : bool;
  glTexture : nat;
  size : Vector2.t;
  images : list TextureSource;
  target : TextureTarget;
  texParameters : TexParameters.t }.

Definition set_size (size : Vector2.t) (o : t) : t :=
  mk (id o) (disposed o) (glTexture o) size (images o) (target o) (texParameters o).
Definition set_id (id : option nat) (o : t) : t :=
  mk id (disposed o) (glTexture o) (size o) (images o) (target o) (texParameters o).
Definition set_disposed (disposed : bool) (o : t) : t :=
  mk (id o) disposed (glTexture o) (size o) (images o) (target o) (texParameters o).
(** A method body: it runs on the object and the call log (oldest first),
    and returns or throws. *)
Definition M (A : Type) : Type := t * list GlCall → Outcome Error A * (t * list GlCall).

#[global] Instance M_ret : MRet M := λ A a st, (Returned a, st).
#[global] Instance M_bind : MBind M := λ A B f m st,
  match m st with
  | (Returned a, st') => f a st'
  | (Threw e, st') => (Threw e, st')
  end.

Definition call (c : GlCall) : M unit := λ st, (Returned (), (fst st, snd st ++ [c])).
Definition throw {A} (e : Error) : M A := λ st, (Threw e, st).
Definition this : M t := λ st, (Returned (fst st), st).
Definition update (f : t → t) : M unit := λ st, (Returned (), (f (fst st), snd st)).

(** [for (let i = 0; i < n; i++) body(i)] over the indices [l]. *)
Fixpoint for_ (l : list nat) (body : nat → M unit) : M unit :=
  match l with
  | [] => mret ()
  | i :: l' => body i ;; for_ l' body
  end.

(** [loadImage]; [None] is an [images[imageIndex]] that is [undefined]:
    it takes the last branch, where reading its width throws.  The GL calls
    themselves are taken to come back: a [gl.texImage2D] that throws (a
    cross-origin image) would end the method between the two [pixelStorei]
    calls, the flag still as the first one set it. *)
Definition loadImage (image : option TextureSource) (target : option TextureTarget)
    (level : nat) : M unit :=
  o ← this;
  let target := default (TexImage2D.target o) target in
  match image with
  | Some (SourceVector2 _ as image) | Some (SourceArrayBufferImage _ _ _ as image) =>
      call (gl_texImage2D target level image) ;;
      if (level =? 0)%nat then update (set_size (sourceSize image)) else mret ()
  | Some (SourceHTMLImageElement _ _ _ as image) =>
      call (gl_pixelStorei_UNPACK_PREMULTIPLY_ALPHA_WEBGL true) ;;
      call (gl_texImage2D target level image) ;;
      call (gl_pixelStorei_UNPACK_PREMULTIPLY_ALPHA_WEBGL false) ;;
      update (set_size (sourceSize image))
  | Some (SourceOtherImage _ _ _ as image) =>
      call (gl_pixelStorei_UNPACK_PREMULTIPLY_ALPHA_WEBGL false) ;;
      call (gl_texImage2D target level image) ;;
      call (gl_pixelStorei_UNPACK_PREMULTIPLY_ALPHA_WEBGL false) ;;
      update (set_size (sourceSize image))
  | None =>
      call (gl_pixelStorei_UNPACK_PREMULTIPLY_ALPHA_WEBGL false) ;;
      throw typeError
  end.

Definition loadImages (images : list TextureSource) : M unit :=
  o ← this;
  call (gl_bindTexture (target o) (Some (glTexture o))) ;;
  if (length images =? 1)%nat then loadImage (images !! 0%nat) None 0
  else if decide (target o = TextureCubeMap) then
    let numLevels := (length (TexImage2D.images o) / 6)%nat in
    for_ (seq 0 numLevels) (λ level,
      for_ (seq 0 6) (λ face,
        let imageIndex := (level * 6 + face)%nat in
        loadImage (images !! imageIndex) (Some (CubeMapPositiveX face)) level))
  else throw unsupportedNumberOfImages.

Definition dispose (o : t) (ctx : RenderingContext.t) : t * RenderingContext.t * list GlCall :=
  if negb (disposed o)
  then (set_disposed true o,
        match id o with
        | Some i => RenderingContext.disposeResource i ctx
        | None => ctx
        end,
        [gl_deleteTexture (glTexture o)])
  else (o, ctx, []).

Section Constructor.
(** [isPow2] of [math/Functions]. *)
Variable isPow2 : Q → bool.

(** The constructor's statements after [gl.createTexture];
    [maxAllowableAnisotropy] is [None] when the anisotropy extension is
    missing, else what [gl.getParameter] answers. *)
Definition construct (maxAllowableAnisotropy : option Q) : M unit :=
  o ← this;
  let texParameters := texParameters o in
  loadImages (images o) ;;
  call (gl_texParameteri (target o) TEXTURE_WRAP_S (TexParameters.wrapS texParameters)) ;;
  call (gl_texParameteri (target o) TEXTURE_WRAP_T (TexParameters.wrapT texParameters)) ;;
  call (gl_texParameteri (target o) TEXTURE_MAG_FILTER (TexParameters.magFilter texParameters)) ;;
  call (gl_texParameteri (target o) TEXTURE_MIN_FILTER (TexParameters.minFilter texParameters)) ;;
  (if Qlt_bool 1 (TexParameters.anisotropyLevels texParameters) then
     match maxAllowableAnisotropy with
     | Some maxAllowable =>
         call gl_getParameter_MAX_TEXTURE_MAX_ANISOTROPY_EXT ;;
         call (gl_texParameterf_TEXTURE_MAX_ANISOTROPY_EXT (target o)
                 (Qmin (TexParameters.anisotropyLevels texParameters) maxAllowable))
     | None => mret ()
     end
   else mret ()) ;;
  (if TexParameters.generateMipmaps texParameters then
     o ← this;
     if isPow2 (Vector2.width (size o)) && isPow2 (Vector2.height (size o))
     then call (gl_generateMipmap (target o)) else mret ()
   else mret ()) ;;
  o ← this;
  call (gl_bindTexture (target o) None).

(** [new TexImage2D(context, images, ..., target, texParameters)];
    [created] is what [gl.createTexture()] returns. *)
Definition constructor (images : list TextureSource) (target : TextureTarget)
    (texParameters : TexParameters.t) (created : option nat)
    (maxAllowableAnisotropy : option Q) (ctx : RenderingContext.t)
  : Outcome Error t * RenderingContext.t * list GlCall :=
  match created with
  | None => (Threw createTextureFailed, ctx, [gl_createTexture])
  | Some glTexture =>
      let o := mk None false glTexture (Vector2.mk 0 0) images target texParameters in
      match construct maxAllowableAnisotropy (o, [gl_createTexture]) with
      | (Returned _, (o, calls)) =>
          let '(id, ctx) := RenderingContext.registerResource ctx in
          (Returned (set_id (Some id) o), ctx, calls)
      | (Threw e, (_, calls)) => (Threw e, ctx, calls)
      end
  end.
End Constructor.

(** The uploads among the calls: target, level and source, in order. *)
Definition uploads (calls : list GlCall) : list (TextureTarget * nat * TextureSource) :=
  omap (λ c, match c with
             | gl_texImage2D target level image => Some (target, level, image)
             | _ => None
             end) calls.
End TexImage2D.

(** ** [renderers/webgl2/VertexArrayObject.ts] *)

Module VertexArrayObject.
Record ProgramAttribute : Type := mkProgramAttribute {
  attributeName : string;
  glLocation : Z }.

Record Buffer : Type := mkBuffer {
  target : Z;
  glBuffer : nat }.

Record VertexAttribute : Type := mkVertexAttribute {
  buffer : Buffer;
  componentsPerVertex : Z;
  componentType : Z;
  normalized : bool;
  vertexStride : Z;
  byteOffset : Z }.

Record NamedVertexAttribute : Type := mkNamedVertexAttribute {
  name : string;
  vertexAttribute : VertexAttribute }.

Inductive GlCall : Type :=
| gl_createVertexArray
| gl_bindVertexArray (vao : nat)
| gl_enableVertexAttribArray (location : Z)
| gl_bindBuffer (target : Z) (glBuffer : nat)
| gl_vertexAttribPointer (location componentsPerVertex componentType : Z) (normalized : bool)
                         (vertexStride byteOffset : Z).

Inductive Error : Type := createVertexArrayFailed.

(** Body of [namedVertexAttributes.forEach]: the calls of one turn. *)
Definition bindAttribute (attributes : list ProgramAttribute)
    (namedVertexAttribute : NamedVertexAttribute) : list GlCall :=
  match find (λ attribute, String.eqb (attributeName attribute) (name namedVertexAttribute))
             attributes with
  | None => []
  | Some programAttribute =>
      let vertexAttribute := vertexAttribute namedVertexAttribute in
      [ gl_enableVertexAttribArray (glLocation programAttribute);
        gl_bindBuffer (target (buffer vertexAttribute)) (glBuffer (buffer vertexAttribute));
        gl_vertexAttribPointer (glLocation programAttribute)
          (componentsPerVertex vertexAttribute) (componentType vertexAttribute)
          (normalized vertexAttribute) (vertexStride vertexAttribute)
          (byteOffset vertexAttribute) ]
  end.

(** [constructor]: the outcome and the calls made, in order; [created] is
    what [gl.createVertexArray()] returns. *)
Definition constructor (attributes : list ProgramAttribute)
    (namedVertexAttributes : list NamedVertexAttribute) (created : option nat)
  : Outcome Error nat * list GlCall :=
  match created with
  | None => (Threw createVertexArrayFailed, [gl_createVertexArray])
  | Some vao =>
      (Returned vao,
       gl_createVertexArray :: gl_bindVertexArray vao
         :: foldl (λ calls namedVertexAttribute,
                     calls ++ bindAttribute attributes namedVertexAttribute)
                  [] namedVertexAttributes)
  end.

(** The geometry attribute has a counterpart in the program. *)
Definition inProgram (attributes : list ProgramAttribute)
    (namedVertexAttribute : NamedVertexAttribute) : bool :=
  existsb (λ attribute, String.eqb (attributeName attribute) (name namedVertexAttribute))
          attributes.
End VertexArrayObject.

(** * Vocabulary of the properties *)

(** In the history [h] (newest first) a load of [id] completed while [id]
    was desired, and [id] has not been discarded since. *)
Definition loadedAndKept (h : list Event) (id : string) : Prop :=
  ∃ newer older,
    h = newer ++ EvLoadCompleted id true :: older ∧ EvDiscarded id ∉ newer.

(** The part of the state the loader's invariants speak about. *)
Definition loaderState (s : LayerCompositor) :=
  (dom (layerImageCache s), texImage2DPromiseCache s, desiredImages s,
   promises s, history s, fetchLog s).

Record CacheInv (s : LayerCompositor) : Prop := mkCacheInv {
  inv_resident : ∀ id, id ∈ dom (layerImageCache s) ↔ loadedAndKept (history s) id;
  inv_desired : ∀ id, id ∈ dom (layerImageCache s) → id ∈ desiredImages s;
  inv_pending : ∀ id p,
    texImage2DPromiseCache s !! id = Some p →
    id ∈ desiredImages s
    ∧ (promises s !! p = Some (Pending id)
       ∨ ((∃ tex, promises s !! p = Some (Fulfilled (Some tex)))
          ∧ id ∈ dom (layerImageCache s))
       ∨ (∃ e, promises s !! p = Some (Rejected e))) }.

(** The invariant as the specification words its second half: every entry
    of the Pending-Load Map is a task that has not settled. *)
Definition pendingMapHoldsNoSettledTask (s : LayerCompositor) : Prop :=
  ∀ id p, texImage2DPromiseCache s !! id = Some p →
          ∃ url, promises s !! p = Some (Pending url).

Definition fetchCount (id : string) (s : LayerCompositor) : nat :=
  length (filter (λ url, url = id) (fetchLog s)).

(** The events logged on the way from [s0] to [s]. *)
Definition eventsSince (s0 s : LayerCompositor) : list Event :=
  take (length (history s) - length (history s0)) (history s).

(** The operation settles promise [p]. *)
Definition settles (p : nat) (op : Op) : bool :=
  match op with
  | FetchDelivers q _ | FetchDeliversGlNull q _ | FetchFails q => bool_decide (q = p)
  | _ => false
  end.

(** The operation is a request for [id]. *)
Definition requests (id : string) (op : Op) : bool :=
  match op with
  | CallLoadTexImage2D url _ | CallLoadTexImage2DGlNull url _ => bool_decide (url = id)
  | _ => false
  end.

(** One fetch is in flight for [id], shared through the map, and [n]
    fetches of [id] have been started so far. *)
Record FanIn (id : string) (p n : nat) (s : LayerCompositor) : Prop := mkFanIn {
  fan_desired : id ∈ desiredImages s;
  fan_cached : texImage2DPromiseCache s !! id = Some p;
  fan_pending : promises s !! p = Some (Pending id);
  fan_count : fetchCount id s = n }.

(** The history only grows. *)
Definition extends (s s' : LayerCompositor) : Prop :=
  ∃ new, history s' = new ++ history s.

(** From [s] to [s'], either [id] was discarded or the fan-in still stands. *)
Definition fanInOrDiscarded (id : string) (p n : nat) (s s' : LayerCompositor) : Prop :=
  ∃ new, history s' = new ++ history s
         ∧ (EvDiscarded id ∈ new ∨ FanIn id p n s').

(** Promise [p] is the suspended load of [id], and whenever [id] is not
    desired it has neither a resident image nor an entry in the map. *)
Record InFlight (id : string) (p : nat) (s : LayerCompositor) : Prop := mkInFlight {
  flight_pending : promises s !! p = Some (Pending id);
  flight_clean : id ∉ desiredImages s →
                 id ∉ dom (layerImageCache s) ∧ texImage2DPromiseCache s !! id = None }.

(** A load that ends by a throw changes the Desired Set, the Pending-Load
    Map and the promises, and nothing else. *)
Definition loaderFrame (s s' : LayerCompositor) : Prop :=
  ∃ m ps d, s' = set_texImage2DPromiseCache m (set_promises ps (set_desiredImages d s)).

(** The offscreen targets and their size. *)
Definition targets (s : LayerCompositor) :=
  (offscreenSize s, offscreenWriteFramebuffer s, offscreenWriteColorAttachment s,
   offscreenReadFramebuffer s, offscreenReadColorAttachment s).

(** What the caller configures and what the renderer keeps between frames:
    everything but the loader's maps, the GPU log and the runtime. *)
Definition sceneState (s : LayerCompositor) :=
  (autoDiscard s, renderId s, imageSize s, imageFitMode s, zoomScale s, panPosition s,
   layers s, layerVersion s, offlineLayerVersion s, targets s,
   RenderingContext.canvasSize (context s), RenderingContext.devicePixelRatio (context s)).

(** The passes the protocol prescribes for one layer, in the order they are
    issued: a copy into the read target when the layer is not trivially
    blended, then the blend into the write target. *)
Definition layerPasses (readFb writeFb : nat) (imageToOffscreen : Matrix4)
    (viewToImageUv : Matrix3) (s : LayerCompositor) (layer : Layer.t) : list GpuCommand :=
  (if Layer.isTriviallyBlended layer then []
   else [copyDraw readFb layer imageToOffscreen viewToImageUv s])
  ++ [blendDraw writeFb layer imageToOffscreen viewToImageUv s].

(** The commands in the order they were issued. *)
Definition issued (s : LayerCompositor) : list GpuCommand :=
  rev (RenderingContext.commands (context s)).

(** The projection used by the recomposition. *)
Definition imageToOffscreen (s : LayerCompositor) : Matrix4 :=
  makeMatrix4Orthographic 0 (Vector2.width (offscreenSize s))
                          0 (Vector2.height (offscreenSize s)) (-1) 1.

Definition viewToImageUv (s : LayerCompositor) : Matrix3 :=
  makeMatrix3FromViewToLayerUv (offscreenSize s) true.

(** The offscreen content is up to date with the layer stack. *)
Definition Composed (s : LayerCompositor) : Prop :=
  layerVersion s <= offlineLayerVersion s.

(** The clears and the draws whose target is an offscreen framebuffer. *)
Definition drawsOffscreen (c : GpuCommand) : bool :=
  match c with
  | CmdClear (OffscreenFramebuffer _) _ _ => true
  | CmdDraw (OffscreenFramebuffer _) _ _ => true
  | _ => false
  end.



(** A write framebuffer never goes without its colour attachment. *)
Definition Attached (s : LayerCompositor) : Prop :=
  is_Some (offscreenWriteFramebuffer s) → is_Some (offscreenWriteColorAttachment s).


(** What [updateOffscreen] leaves alone. *)
Definition stackState (s : LayerCompositor) :=
  (autoDiscard s, renderId s, layers s, layerVersion s, offlineLayerVersion s).

(** The same state with another pan position. *)
Definition moved (pan : Vector2.t) (s : LayerCompositor) : LayerCompositor :=
  set_panPosition pan s.

(** The urls a layer refers to: its own and its mask's. *)
Definition layerUrls (layer : Layer.t) : list string :=
  Layer.url layer
  :: match Layer.mask layer with
     | Some mask => [LayerMask.url mask]
     | None => []
     end.

Definition referencedUrls (ls : list Layer.t) : list string := flat_map layerUrls ls.

(** A cache entry after the usage marks of a render with id [rid]. *)
Definition mark (rid : Z) (used : bool) (entry : option LayerImage.t) : option LayerImage.t :=
  if used then LayerImage.set_renderId rid <$> entry else entry.

(** No resident image carries a render id from the future. *)
Record Fresh (s : LayerCompositor) : Prop := mkFresh {
  fresh_renderId : 0 <= renderId s;
  fresh_images : ∀ url li, layerImageCache s !! url = Some li →
                           LayerImage.renderId li <= renderId s }.

(** [render] up to the auto-discard loop. *)
Definition presented (s : LayerCompositor) : LayerCompositor :=
  let s1 := renderLayersToFramebuffer (set_renderId (renderId s + 1) s) in
  match offscreenWriteColorAttachment s1 with
  | None => s1
  | Some att =>
      let s2 := issue (CmdClear CanvasFramebuffer transparentBlack 0) s1 in
      issue (presentDraw s2 att) s2
  end.

Definition isRender (op : Op) : bool :=
  match op with CallRender => true | _ => false end.


(** Two colours equal channel by channel as rationals. *)
Definition vec4_equiv (c d : Shader.vec4) : Prop :=
  (Shader.r c == Shader.r d)%Q ∧ (Shader.g c == Shader.g d)%Q
  ∧ (Shader.b c == Shader.b d)%Q ∧ (Shader.a c == Shader.a d)%Q.

(** The resources the compositor holds on to: the four offscreen targets
    and the textures of the resident images. *)
Definition targetIds (s : LayerCompositor) : list (option nat) :=
  [offscreenWriteFramebuffer s; offscreenWriteColorAttachment s;
   offscreenReadFramebuffer s; offscreenReadColorAttachment s].

Definition residentTexture (s : LayerCompositor) (n : nat) : Prop :=
  ∃ url li, layerImageCache s !! url = Some li ∧ LayerImage.texImage2D li = n.


Definition registered (s : LayerCompositor) : gset nat :=
  RenderingContext.resources (context s).

Definition nextId (s : LayerCompositor) : nat :=
  RenderingContext.nextResourceId (context s).




(** The resident textures are alive: registered with the context, each
    under the url of its entry, no two entries sharing one, none serving
    as an offscreen target. *)
Record Live (s : LayerCompositor) : Prop := mkLive {
  live_bounded : ∀ n, n ∈ registered s → (n < nextId s)%nat;
  live_resident : ∀ url li,
    layerImageCache s !! url = Some li →
    LayerImage.texImage2D li ∈ registered s
    ∧ LayerImage.url li = url ∧ LayerImage.disposed li = false;
  live_distinct : ∀ url1 url2 li1 li2,
    layerImageCache s !! url1 = Some li1 → layerImageCache s !! url2 = Some li2 →
    LayerImage.texImage2D li1 = LayerImage.texImage2D li2 → url1 = url2;
  live_targets : ∀ n, Some n ∈ targetIds s → (n < nextId s)%nat ∧ ¬ residentTexture s n }.

(** The [UNPACK_PREMULTIPLY_ALPHA_WEBGL] flag after the calls, from [flag]. *)
Definition unpackFlag (flag : bool) (calls : list TexImage2D.GlCall) : bool :=
  foldl (λ flag c, match c with
                   | TexImage2D.gl_pixelStorei_UNPACK_PREMULTIPLY_ALPHA_WEBGL value => value
                   | _ => flag
                   end) flag calls.

(** The uploads among the calls, each with the flag in force when made. *)
Fixpoint flaggedUploads (flag : bool) (calls : list TexImage2D.GlCall)
  : list (TexImage2D.TextureSource * bool) :=
  match calls with
  | [] => []
  | TexImage2D.gl_pixelStorei_UNPACK_PREMULTIPLY_ALPHA_WEBGL value :: calls =>
      flaggedUploads value calls
  | TexImage2D.gl_texImage2D _ _ image :: calls => (image, flag) :: flaggedUploads flag calls
  | _ :: calls => flaggedUploads flag calls
  end.

Definition isHTMLImageElement (image : TexImage2D.TextureSource) : bool :=
  match image with TexImage2D.SourceHTMLImageElement _ _ _ => true | _ => false end.

(** Calls that, entered with the flag off, leave it off and upload with
    the flag on exactly the [HTMLImageElement]s. *)
Definition UnpackClean (calls : list TexImage2D.GlCall) : Prop :=
  unpackFlag false calls = false
  ∧ Forall (λ u, snd u = isHTMLImageElement (fst u)) (flaggedUploads false calls).

(** A method body that only ever appends such calls. *)
Definition UnpackCleanM {A} (m : TexImage2D.M A) : Prop :=
  ∀ o log, ∃ cs, snd (snd (m (o, log))) = log ++ cs ∧ UnpackClean cs.

(** Every resident image carries [-1], its value on creation, or the id of
    a render made so far. *)
Definition Stamped (s : LayerCompositor) : Prop :=
  0 <= renderId s
  ∧ ∀ url li, layerImageCache s !! url = Some li →
              LayerImage.renderId li = -1 ∨ 1 <= LayerImage.renderId li <= renderId s.

(** * Properties *)

(** ** The loader with a pre-decoded image *)

Lemma finishLoad_wanted url image hadToFetch s :
  url ∈ desiredImages s →
  ∃ li, finishLoad url image hadToFetch s
        = (Some (LayerImage.texImage2D li),
           set_layerImageCache (<[url := li]> (layerImageCache s))
             (set_context (snd (newTexImage2D (SourceImage image) (context s)))
                (set_history (EvLoadCompleted url true :: history s) s)))
        ∧ li = LayerImage.mk url (RenderingContext.nextResourceId (context s))
                             (Some image) false (-1).
Proof.
  intros Hin. unfold finishLoad. rewrite bool_decide_eq_true_2 by done.
  eexists. split; reflexivity.
Qed.

Lemma finishLoad_unwanted url image hadToFetch s :
  url ∉ desiredImages s →
  finishLoad url image hadToFetch s
  = (None,
     let s1 := set_texImage2DPromiseCache (delete url (texImage2DPromiseCache s))
                 (set_history (EvLoadCompleted url false :: history s) s) in
     if hadToFetch then releaseImage (Some image) s1 else s1).
Proof.
  intros Hout. unfold finishLoad. rewrite bool_decide_eq_false_2 by done. reflexivity.
Qed.

Lemma loadTexImage2DGlNull_cases url image s :
  loadTexImage2DGlNull url image s
  = let s1 := set_desiredImages ({[url]} ∪ desiredImages s) s in
    match texImage2DPromiseCache s !! url with
    | Some p => (p, s1)
    | None =>
        (length (promises s),
         set_texImage2DPromiseCache (<[url := length (promises s)]> (texImage2DPromiseCache s))
           (set_promises (promises s ++ [Rejected createTextureFailed]) s1))
    end.
Proof.
  unfold loadTexImage2DGlNull, finishLoadGlNull. cbn.
  destruct (texImage2DPromiseCache s !! url); [done|].
  rewrite bool_decide_eq_true_2 by set_solver. reflexivity.
Qed.

Lemma resumeLoadGlNull_cases p image s :
  (∃ url, promises s !! p = Some (Pending url) ∧ url ∈ desiredImages s
          ∧ resumeLoadGlNull p image s
            = set_promises (<[p := Rejected createTextureFailed]> (promises s)) s)
  ∨ ((∀ url, promises s !! p = Some (Pending url) → url ∉ desiredImages s)
     ∧ resumeLoadGlNull p image s = resumeLoad p image s).
Proof.
  unfold resumeLoadGlNull, resumeLoad, finishLoadGlNull.
  destruct (promises s !! p) as [[url|v|e]|] eqn:Hp; try (right; split; [done|reflexivity]).
  case_bool_decide as Hw.
  - left. exists url. done.
  - right. split; [by intros ? [= <-]|]. by destruct (finishLoad url image true s).
Qed.

Lemma rejectLoad_cases p s :
  (∃ url, promises s !! p = Some (Pending url)
          ∧ rejectLoad p s = set_promises (<[p := Rejected fetchFailed]> (promises s)) s)
  ∨ ((∀ url, promises s !! p ≠ Some (Pending url)) ∧ rejectLoad p s = s).
Proof.
  unfold rejectLoad.
  destruct (promises s !! p) as [[url|v|e]|] eqn:Hp; try (right; split; [done|reflexivity]).
  left. by exists url.
Qed.

(** C10, as amended. A call of [loadTexImage2D] with a pre-decoded image,
    when the Pending-Load Map has no task for the url (a url that is not
    the name of an inherited object property), never resolves to
    cancelled.  When [gl.createTexture()] hands out a texture, the promise
    returned is already fulfilled with that texture: a new one, made from
    the supplied image by one creation command and registered with the
    context under the next id; a [LayerImage] holding it and the image is
    in the Resident Cache, and the image is not released.  When
    [gl.createTexture()] answers [null] the promise is rejected with the
    creation error, it stays in the map, and no texture and no
    [LayerImage] is made.  On the cancelled path a run with [hadToFetch]
    unset releases nothing: only fetched images are released. *)
Theorem predecoded_load_resolves_with_texture s url img :
  inheritedKey url = false →
  texImage2DPromiseCache s !! url = None →
  (let p := fst (loadTexImage2D url (Some img) s) in
   let s' := snd (loadTexImage2D url (Some img) s) in
   let n := nextId s in
   promises s' !! p = Some (Fulfilled (Some n))
   ∧ layerImageCache s' !! url = Some (LayerImage.mk url n (Some img) false (-1))
   ∧ texImage2DPromiseCache s' !! url = Some p
   ∧ issued s' = issued s ++ [CmdCreateTexture n (SourceImage img)]
   ∧ registered s' = {[n]} ∪ registered s
   ∧ nextId s' = S n
   ∧ history s' = EvLoadCompleted url true :: history s
   ∧ closedBitmaps s' = closedBitmaps s)
  ∧ (let p := fst (loadTexImage2DGlNull url img s) in
     let s' := snd (loadTexImage2DGlNull url img s) in
     promises s' !! p = Some (Rejected createTextureFailed)
     ∧ texImage2DPromiseCache s' !! url = Some p
     ∧ layerImageCache s' = layerImageCache s
     ∧ context s' = context s
     ∧ history s' = history s
     ∧ closedBitmaps s' = closedBitmaps s)
  ∧ (∀ s' : LayerCompositor, url ∉ desiredImages s' →
       fst (finishLoad url img false s') = None
       ∧ closedBitmaps (snd (finishLoad url img false s')) = closedBitmaps s'
       ∧ layerImageCache (snd (finishLoad url img false s')) = layerImageCache s').
Proof.
  intros _ Hnone. split; [|split].
  - unfold loadTexImage2D. cbn [texImage2DPromiseCache set_desiredImages].
    rewrite Hnone.
    destruct (finishLoad_wanted url img false
                (set_desiredImages ({[url]} ∪ desiredImages s) s)) as (li & Hfin & Hli).
    { cbn. set_solver. }
    rewrite Hfin. subst li. cbn.
    split; [|split; [|split; [|split; [|split; [|split; [|split]]]]]]; try reflexivity.
    + rewrite lookup_app_r by lia. by rewrite Nat.sub_diag.
    + apply lookup_insert_eq.
    + apply lookup_insert_eq.
  - rewrite loadTexImage2DGlNull_cases. cbn zeta. rewrite Hnone. cbn.
    split; [|split; [|split; [|split; [|split]]]]; try reflexivity.
    + rewrite lookup_app_r by lia. by rewrite Nat.sub_diag.
    + apply lookup_insert_eq.
  - intros s' Hout. rewrite finishLoad_unwanted by done. cbn. done.
Qed.

Lemma predecoded_load_resolves_with_texture_witness :
  let s := initial (Vector2.mk 800 600) 1 true in
  let s' := snd (loadTexImage2D "a" (Some (ImageBitmap 7)) s) in
  promises s' !! fst (loadTexImage2D "a" (Some (ImageBitmap 7)) s)
  = Some (Fulfilled (Some 0%nat))
  ∧ layerImageCache s' !! "a"
    = Some (LayerImage.mk "a" 0 (Some (ImageBitmap 7)) false (-1))
  ∧ issued s' = [CmdCreateTexture 0 (SourceImage (ImageBitmap 7))].
Proof.
  intros s s'.
  destruct (predecoded_load_resolves_with_texture s "a" (ImageBitmap 7))
    as [(H1 & H2 & _ & H4 & _) _].
  - reflexivity.
  - reflexivity.
  - split; [exact H1|]. split; [exact H2 | exact H4].
Defined.

(** C10, the claim as stated fails: when [gl.createTexture()] answers
    [null], a request with a pre-decoded image and no task in the map
    returns a promise that is rejected, not resolved with a texture, and
    leaves the Resident Cache empty. *)
Lemma predecoded_load_rejected_without_texture :
  let s := initial (Vector2.mk 800 600) 1 true in
  let s' := run [CallLoadTexImage2DGlNull "a" (ImageBitmap 7)] s in
  texImage2DPromiseCache s !! "a" = None
  ∧ fst (exec [CallLoadTexImage2DGlNull "a" (ImageBitmap 7)] s) = [RPromise 0]
  ∧ promises s' !! 0%nat = Some (Rejected createTextureFailed)
  ∧ layerImageCache s' !! "a" = None
  ∧ issued s' = [].
Proof. vm_compute. repeat split; reflexivity. Qed.

(** ** What the loader keeps: the cache invariant *)

Lemma loadedAndKept_cons_loaded h id : loadedAndKept (EvLoadCompleted id true :: h) id.
Proof. exists [], h. split; [done | apply not_elem_of_nil]. Qed.

Lemma loadedAndKept_cons_discarded h id : ¬ loadedAndKept (EvDiscarded id :: h) id.
Proof.
  intros (newer & older & Heq & Hnot). destruct newer as [|e newer]; simplify_eq/=.
  apply Hnot. left.
Qed.

Lemma loadedAndKept_cons_other e h id :
  e ≠ EvLoadCompleted id true → e ≠ EvDiscarded id →
  loadedAndKept (e :: h) id ↔ loadedAndKept h id.
Proof.
  intros Hl Hd. split.
  - intros (newer & older & Heq & Hnot). destruct newer as [|e' newer]; simplify_eq/=.
    exists newer, older. split; [done|]. intros Hin. apply Hnot. by right.
  - intros (newer & older & -> & Hnot). exists (e :: newer), older. split; [done|].
    intros [Heq|Hin]%elem_of_cons; [congruence | by apply Hnot].
Qed.

Lemma loaderState_eq s s' :
  loaderState s = loaderState s' →
  dom (layerImageCache s) = dom (layerImageCache s')
  ∧ texImage2DPromiseCache s = texImage2DPromiseCache s'
  ∧ desiredImages s = desiredImages s'
  ∧ promises s = promises s'
  ∧ history s = history s'
  ∧ fetchLog s = fetchLog s'.
Proof. unfold loaderState. intros H. by simplify_eq. Qed.

Lemma CacheInv_loaderState s s' : loaderState s = loaderState s' → CacheInv s → CacheInv s'.
Proof.
  intros (Hd & Hp & Hw & Hq & Hh & _)%loaderState_eq [I1 I2 I3].
  split; rewrite <-?Hd, <-?Hp, <-?Hw, <-?Hq, <-?Hh; auto.
Qed.

Lemma CacheInv_initial size dpr bitmaps : CacheInv (initial size dpr bitmaps).
Proof.
  split; cbn.
  - intros id. rewrite dom_empty_L. split; [set_solver|].
    intros (newer & older & Heq & _). by destruct newer.
  - intros id. rewrite dom_empty_L. set_solver.
  - intros id p. by rewrite lookup_empty.
Qed.

(** The texture is uploaded and the image made resident. *)
Lemma CacheInv_made_resident url li ctx s :
  url ∈ desiredImages s → CacheInv s →
  CacheInv (set_layerImageCache (<[url := li]> (layerImageCache s))
              (set_context ctx (set_history (EvLoadCompleted url true :: history s) s))).
Proof.
  intros Hin [I1 I2 I3]. split; cbn.
  - intros id. rewrite dom_insert_L. destruct (decide (id = url)) as [->|Hne].
    + split; [intros _; apply loadedAndKept_cons_loaded | set_solver].
    + rewrite loadedAndKept_cons_other by congruence. rewrite <-I1. set_solver.
  - intros id. rewrite dom_insert_L. intros [->%elem_of_singleton|H]%elem_of_union; auto.
  - intros id p Hp. destruct (I3 id p Hp) as [Hd [Hpend|[[Hful Hres]|Hrej]]]; split; auto.
    right. left. split; [done|]. rewrite dom_insert_L. set_solver.
Qed.

Lemma CacheInv_wanted url s : CacheInv s →
  CacheInv (set_desiredImages ({[url]} ∪ desiredImages s) s).
Proof.
  intros [I1 I2 I3]. split; cbn; [done | set_solver |].
  intros id p Hp. destruct (I3 id p Hp) as [Hd Hrest]. split; [set_solver | done].
Qed.

Lemma CacheInv_promise_bound s id p :
  CacheInv s → texImage2DPromiseCache s !! id = Some p → (p < length (promises s))%nat.
Proof.
  intros [_ _ I3] Hp. destruct (I3 id p Hp) as [_ [H|[[[tex H] _]|[e H]]]];
    by apply lookup_lt_Some in H.
Qed.

Lemma CacheInv_loadTexImage2D url image s :
  CacheInv s → CacheInv (snd (loadTexImage2D url image s)).
Proof.
  intros HI. apply (CacheInv_wanted url) in HI.
  unfold loadTexImage2D.
  set (s1 := set_desiredImages ({[url]} ∪ desiredImages s) s) in *.
  assert (Hw : url ∈ desiredImages s1) by (cbn; set_solver).
  destruct (texImage2DPromiseCache s1 !! url) as [p|] eqn:Hcache; [done|].
  destruct image as [img|].
  - destruct (finishLoad_wanted url img false s1 Hw) as (li & -> & _).
    pose proof (CacheInv_made_resident url li
                  (snd (newTexImage2D (SourceImage img) (context s1))) s1 Hw HI) as HI'.
    set (s2 := set_layerImageCache _ _) in *.
    destruct HI' as [I1 I2 I3]. split; cbn; [done | done |].
    intros id p. destruct (decide (url = id)) as [->|Hne].
    + rewrite lookup_insert_eq. intros [= <-]. split; [done|]. right. left. split.
      * eexists. rewrite lookup_app_r by (cbn; lia). cbn.
        by rewrite Nat.sub_diag.
      * cbn. rewrite dom_insert_L. set_solver.
    + rewrite lookup_insert_ne by done. intros Hp.
      destruct (I3 id p Hp) as [Hd Hrest]. split; [done|].
      assert (p < length (promises s1))%nat.
      { destruct Hrest as [H|[[[tex H] _]|[e H]]]; by apply lookup_lt_Some in H. }
      cbn in *. rewrite lookup_app_l by done. done.
  - destruct HI as [I1 I2 I3]. split; cbn; [done | done |].
    intros id p. destruct (decide (url = id)) as [->|Hne].
    + rewrite lookup_insert_eq. intros [= <-]. split; [done|]. left.
      rewrite lookup_app_r by lia. by rewrite Nat.sub_diag.
    + rewrite lookup_insert_ne by done. intros Hp.
      destruct (I3 id p Hp) as [Hd Hrest]. split; [done|].
      assert (p < length (promises s1))%nat.
      { destruct Hrest as [H|[[[tex H] _]|[e H]]]; by apply lookup_lt_Some in H. }
      rewrite lookup_app_l by done. done.
Qed.

(** *** Parts of the compositor that leave the loader's state alone *)

Lemma loaderState_releaseImage image s : loaderState (releaseImage image s) = loaderState s.
Proof.
  unfold releaseImage. destruct image as [[h|h]|]; try done.
  by destruct (imageBitmapSupported s).
Qed.

Lemma loaderState_LayerImage_dispose li s :
  loaderState (LayerImage_dispose li s) = loaderState s.
Proof.
  unfold LayerImage_dispose. destruct (LayerImage.disposed li); [done|].
  by rewrite loaderState_releaseImage.
Qed.

Lemma loaderState_replaceWriteTarget s : loaderState (replaceWriteTarget s) = loaderState s.
Proof.
  unfold replaceWriteTarget.
  destruct (offscreenWriteFramebuffer s); cbn;
    destruct (offscreenWriteColorAttachment s); reflexivity.
Qed.

Lemma loaderState_replaceReadTarget s : loaderState (replaceReadTarget s) = loaderState s.
Proof.
  unfold replaceReadTarget.
  destruct (offscreenReadFramebuffer s); cbn;
    destruct (offscreenReadColorAttachment s); reflexivity.
Qed.

Lemma loaderState_updateOffscreen s : loaderState (updateOffscreen s) = loaderState s.
Proof.
  unfold updateOffscreen. destruct (offscreenOutdated s); [|done].
  by rewrite loaderState_replaceReadTarget, loaderState_replaceWriteTarget.
Qed.

Lemma loaderState_markUsed url s : loaderState (markUsed url s) = loaderState s.
Proof. unfold loaderState, markUsed. cbn. by rewrite dom_alter_L. Qed.

Lemma loaderState_compositeLayer r w m v s layer :
  loaderState (compositeLayer r w m v s layer) = loaderState s.
Proof.
  unfold compositeLayer.
  destruct (Layer.mask layer) as [mask|], (Layer.isTriviallyBlended layer); cbn;
    unfold loaderState; cbn; by rewrite ?dom_alter_L.
Qed.

Lemma loaderState_foldl_compositeLayer r w m v ls s :
  loaderState (foldl (compositeLayer r w m v) s ls) = loaderState s.
Proof.
  revert s. induction ls as [|l ls IH]; intros s; [done|].
  cbn. by rewrite IH, loaderState_compositeLayer.
Qed.

Lemma loaderState_renderLayersToFramebuffer s :
  loaderState (renderLayersToFramebuffer s) = loaderState s.
Proof.
  unfold renderLayersToFramebuffer.
  pose proof (loaderState_updateOffscreen s) as Hu.
  set (s1 := updateOffscreen s) in *.
  destruct (offlineLayerVersion s1 >=? layerVersion s1); [done|].
  cbn.
  destruct (offscreenWriteFramebuffer s1) as [w|]; [|done].
  destruct (offscreenReadFramebuffer s1) as [r|]; [|done].
  match goal with
  | |- context [foldl ?f ?a ?l] =>
      pose proof (loaderState_foldl_compositeLayer r w
                    (makeMatrix4Orthographic 0 (Vector2.width (offscreenSize s1)) 0
                       (Vector2.height (offscreenSize s1)) (-1) 1)
                    (makeMatrix3FromViewToLayerUv (offscreenSize s1) true) l a) as Hf;
      set (s2 := foldl f a l) in *
  end.
  rewrite <-Hu. etransitivity; [|exact Hf].
  by destruct (offscreenWriteColorAttachment s2).
Qed.

(** *** The invariant along loads, discards and renders *)

Lemma CacheInv_resumeLoad p image s : CacheInv s → CacheInv (resumeLoad p image s).
Proof.
  intros HI. unfold resumeLoad.
  destruct (promises s !! p) as [[url|v|e]|] eqn:Hp; try done.
  destruct (decide (url ∈ desiredImages s)) as [Hw|Hw].
  - destruct (finishLoad_wanted url image true s Hw) as (li & -> & _).
    pose proof (CacheInv_made_resident url li
                  (snd (newTexImage2D (SourceImage image) (context s))) s Hw HI) as HI'.
    set (s2 := set_layerImageCache _ _) in *.
    destruct HI' as [I1 I2 I3]. split; [done | done |].
    intros id q Hq. destruct (I3 id q Hq) as [Hd Hrest]. split; [done|].
    change (promises (set_promises (<[p:=Fulfilled (Some (LayerImage.texImage2D li))]>
                                      (promises s2)) s2))
      with (<[p:=Fulfilled (Some (LayerImage.texImage2D li))]> (promises s)).
    change (promises s2) with (promises s) in Hrest.
    destruct (decide (q = p)) as [->|Hne].
    + right. left. rewrite list_lookup_insert_eq by (by apply lookup_lt_Some in Hp).
      split; [by eexists|].
      destruct Hrest as [H|[[_ H]|[e H]]]; [|done|by rewrite Hp in H].
      rewrite Hp in H. injection H as ->. cbn. rewrite dom_insert_L. set_solver.
    + rewrite list_lookup_insert_ne by done. done.
  - rewrite (finishLoad_unwanted url image true s Hw). cbn zeta.
    set (s1 := set_texImage2DPromiseCache _ _).
    assert (HI1 : CacheInv s1).
    { destruct HI as [I1 I2 I3]. split; cbn.
      - intros id. rewrite loadedAndKept_cons_other by congruence. apply I1.
      - done.
      - intros id q [Hne Hq]%lookup_delete_Some. by apply I3. }
    assert (Hgone : ∀ id, texImage2DPromiseCache s1 !! id ≠ Some p).
    { intros id Hq. unfold s1 in Hq. cbn in Hq.
      apply lookup_delete_Some in Hq as [Hne Hq].
      destruct HI as [_ _ I3]. destruct (I3 id p Hq) as [Hd [H|[[[tex H] _]|[e H]]]];
        rewrite Hp in H; simplify_eq. }
    assert (HI2 : CacheInv (releaseImage (Some image) s1)).
    { eapply CacheInv_loaderState; [|exact HI1]. by rewrite loaderState_releaseImage. }
    pose proof (loaderState_releaseImage (Some image) s1) as Hl.
    apply loaderState_eq in Hl as (Hd & Hc & Hw' & Hq & Hh & _).
    set (s2 := releaseImage (Some image) s1) in *.
    destruct HI2 as [I1 I2 I3]. split; cbn; [done | done |].
    intros id q Hcache. destruct (I3 id q Hcache) as [Hdes Hrest]. split; [done|].
    assert (q ≠ p) by (intros ->; apply (Hgone id); by rewrite <-Hc).
    by rewrite list_lookup_insert_ne.
Qed.

Lemma CacheInv_discardTexImage2D url s :
  CacheInv s → CacheInv (snd (discardTexImage2D url s)).
Proof.
  intros HI. unfold discardTexImage2D.
  destruct (bool_decide (url ∈ desiredImages s)); [|done].
  cbn zeta.
  set (s1 := set_history _ _).
  set (s2 := match layerImageCache s1 !! url with
             | Some li => LayerImage_dispose li s1
             | None => s1
             end).
  assert (Hl : loaderState s2 = loaderState s1).
  { unfold s2. destruct (layerImageCache s1 !! url); [|done].
    apply loaderState_LayerImage_dispose. }
  apply loaderState_eq in Hl as (Hd & Hc & Hw & Hq & Hh & _).
  destruct HI as [I1 I2 I3]. split; cbn.
  - intros id. rewrite dom_delete_L, Hd, Hh. cbn.
    destruct (decide (id = url)) as [->|Hne].
    + split; [set_solver|]. intros H. by apply loadedAndKept_cons_discarded in H.
    + rewrite loadedAndKept_cons_other by congruence. rewrite <-I1. set_solver.
  - intros id. rewrite dom_delete_L, Hd, Hw. cbn.
    intros [Hin Hne]%elem_of_difference. apply I2 in Hin. set_solver.
  - intros id p [Hne Hp]%lookup_delete_Some. rewrite Hc in Hp. cbn in Hp.
    destruct (I3 id p Hp) as [Hdes Hrest]. rewrite Hw, Hq, dom_delete_L, Hd. cbn.
    split; [set_solver|].
    destruct Hrest as [H|[[H Hres]|H]]; [by left | right; left | by right; right].
    split; [done | set_solver].
Qed.

Lemma CacheInv_discardIfUnused s url : CacheInv s → CacheInv (discardIfUnused s url).
Proof.
  intros HI. unfold discardIfUnused.
  destruct (layerImageCache s !! url) as [li|]; [|done].
  destruct (LayerImage.renderId li <? renderId s); [|done].
  by apply CacheInv_discardTexImage2D.
Qed.

Lemma CacheInv_discardUnused_from urls s :
  CacheInv s → CacheInv (foldl discardIfUnused s urls).
Proof.
  revert s. induction urls as [|u urls IH]; intros s HI; [done|].
  cbn. apply IH. by apply CacheInv_discardIfUnused.
Qed.

Lemma CacheInv_render s : CacheInv s → CacheInv (render s).
Proof.
  intros HI. unfold render.
  set (s1 := renderLayersToFramebuffer _).
  assert (HI1 : CacheInv s1).
  { eapply CacheInv_loaderState; [|exact HI].
    unfold s1. by rewrite loaderState_renderLayersToFramebuffer. }
  destruct (offscreenWriteColorAttachment s1) as [att|]; [|done].
  cbn zeta.
  set (s2 := issue (presentDraw _ att) _).
  assert (HI2 : CacheInv s2) by (eapply CacheInv_loaderState; [|exact HI1]; done).
  destruct (autoDiscard s2); [|done].
  by apply CacheInv_discardUnused_from.
Qed.

(** *** Loads that end by a throw *)

Lemma loadTexImage2DGlNull_frame url image s :
  loaderFrame s (snd (loadTexImage2DGlNull url image s)).
Proof.
  rewrite loadTexImage2DGlNull_cases. cbn zeta.
  destruct (texImage2DPromiseCache s !! url) as [p|].
  - by exists (texImage2DPromiseCache s), (promises s), ({[url]} ∪ desiredImages s).
  - by eexists _, _, _.
Qed.

Lemma resumeLoadGlNull_frame p image s :
  loaderFrame s (resumeLoadGlNull p image s)
  ∨ resumeLoadGlNull p image s = resumeLoad p image s.
Proof.
  destruct (resumeLoadGlNull_cases p image s) as [(url & _ & _ & ->)|[_ ->]]; [left|by right].
  by exists (texImage2DPromiseCache s), (<[p:=Rejected createTextureFailed]> (promises s)),
    (desiredImages s); destruct s.
Qed.

Lemma rejectLoad_frame p s : loaderFrame s (rejectLoad p s).
Proof.
  destruct (rejectLoad_cases p s) as [(url & _ & ->)|[_ ->]].
  - by exists (texImage2DPromiseCache s), (<[p:=Rejected fetchFailed]> (promises s)),
      (desiredImages s); destruct s.
  - by exists (texImage2DPromiseCache s), (promises s), (desiredImages s); destruct s.
Qed.

Lemma CacheInv_reject p e s :
  CacheInv s → CacheInv (set_promises (<[p := Rejected e]> (promises s)) s).
Proof.
  intros [I1 I2 I3]. split; cbn; [done | done |].
  intros id q Hq. destruct (I3 id q Hq) as [Hd Hrest]. split; [done|].
  destruct (decide (q = p)) as [->|Hne].
  - right. right. exists e. apply list_lookup_insert_eq.
    destruct Hrest as [H|[[[tex H] _]|[e' H]]]; by apply lookup_lt_Some in H.
  - by rewrite list_lookup_insert_ne.
Qed.

Lemma CacheInv_loadTexImage2DGlNull url image s :
  CacheInv s → CacheInv (snd (loadTexImage2DGlNull url image s)).
Proof.
  intros HI. rewrite loadTexImage2DGlNull_cases. cbn zeta.
  pose proof (CacheInv_wanted url s HI) as HI1.
  destruct (texImage2DPromiseCache s !! url) as [p|] eqn:Hcache; [done|].
  destruct HI1 as [I1 I2 I3]. split; cbn; [done | done |].
  intros id p. destruct (decide (url = id)) as [->|Hne].
  - rewrite lookup_insert_eq. intros [= <-]. split; [set_solver|]. right. right.
    exists createTextureFailed. rewrite lookup_app_r by lia. by rewrite Nat.sub_diag.
  - rewrite lookup_insert_ne by done. intros Hp.
    destruct (I3 id p Hp) as [Hd Hrest]. split; [done|].
    assert (p < length (promises s))%nat.
    { destruct Hrest as [H|[[[tex H] _]|[e H]]]; by apply lookup_lt_Some in H. }
    cbn in *. by rewrite lookup_app_l.
Qed.

Lemma CacheInv_resumeLoadGlNull p image s :
  CacheInv s → CacheInv (resumeLoadGlNull p image s).
Proof.
  intros HI. destruct (resumeLoadGlNull_cases p image s) as [(url & _ & _ & ->)|[_ ->]].
  - by apply CacheInv_reject.
  - by apply CacheInv_resumeLoad.
Qed.

Lemma CacheInv_rejectLoad p s : CacheInv s → CacheInv (rejectLoad p s).
Proof.
  intros HI. destruct (rejectLoad_cases p s) as [(url & _ & ->)|[_ ->]]; [|done].
  by apply CacheInv_reject.
Qed.

Lemma CacheInv_step op s : CacheInv s → CacheInv (snd (step op s)).
Proof.
  intros HI.
  destruct op as [url image|url| |ls|size|mode|zoom|pan|flag|size dpr|p image
                 |url image|p image|p]; cbn;
    try (eapply CacheInv_loaderState; [|exact HI]; reflexivity).
  - pose proof (CacheInv_loadTexImage2D url image s HI).
    by destruct (loadTexImage2D url image s).
  - pose proof (CacheInv_discardTexImage2D url s HI).
    by destruct (discardTexImage2D url s).
  - by apply CacheInv_render.
  - by apply CacheInv_resumeLoad.
  - pose proof (CacheInv_loadTexImage2DGlNull url image s HI).
    by destruct (loadTexImage2DGlNull url image s).
  - by apply CacheInv_resumeLoadGlNull.
  - by apply CacheInv_rejectLoad.
Qed.

Lemma run_cons op ops s : run (op :: ops) s = run ops (snd (step op s)).
Proof.
  unfold run. cbn. destruct (step op s) as [r s1]. cbn.
  by destruct (exec ops s1).
Qed.

Lemma run_app ops1 ops2 s : run (ops1 ++ ops2) s = run ops2 (run ops1 s).
Proof.
  revert s. induction ops1 as [|op ops1 IH]; intros s; [done|].
  cbn [app]. by rewrite !run_cons, IH.
Qed.

Lemma CacheInv_run ops s : CacheInv s → CacheInv (run ops s).
Proof.
  revert s. induction ops as [|op ops IH]; intros s HI; [done|].
  rewrite run_cons. apply IH. by apply CacheInv_step.
Qed.

(** C1, as amended. In every state the compositor reaches, whatever the
    calls were and however the loads ended (delivered, failed in the fetch,
    failed in the texture creation), an identifier has a [LayerImage] in
    the Resident Cache exactly when a load of it completed while it was in
    the Desired Set (the loader got the image and made the texture; a load
    that throws completes nothing) and it has not been discarded since.
    The Pending-Load Map holds no entry whose task settled as cancelled:
    every entry is for a desired identifier, and its task is still
    pending, or was fulfilled with a texture, the identifier then being
    resident, or was rejected. *)
Theorem cache_invariant_reachable size dpr bitmaps ops :
  let s := run ops (initial size dpr bitmaps) in
  (∀ id, is_Some (layerImageCache s !! id) ↔ loadedAndKept (history s) id)
  ∧ (∀ id p, texImage2DPromiseCache s !! id = Some p →
       id ∈ desiredImages s
       ∧ promises s !! p ≠ Some (Fulfilled None)
       ∧ (promises s !! p = Some (Pending id)
          ∨ ((∃ tex, promises s !! p = Some (Fulfilled (Some tex)))
             ∧ is_Some (layerImageCache s !! id))
          ∨ (∃ e, promises s !! p = Some (Rejected e)))).
Proof.
  intros s.
  destruct (CacheInv_run ops _ (CacheInv_initial size dpr bitmaps)) as [I1 I2 I3].
  fold s in I1, I2, I3. split.
  - intros id. rewrite <-elem_of_dom. apply I1.
  - intros id p Hp. destruct (I3 id p Hp) as [Hd Hrest]. split; [done|]. split.
    + destruct Hrest as [H|[[[tex H] _]|[e H]]]; rewrite H; congruence.
    + destruct Hrest as [H|[[H Hres]|H]]; [by left | right; left | by right; right].
      split; [done | by apply elem_of_dom].
Qed.

(** C1, the claim as stated fails: once a fetched image has been uploaded,
    the Pending-Load Map still holds the entry of the settled task; so it
    does, with the rejected task, once a fetch has failed. *)
Lemma cache_invariant_settled_entry_retained :
  let s := run [CallLoadTexImage2D "a" None; FetchDelivers 0 (ImageBitmap 7)]
               (initial (Vector2.mk 800 600) 1 true) in
  let s' := run [CallLoadTexImage2D "a" None; FetchFails 0]
                (initial (Vector2.mk 800 600) 1 true) in
  texImage2DPromiseCache s !! "a" = Some 0%nat
  ∧ promises s !! 0%nat = Some (Fulfilled (Some 0%nat))
  ∧ ¬ pendingMapHoldsNoSettledTask s
  ∧ texImage2DPromiseCache s' !! "a" = Some 0%nat
  ∧ promises s' !! 0%nat = Some (Rejected fetchFailed)
  ∧ ¬ pendingMapHoldsNoSettledTask s'.
Proof.
  intros s s'.
  assert (H1 : texImage2DPromiseCache s !! "a" = Some 0%nat) by (vm_compute; reflexivity).
  assert (H2 : promises s !! 0%nat = Some (Fulfilled (Some 0%nat))) by reflexivity.
  assert (H3 : texImage2DPromiseCache s' !! "a" = Some 0%nat) by (vm_compute; reflexivity).
  assert (H4 : promises s' !! 0%nat = Some (Rejected fetchFailed)) by reflexivity.
  repeat (split; [done|]). split; [|split; [done|split; [done|]]].
  - intros Hclaim. destruct (Hclaim "a" 0%nat H1) as [url Hurl]. congruence.
  - intros Hclaim. destruct (Hclaim "a" 0%nat H3) as [url Hurl]. congruence.
Qed.

(** ** Fan-in of concurrent requests *)

Lemma eventsSince_app new s0 s : history s = new ++ history s0 → eventsSince s0 s = new.
Proof.
  intros H. unfold eventsSince. rewrite H, length_app.
  replace (length new + length (history s0) - length (history s0))%nat
    with (length new) by lia.
  by rewrite take_app_length.
Qed.

Lemma desiredImages_loadTexImage2D url image s :
  desiredImages (snd (loadTexImage2D url image s)) = {[url]} ∪ desiredImages s.
Proof.
  unfold loadTexImage2D. cbn.
  destruct (texImage2DPromiseCache s !! url); [done|].
  destruct image as [img|]; [|done].
  destruct (finishLoad_wanted url img false
              (set_desiredImages ({[url]} ∪ desiredImages s) s)) as (li & -> & _);
    [cbn; set_solver | done].
Qed.

Lemma FanIn_loaderState id p n s s' :
  loaderState s = loaderState s' → FanIn id p n s → FanIn id p n s'.
Proof.
  intros (Hd & Hp & Hw & Hq & Hh & Hf)%loaderState_eq [F1 F2 F3 F4].
  split; unfold fetchCount in *; rewrite <-?Hp, <-?Hw, <-?Hq, <-?Hf; done.
Qed.

Lemma extends_refl s : extends s s.
Proof. by exists []. Qed.

Lemma extends_trans s1 s2 s3 : extends s1 s2 → extends s2 s3 → extends s1 s3.
Proof. intros [n1 H1] [n2 H2]. exists (n2 ++ n1). by rewrite H2, H1, app_assoc. Qed.

Lemma extends_loaderState s s' : loaderState s = loaderState s' → extends s s'.
Proof. intros (_ & _ & _ & _ & Hh & _)%loaderState_eq. exists []. by rewrite Hh. Qed.

Lemma history_discardTexImage2D url s :
  history (snd (discardTexImage2D url s))
  = if bool_decide (url ∈ desiredImages s) then EvDiscarded url :: history s
    else history s.
Proof.
  unfold discardTexImage2D. destruct (bool_decide (url ∈ desiredImages s)); [|done].
  cbn. destruct (layerImageCache s !! url) as [li|]; [|done].
  pose proof (loaderState_LayerImage_dispose li
    (set_history (EvDiscarded url :: history s)
       (set_desiredImages (desiredImages s ∖ {[url]}) s))) as Hl.
  by apply loaderState_eq in Hl as (_ & _ & _ & _ & Hh & _).
Qed.

Lemma extends_discardTexImage2D url s : extends s (snd (discardTexImage2D url s)).
Proof.
  unfold extends. rewrite history_discardTexImage2D.
  destruct (bool_decide _); [by exists [EvDiscarded url] | by exists []].
Qed.

Lemma extends_discardIfUnused s url : extends s (discardIfUnused s url).
Proof.
  unfold discardIfUnused. destruct (layerImageCache s !! url) as [li|];
    [|apply extends_refl].
  destruct (LayerImage.renderId li <? renderId s); [|apply extends_refl].
  apply extends_discardTexImage2D.
Qed.

Lemma extends_discardUnused_from urls s : extends s (foldl discardIfUnused s urls).
Proof.
  revert s. induction urls as [|u urls IH]; intros s; [apply extends_refl|].
  cbn. eapply extends_trans; [apply extends_discardIfUnused | apply IH].
Qed.

Lemma extends_finishLoad url image hadToFetch s :
  extends s (snd (finishLoad url image hadToFetch s)).
Proof.
  destruct (decide (url ∈ desiredImages s)) as [Hw|Hw].
  - destruct (finishLoad_wanted url image hadToFetch s Hw) as (li & -> & _).
    by exists [EvLoadCompleted url true].
  - rewrite (finishLoad_unwanted url image hadToFetch s Hw). cbn.
    exists [EvLoadCompleted url false].
    destruct hadToFetch; [|done].
    destruct image as [h|h]; [destruct (imageBitmapSupported s)|]; reflexivity.
Qed.

Lemma extends_loadTexImage2D url image s : extends s (snd (loadTexImage2D url image s)).
Proof.
  unfold loadTexImage2D.
  destruct (texImage2DPromiseCache _ !! url); [by exists []|].
  destruct image as [img|]; [|by exists []].
  pose proof (extends_finishLoad url img false
                (set_desiredImages ({[url]} ∪ desiredImages s) s)) as H.
  by destruct (finishLoad url img false _).
Qed.

Lemma extends_resumeLoad p image s : extends s (resumeLoad p image s).
Proof.
  unfold resumeLoad. destruct (promises s !! p) as [[url|v|e]|];
    try apply extends_refl.
  pose proof (extends_finishLoad url image true s) as H.
  by destruct (finishLoad url image true s).
Qed.

Lemma extends_render s : extends s (render s).
Proof.
  unfold render. set (s1 := renderLayersToFramebuffer _).
  assert (H1 : extends s s1).
  { apply extends_loaderState. unfold s1.
    by rewrite loaderState_renderLayersToFramebuffer. }
  destruct (offscreenWriteColorAttachment s1) as [att|]; [|done].
  cbn zeta. set (s2 := issue (presentDraw _ att) _).
  assert (H2 : extends s s2) by exact H1.
  destruct (autoDiscard s2); [|done].
  eapply extends_trans; [exact H2 | apply extends_discardUnused_from].
Qed.

Lemma extends_loadTexImage2DGlNull url image s :
  extends s (snd (loadTexImage2DGlNull url image s)).
Proof.
  rewrite loadTexImage2DGlNull_cases. cbn zeta.
  destruct (texImage2DPromiseCache s !! url); by exists [].
Qed.

Lemma extends_resumeLoadGlNull p image s : extends s (resumeLoadGlNull p image s).
Proof.
  destruct (resumeLoadGlNull_cases p image s) as [(url & _ & _ & ->)|[_ ->]].
  - by exists [].
  - apply extends_resumeLoad.
Qed.

Lemma extends_rejectLoad p s : extends s (rejectLoad p s).
Proof.
  destruct (rejectLoad_cases p s) as [(url & _ & ->)|[_ ->]]; by exists [].
Qed.

Lemma extends_step op s : extends s (snd (step op s)).
Proof.
  destruct op as [url image|url| |ls|size|mode|zoom|pan|flag|size dpr|p image
                 |url image|p image|p]; cbn; try (by exists []).
  - pose proof (extends_loadTexImage2D url image s).
    by destruct (loadTexImage2D url image s).
  - pose proof (extends_discardTexImage2D url s). by destruct (discardTexImage2D url s).
  - apply extends_render.
  - apply extends_resumeLoad.
  - pose proof (extends_loadTexImage2DGlNull url image s).
    by destruct (loadTexImage2DGlNull url image s).
  - apply extends_resumeLoadGlNull.
  - apply extends_rejectLoad.
Qed.

Lemma extends_run ops s : extends s (run ops s).
Proof.
  revert s. induction ops as [|op ops IH]; intros s; [apply extends_refl|].
  rewrite run_cons. eapply extends_trans; [apply extends_step | apply IH].
Qed.

Lemma fanInOrDiscarded_refl id p n s : FanIn id p n s → fanInOrDiscarded id p n s s.
Proof. intros HF. exists []. auto. Qed.

Lemma fanInOrDiscarded_refl_to id p n s s' :
  history s' = history s → FanIn id p n s' → fanInOrDiscarded id p n s s'.
Proof. intros Hh HF. exists []. auto. Qed.

Lemma fanInOrDiscarded_trans id p n s s1 s2 :
  fanInOrDiscarded id p n s s1 →
  extends s1 s2 →
  (FanIn id p n s1 → fanInOrDiscarded id p n s1 s2) →
  fanInOrDiscarded id p n s s2.
Proof.
  intros (new1 & Hh1 & H1) [more Hm] Hstep.
  destruct H1 as [Hin|HF].
  - exists (more ++ new1). rewrite Hm, Hh1, app_assoc. split; [done|]. left. set_solver.
  - destruct (Hstep HF) as (new2 & Hh2 & H2).
    exists (new2 ++ new1). rewrite Hh2, Hh1, app_assoc. split; [done|].
    destruct H2 as [Hin|HF2]; [left; set_solver | by right].
Qed.

Lemma fanin_discardTexImage2D id p n url s :
  FanIn id p n s → fanInOrDiscarded id p n s (snd (discardTexImage2D url s)).
Proof.
  intros HF. unfold fanInOrDiscarded. rewrite history_discardTexImage2D.
  unfold discardTexImage2D.
  destruct (bool_decide (url ∈ desiredImages s)); [|exists []; auto].
  cbn zeta. set (s1 := set_history _ _).
  set (s2 := match layerImageCache s1 !! url with
             | Some li => LayerImage_dispose li s1
             | None => s1
             end).
  assert (Hl : loaderState s2 = loaderState s1).
  { unfold s2. destruct (layerImageCache s1 !! url); [|done].
    apply loaderState_LayerImage_dispose. }
  apply loaderState_eq in Hl as (Hd & Hc & Hw & Hq & Hh & Hf).
  exists [EvDiscarded url]. split; [done|].
  destruct (decide (url = id)) as [->|Hne]; [left; set_solver | right].
  destruct HF as [F1 F2 F3 F4]. split; cbn.
  - rewrite Hw. cbn. set_solver.
  - rewrite lookup_delete_ne by done. by rewrite Hc.
  - by rewrite Hq.
  - unfold fetchCount in *. cbn. by rewrite Hf.
Qed.

Lemma fanin_discardIfUnused id p n url s :
  FanIn id p n s → fanInOrDiscarded id p n s (discardIfUnused s url).
Proof.
  intros HF. unfold discardIfUnused.
  destruct (layerImageCache s !! url) as [li|]; [|by apply fanInOrDiscarded_refl].
  destruct (LayerImage.renderId li <? renderId s); [|by apply fanInOrDiscarded_refl].
  by apply fanin_discardTexImage2D.
Qed.

Lemma fanin_discardUnused_from id p n urls s :
  FanIn id p n s → fanInOrDiscarded id p n s (foldl discardIfUnused s urls).
Proof.
  revert s. induction urls as [|u urls IH]; intros s HF;
    [by apply fanInOrDiscarded_refl|].
  cbn [foldl]. eapply fanInOrDiscarded_trans.
  - by apply fanin_discardIfUnused.
  - apply extends_discardUnused_from.
  - apply IH.
Qed.

Lemma fanin_loadTexImage2D id p n url image s :
  FanIn id p n s →
  fanInOrDiscarded id p n s (snd (loadTexImage2D url image s))
  ∧ (url = id → fst (loadTexImage2D url image s) = p).
Proof.
  intros [F1 F2 F3 F4]. unfold loadTexImage2D.
  set (s1 := set_desiredImages ({[url]} ∪ desiredImages s) s).
  assert (HF1 : FanIn id p n s1) by (split; cbn; [set_solver | done..]).
  assert (Hlt : (p < length (promises s))%nat) by (by apply lookup_lt_Some in F3).
  destruct (decide (url = id)) as [->|Hne].
  - change (texImage2DPromiseCache s1) with (texImage2DPromiseCache s). rewrite F2.
    split; [|done]. exists []. auto.
  - split; [|done].
    destruct (texImage2DPromiseCache s1 !! url) as [q|]; [exists []; auto|].
    destruct image as [img|].
    + destruct (finishLoad_wanted url img false s1) as (li & -> & _);
        [cbn; set_solver|].
      exists [EvLoadCompleted url true]. split; [done|]. right.
      split; cbn; [set_solver | by rewrite lookup_insert_ne | by rewrite lookup_app_l | done].
    + exists []. split; [done|]. right.
      split; cbn; [set_solver | by rewrite lookup_insert_ne | by rewrite lookup_app_l |].
      rewrite <-F4. unfold fetchCount. cbn. by rewrite decide_False.
Qed.

Lemma fanin_resumeLoad id p n q image s :
  q ≠ p → FanIn id p n s → fanInOrDiscarded id p n s (resumeLoad q image s).
Proof.
  intros Hqp HF. unfold resumeLoad.
  destruct (promises s !! q) as [[url|v|e]|] eqn:Hq;
    try (by apply fanInOrDiscarded_refl).
  destruct HF as [F1 F2 F3 F4].
  destruct (decide (url ∈ desiredImages s)) as [Hw|Hw].
  - destruct (finishLoad_wanted url image true s Hw) as (li & -> & _).
    exists [EvLoadCompleted url true]. split; [done|]. right.
    split; cbn; [done | done | by rewrite list_lookup_insert_ne | done].
  - rewrite (finishLoad_unwanted url image true s Hw). cbn zeta.
    set (s1 := set_texImage2DPromiseCache _ _).
    pose proof (loaderState_releaseImage (Some image) s1) as Hl.
    apply loaderState_eq in Hl as (_ & Hc & Hd & Hp & Hh & Hf).
    exists [EvLoadCompleted url false]. split.
    { cbn [history set_promises]. by rewrite Hh. }
    right. split.
    + cbn [desiredImages set_promises]. by rewrite Hd.
    + cbn [texImage2DPromiseCache set_promises]. rewrite Hc. cbn.
      rewrite lookup_delete_ne; [done|]. by intros ->.
    + cbn [promises set_promises]. rewrite list_lookup_insert_ne by done.
      by rewrite Hp.
    + unfold fetchCount in *. cbn [fetchLog set_promises]. by rewrite Hf.
Qed.

Lemma fanInOrDiscarded_loaderState id p n s s' :
  loaderState s = loaderState s' → FanIn id p n s → fanInOrDiscarded id p n s s'.
Proof.
  intros Hl HF. exists []. split.
  - by apply loaderState_eq in Hl as (_ & _ & _ & _ & <- & _).
  - right. by apply (FanIn_loaderState id p n s).
Qed.

Lemma fanin_render id p n s : FanIn id p n s → fanInOrDiscarded id p n s (render s).
Proof.
  intros HF. unfold render. set (s1 := renderLayersToFramebuffer _).
  assert (Hl : loaderState s = loaderState s1).
  { unfold s1. by rewrite loaderState_renderLayersToFramebuffer. }
  destruct (offscreenWriteColorAttachment s1) as [att|];
    [|by apply fanInOrDiscarded_loaderState].
  cbn zeta. set (s2 := issue (presentDraw _ att) _).
  assert (Hl2 : loaderState s = loaderState s2) by (by rewrite Hl).
  destruct (autoDiscard s2); [|by apply fanInOrDiscarded_loaderState].
  eapply (fanInOrDiscarded_trans id p n s s2).
  - by apply fanInOrDiscarded_loaderState.
  - apply extends_discardUnused_from.
  - apply fanin_discardUnused_from.
Qed.

Lemma FanIn_reject id p n q e s :
  q ≠ p → FanIn id p n s → FanIn id p n (set_promises (<[q := Rejected e]> (promises s)) s).
Proof.
  intros Hqp [F1 F2 F3 F4]. split; cbn; [done | done | | done].
  by rewrite list_lookup_insert_ne.
Qed.

Lemma fanin_loadTexImage2DGlNull id p n url image s :
  FanIn id p n s →
  fanInOrDiscarded id p n s (snd (loadTexImage2DGlNull url image s))
  ∧ (url = id → fst (loadTexImage2DGlNull url image s) = p).
Proof.
  intros [F1 F2 F3 F4]. rewrite loadTexImage2DGlNull_cases. cbn zeta.
  assert (Hlt : (p < length (promises s))%nat) by (by apply lookup_lt_Some in F3).
  destruct (decide (url = id)) as [->|Hne].
  - rewrite F2. split; [|done]. exists []. split; [done|]. right.
    split; cbn; [set_solver | done..].
  - split; [|done]. exists []. split; [by destruct (texImage2DPromiseCache s !! url)|].
    right. destruct (texImage2DPromiseCache s !! url) as [q|].
    + split; cbn; [set_solver | done..].
    + split; cbn; [set_solver | by rewrite lookup_insert_ne | by rewrite lookup_app_l | done].
Qed.

Lemma fanin_resumeLoadGlNull id p n q image s :
  q ≠ p → FanIn id p n s → fanInOrDiscarded id p n s (resumeLoadGlNull q image s).
Proof.
  intros Hqp HF.
  destruct (resumeLoadGlNull_cases q image s) as [(url & _ & _ & ->)|[_ ->]].
  - apply fanInOrDiscarded_refl_to; [done | by apply FanIn_reject].
  - by apply fanin_resumeLoad.
Qed.

Lemma fanin_rejectLoad id p n q s :
  q ≠ p → FanIn id p n s → fanInOrDiscarded id p n s (rejectLoad q s).
Proof.
  intros Hqp HF. destruct (rejectLoad_cases q s) as [(url & _ & ->)|[_ ->]].
  - apply fanInOrDiscarded_refl_to; [done | by apply FanIn_reject].
  - by apply fanInOrDiscarded_refl.
Qed.

Lemma fanin_step id p n op s :
  FanIn id p n s → settles p op = false →
  fanInOrDiscarded id p n s (snd (step op s))
  ∧ (requests id op = true → fst (step op s) = RPromise p).
Proof.
  intros HF Hs.
  destruct op as [url image|url| |ls|size|mode|zoom|pan|flag|size dpr|q image
                 |url image|q image|q]; cbn in *;
    try (split; [|done]; by apply fanInOrDiscarded_loaderState).
  - destruct (fanin_loadTexImage2D id p n url image s HF) as [H1 H2].
    destruct (loadTexImage2D url image s) as [q s']. cbn in *. split; [done|].
    intros ->%bool_decide_eq_true. by rewrite H2.
  - pose proof (fanin_discardTexImage2D id p n url s HF) as H1.
    by destruct (discardTexImage2D url s).
  - split; [|done]. by apply fanin_render.
  - split; [|done]. apply fanin_resumeLoad; [|done].
    by apply bool_decide_eq_false in Hs.
  - destruct (fanin_loadTexImage2DGlNull id p n url image s HF) as [H1 H2].
    destruct (loadTexImage2DGlNull url image s) as [q s']. cbn in *. split; [done|].
    intros ->%bool_decide_eq_true. by rewrite H2.
  - split; [|done]. apply fanin_resumeLoadGlNull; [|done].
    by apply bool_decide_eq_false in Hs.
  - split; [|done]. apply fanin_rejectLoad; [|done].
    by apply bool_decide_eq_false in Hs.
Qed.

Lemma exec_cons op ops s :
  exec (op :: ops) s
  = (fst (step op s) :: fst (exec ops (snd (step op s))), run ops (snd (step op s))).
Proof.
  unfold run. cbn. destruct (step op s) as [r s1]. cbn.
  by destruct (exec ops s1).
Qed.

Lemma fanin_exec id p n ops s :
  FanIn id p n s → existsb (settles p) ops = false →
  fanInOrDiscarded id p n s (run ops s)
  ∧ (EvDiscarded id ∉ eventsSince s (run ops s) →
     ∀ k op, ops !! k = Some op → requests id op = true →
             fst (exec ops s) !! k = Some (RPromise p)).
Proof.
  revert s. induction ops as [|op ops IH]; intros s HF Hs.
  - split; [by apply fanInOrDiscarded_refl|]. intros _ k op Hk. by destruct k.
  - cbn in Hs. apply orb_false_iff in Hs as [Hs1 Hs2].
    destruct (fanin_step id p n op s HF Hs1) as [Hstep Hres].
    rewrite run_cons, exec_cons. set (s1 := snd (step op s)) in *.
    split.
    + eapply fanInOrDiscarded_trans; [exact Hstep | apply extends_run |].
      intros HF1. by apply IH.
    + intros Hnot k op' Hk Hreq.
      destruct Hstep as (new1 & Hh1 & Hor).
      destruct (extends_run ops s1) as [new2 Hh2].
      assert (Hall : history (run ops s1) = (new2 ++ new1) ++ history s)
        by (by rewrite Hh2, Hh1, app_assoc).
      rewrite (eventsSince_app _ _ _ Hall) in Hnot.
      destruct k as [|k]; cbn in *.
      * injection Hk as ->. by rewrite Hres.
      * destruct Hor as [Hin|HF1]; [exfalso; apply Hnot; set_solver|].
        destruct (IH s1 HF1 Hs2) as [_ IH2]. apply (IH2) with (op := op'); [|done..].
        rewrite (eventsSince_app _ _ _ Hh2). set_solver.
Qed.

Lemma first_request_starts_fetch id s :
  texImage2DPromiseCache s !! id = None →
  loadTexImage2D id None s
  = (length (promises s),
     set_texImage2DPromiseCache (<[id := length (promises s)]> (texImage2DPromiseCache s))
       (set_promises (promises s ++ [Pending id])
          (set_fetchLog (id :: fetchLog s)
             (set_desiredImages ({[id]} ∪ desiredImages s) s)))).
Proof. intros Hnone. unfold loadTexImage2D. cbn. by rewrite Hnone. Qed.

Lemma first_request_FanIn id s :
  texImage2DPromiseCache s !! id = None →
  FanIn id (fst (loadTexImage2D id None s)) (S (fetchCount id s))
        (snd (loadTexImage2D id None s)).
Proof.
  intros Hnone. rewrite (first_request_starts_fetch id s Hnone). split; cbn.
  - set_solver.
  - apply lookup_insert_eq.
  - rewrite lookup_app_r by lia. by rewrite Nat.sub_diag.
  - unfold fetchCount. cbn. by rewrite decide_True.
Qed.

Lemma FanIn_settle_GlNull id p n image s :
  FanIn id p n s →
  resumeLoadGlNull p image s
  = set_promises (<[p := Rejected createTextureFailed]> (promises s)) s.
Proof.
  intros [F1 F2 F3 F4].
  destruct (resumeLoadGlNull_cases p image s) as [(url & _ & _ & ->)|[Hw _]]; [done|].
  by destruct (Hw id F3).
Qed.

Lemma FanIn_reject_fetch id p n s :
  FanIn id p n s →
  rejectLoad p s = set_promises (<[p := Rejected fetchFailed]> (promises s)) s.
Proof.
  intros [F1 F2 F3 F4].
  destruct (rejectLoad_cases p s) as [(url & _ & ->)|[Hno _]]; [done|].
  by destruct (Hno id).
Qed.

(** C2, as amended. A first request for [id] (not the name of an inherited
    object property) that finds no task in the Pending-Load Map starts one
    fetch and registers its promise [p].  Whatever else happens afterwards,
    as long as [p] has not settled and [id] has not been discarded: every
    further request for [id] (with or without an image, whatever the
    driver would answer) returns the same promise [p], no second fetch of
    [id] is started, and the map still holds [p] for [id].  How [p] settles
    is what every caller sees: when the fetch delivers and the texture is
    created, [p] is fulfilled with one texture, the one that becomes
    resident; when the fetch fails, or [gl.createTexture()] answers [null]
    on delivery, [p] is rejected, no texture is made and the Resident Cache
    is left as it was.  Adding to the Desired Set happens inside the call
    and is idempotent. *)
Theorem fan_in_deduplication s id ops :
  inheritedKey id = false →
  texImage2DPromiseCache s !! id = None →
  let p := fst (loadTexImage2D id None s) in
  let s1 := snd (loadTexImage2D id None s) in
  existsb (settles p) ops = false →
  EvDiscarded id ∉ eventsSince s1 (run ops s1) →
  let s' := run ops s1 in
  (fetchCount id s1 = S (fetchCount id s) ∧ fetchCount id s' = S (fetchCount id s))
  ∧ (texImage2DPromiseCache s' !! id = Some p ∧ promises s' !! p = Some (Pending id))
  ∧ (∀ k op, ops !! k = Some op → requests id op = true →
             fst (exec ops s1) !! k = Some (RPromise p))
  ∧ (∀ image, fst (loadTexImage2D id image s') = p
              ∧ fetchLog (snd (loadTexImage2D id image s')) = fetchLog s')
  ∧ (∀ image, fst (loadTexImage2DGlNull id image s') = p
              ∧ fetchLog (snd (loadTexImage2DGlNull id image s')) = fetchLog s')
  ∧ (∀ image, ∃ li,
        promises (resumeLoad p image s') !! p
        = Some (Fulfilled (Some (LayerImage.texImage2D li)))
        ∧ layerImageCache (resumeLoad p image s') !! id = Some li
        ∧ LayerImage.texImage2D li = nextId s'
        ∧ issued (resumeLoad p image s')
          = issued s' ++ [CmdCreateTexture (nextId s') (SourceImage image)])
  ∧ (∀ image,
        promises (resumeLoadGlNull p image s') !! p = Some (Rejected createTextureFailed)
        ∧ layerImageCache (resumeLoadGlNull p image s') = layerImageCache s'
        ∧ context (resumeLoadGlNull p image s') = context s')
  ∧ (promises (rejectLoad p s') !! p = Some (Rejected fetchFailed)
     ∧ layerImageCache (rejectLoad p s') = layerImageCache s'
     ∧ context (rejectLoad p s') = context s')
  ∧ (desiredImages s1 = {[id]} ∪ desiredImages s
     ∧ id ∈ desiredImages s'
     ∧ ∀ image, desiredImages (snd (loadTexImage2D id image s1)) = desiredImages s1).
Proof.
  intros _ Hnone p s1 Hsettle Hkept s'.
  pose proof (first_request_FanIn id s Hnone) as HF. fold p s1 in HF.
  destruct (fanin_exec id p _ ops s1 HF Hsettle) as [(new & Hh & Hor) Hres].
  fold s' in Hh, Hor, Hkept, Hres. rewrite (eventsSince_app _ _ _ Hh) in Hkept.
  destruct Hor as [Hin|HF']; [done|].
  assert (Hlt : (p < length (promises s'))%nat).
  { destruct HF' as [_ _ F3 _]. by apply lookup_lt_Some in F3. }
  split; [|split; [|split; [|split; [|split; [|split; [|split; [|split]]]]]]].
  - split; [by destruct HF | by destruct HF'].
  - by destruct HF'.
  - apply Hres. by rewrite (eventsSince_app _ _ _ Hh).
  - intros image. unfold loadTexImage2D. cbn.
    destruct HF' as [_ -> _ _]. done.
  - intros image. rewrite loadTexImage2DGlNull_cases. cbn zeta.
    destruct HF' as [_ -> _ _]. done.
  - intros image. unfold resumeLoad. destruct HF' as [F1 F2 F3 F4]. rewrite F3.
    destruct (finishLoad_wanted id image true s' F1) as (li & -> & Hli).
    exists li. subst li. cbn.
    split; [by apply list_lookup_insert_eq|]. split; [apply lookup_insert_eq|].
    split; reflexivity.
  - intros image. rewrite (FanIn_settle_GlNull id p _ image s' HF'). cbn.
    split; [by apply list_lookup_insert_eq | done].
  - rewrite (FanIn_reject_fetch id p _ s' HF'). cbn.
    split; [by apply list_lookup_insert_eq | done].
  - split; [|split].
    + apply desiredImages_loadTexImage2D.
    + by destruct HF'.
    + intros image. rewrite desiredImages_loadTexImage2D.
      destruct HF as [F1 _ _ _]. set_solver.
Qed.

Lemma fan_in_deduplication_witness :
  let s := initial (Vector2.mk 800 600) 1 true in
  let ops := [CallLoadTexImage2D "a" None; CallLoadTexImage2D "b" None; CallRender;
              CallLoadTexImage2D "a" (Some (ImageBitmap 3));
              CallLoadTexImage2DGlNull "a" (ImageBitmap 4)] in
  let s' := run ops (snd (loadTexImage2D "a" None s)) in
  fetchCount "a" s' = 1%nat
  ∧ fst (exec ops (snd (loadTexImage2D "a" None s)))
    = [RPromise 0; RPromise 1; RVoid; RPromise 0; RPromise 0]
  ∧ ∃ li, promises (resumeLoad 0 (ImageBitmap 9) s') !! 0%nat
          = Some (Fulfilled (Some (LayerImage.texImage2D li)))
          ∧ layerImageCache (resumeLoad 0 (ImageBitmap 9) s') !! "a" = Some li.
Proof.
  intros s ops s'.
  destruct (fan_in_deduplication s "a" ops)
    as ((_ & Hcount) & _ & _ & _ & _ & Hsettle & _).
  - reflexivity.
  - reflexivity.
  - reflexivity.
  - vm_compute. apply not_elem_of_nil.
  - split; [exact Hcount|]. split; [vm_compute; reflexivity|].
    destruct (Hsettle (ImageBitmap 9)) as (li & H1 & H2 & _).
    exists li. split; [exact H1 | exact H2].
Defined.

(** C2, the claim as stated fails: two requests for the same identifier
    share one fetch and one task, but when that fetch fails the task both
    callers hold is rejected and no texture comes of it. *)
Lemma fan_in_shares_a_failed_fetch :
  let s := initial (Vector2.mk 800 600) 1 true in
  let ops := [CallLoadTexImage2D "a" None; CallLoadTexImage2D "a" None; FetchFails 0] in
  fst (exec ops s) = [RPromise 0; RPromise 0; RVoid]
  ∧ fetchLog (run ops s) = ["a"]
  ∧ promises (run ops s) = [Rejected fetchFailed]
  ∧ layerImageCache (run ops s) !! "a" = None
  ∧ issued (run ops s) = [].
Proof. vm_compute. repeat split; reflexivity. Qed.

(** ** The race between a discard and a fetch *)

Lemma InFlight_loaderState id p s s' :
  loaderState s = loaderState s' → InFlight id p s → InFlight id p s'.
Proof.
  intros (Hd & Hp & Hw & Hq & Hh & Hf)%loaderState_eq [F1 F2].
  split; rewrite <-?Hd, <-?Hp, <-?Hw, <-?Hq; done.
Qed.

Lemma InFlight_loadTexImage2D id p url image s :
  InFlight id p s → InFlight id p (snd (loadTexImage2D url image s)).
Proof.
  intros [F1 F2]. unfold loadTexImage2D.
  set (s1 := set_desiredImages ({[url]} ∪ desiredImages s) s).
  assert (Hlt : (p < length (promises s))%nat) by (by apply lookup_lt_Some in F1).
  destruct (texImage2DPromiseCache s1 !! url) as [q|].
  - split; cbn; [done|]. intros Hid. apply F2. set_solver.
  - destruct image as [img|].
    + destruct (finishLoad_wanted url img false s1) as (li & -> & _); [cbn; set_solver|].
      split; cbn; [by rewrite lookup_app_l|].
      intros Hid. destruct F2 as [F2a F2b]; [set_solver|].
      rewrite dom_insert_L, lookup_insert_ne by set_solver. split; [set_solver | done].
    + split; cbn; [by rewrite lookup_app_l|].
      intros Hid. destruct F2 as [F2a F2b]; [set_solver|].
      rewrite lookup_insert_ne by set_solver. done.
Qed.

Lemma loaderState_discardTexImage2D url s :
  url ∈ desiredImages s →
  dom (layerImageCache (snd (discardTexImage2D url s))) = dom (layerImageCache s) ∖ {[url]}
  ∧ texImage2DPromiseCache (snd (discardTexImage2D url s))
    = delete url (texImage2DPromiseCache s)
  ∧ desiredImages (snd (discardTexImage2D url s)) = desiredImages s ∖ {[url]}
  ∧ promises (snd (discardTexImage2D url s)) = promises s
  ∧ history (snd (discardTexImage2D url s)) = EvDiscarded url :: history s
  ∧ fetchLog (snd (discardTexImage2D url s)) = fetchLog s.
Proof.
  intros Hin. unfold discardTexImage2D. rewrite bool_decide_eq_true_2 by done.
  cbn zeta. set (s1 := set_history _ _).
  set (s2 := match layerImageCache s1 !! url with
             | Some li => LayerImage_dispose li s1
             | None => s1
             end).
  assert (Hl : loaderState s2 = loaderState s1).
  { unfold s2. destruct (layerImageCache s1 !! url); [|done].
    apply loaderState_LayerImage_dispose. }
  apply loaderState_eq in Hl as (Hd & Hc & Hw & Hq & Hh & Hf).
  cbn. rewrite dom_delete_L, Hd, Hc, Hw, Hq, Hh, Hf. done.
Qed.

Lemma discardTexImage2D_not_desired url s :
  url ∉ desiredImages s → discardTexImage2D url s = (false, s).
Proof. intros H. unfold discardTexImage2D. by rewrite bool_decide_eq_false_2. Qed.

Lemma discardTexImage2D_desired url s :
  url ∈ desiredImages s → fst (discardTexImage2D url s) = true.
Proof. intros H. unfold discardTexImage2D. by rewrite bool_decide_eq_true_2. Qed.

Lemma InFlight_discardTexImage2D id p url s :
  InFlight id p s → InFlight id p (snd (discardTexImage2D url s)).
Proof.
  intros [F1 F2]. destruct (decide (url ∈ desiredImages s)) as [Hin|Hout].
  - apply loaderState_discardTexImage2D in Hin as (Hd & Hc & Hw & Hq & Hh & Hf).
    split; rewrite ?Hd, ?Hc, ?Hw, ?Hq; [done|].
    intros Hid. destruct (decide (id = url)) as [->|Hne].
    + split; [set_solver | apply lookup_delete_eq].
    + destruct F2 as [F2a F2b]; [set_solver|].
      split; [set_solver | by rewrite lookup_delete_ne].
  - by rewrite discardTexImage2D_not_desired.
Qed.

Lemma InFlight_discardUnused_from id p urls s :
  InFlight id p s → InFlight id p (foldl discardIfUnused s urls).
Proof.
  revert s. induction urls as [|u urls IH]; intros s HF; [done|].
  cbn. apply IH. unfold discardIfUnused.
  destruct (layerImageCache s !! u) as [li|]; [|done].
  destruct (LayerImage.renderId li <? renderId s); [|done].
  by apply InFlight_discardTexImage2D.
Qed.

Lemma InFlight_render id p s : InFlight id p s → InFlight id p (render s).
Proof.
  intros HF. unfold render. set (s1 := renderLayersToFramebuffer _).
  assert (HF1 : InFlight id p s1).
  { eapply InFlight_loaderState; [|exact HF].
    unfold s1. by rewrite loaderState_renderLayersToFramebuffer. }
  destruct (offscreenWriteColorAttachment s1) as [att|]; [|done].
  cbn zeta. set (s2 := issue (presentDraw _ att) _).
  assert (HF2 : InFlight id p s2) by (eapply InFlight_loaderState; [|exact HF1]; done).
  destruct (autoDiscard s2); [|done].
  by apply InFlight_discardUnused_from.
Qed.

Lemma InFlight_resumeLoad id p q image s :
  q ≠ p → InFlight id p s → InFlight id p (resumeLoad q image s).
Proof.
  intros Hqp [F1 F2]. unfold resumeLoad.
  destruct (promises s !! q) as [[url|v|e]|] eqn:Hq; try done.
  destruct (decide (url ∈ desiredImages s)) as [Hw|Hw].
  - destruct (finishLoad_wanted url image true s Hw) as (li & -> & _).
    split; cbn; [by rewrite list_lookup_insert_ne|].
    intros Hid. destruct (F2 Hid) as [F2a F2b].
    rewrite dom_insert_L. split; [set_solver | done].
  - rewrite (finishLoad_unwanted url image true s Hw). cbn zeta.
    set (s1 := set_texImage2DPromiseCache _ _).
    pose proof (loaderState_releaseImage (Some image) s1) as Hl.
    apply loaderState_eq in Hl as (Hd & Hc & Hw' & Hp & Hh & Hf).
    split.
    + cbn [promises set_promises]. rewrite list_lookup_insert_ne by done.
      by rewrite Hp.
    + cbn [desiredImages layerImageCache texImage2DPromiseCache set_promises].
      rewrite Hd, Hc, Hw'. cbn. intros Hid. destruct (F2 Hid) as [F2a F2b].
      split; [done|]. apply lookup_delete_None. by right.
Qed.

Lemma InFlight_reject id p q e s :
  q ≠ p → InFlight id p s →
  InFlight id p (set_promises (<[q := Rejected e]> (promises s)) s).
Proof.
  intros Hqp [F1 F2]. split; cbn; [by rewrite list_lookup_insert_ne | done].
Qed.

Lemma InFlight_loadTexImage2DGlNull id p url image s :
  InFlight id p s → InFlight id p (snd (loadTexImage2DGlNull url image s)).
Proof.
  intros [F1 F2]. rewrite loadTexImage2DGlNull_cases. cbn zeta.
  assert (Hlt : (p < length (promises s))%nat) by (by apply lookup_lt_Some in F1).
  destruct (texImage2DPromiseCache s !! url) as [q|].
  - split; cbn; [done|]. intros Hid. apply F2. set_solver.
  - split; cbn; [by rewrite lookup_app_l|].
    intros Hid. destruct F2 as [F2a F2b]; [set_solver|].
    rewrite lookup_insert_ne by set_solver. done.
Qed.

Lemma InFlight_resumeLoadGlNull id p q image s :
  q ≠ p → InFlight id p s → InFlight id p (resumeLoadGlNull q image s).
Proof.
  intros Hqp HF.
  destruct (resumeLoadGlNull_cases q image s) as [(url & _ & _ & ->)|[_ ->]].
  - by apply InFlight_reject.
  - by apply InFlight_resumeLoad.
Qed.

Lemma InFlight_rejectLoad id p q s :
  q ≠ p → InFlight id p s → InFlight id p (rejectLoad q s).
Proof.
  intros Hqp HF. destruct (rejectLoad_cases q s) as [(url & _ & ->)|[_ ->]]; [|done].
  by apply InFlight_reject.
Qed.

Lemma InFlight_step id p op s :
  settles p op = false → InFlight id p s → InFlight id p (snd (step op s)).
Proof.
  intros Hs HF.
  destruct op as [url image|url| |ls|size|mode|zoom|pan|flag|size dpr|q image
                 |url image|q image|q]; cbn in *;
    try (eapply InFlight_loaderState; [|exact HF]; reflexivity).
  - pose proof (InFlight_loadTexImage2D id p url image s HF).
    by destruct (loadTexImage2D url image s).
  - pose proof (InFlight_discardTexImage2D id p url s HF).
    by destruct (discardTexImage2D url s).
  - by apply InFlight_render.
  - apply InFlight_resumeLoad; [|done]. by apply bool_decide_eq_false in Hs.
  - pose proof (InFlight_loadTexImage2DGlNull id p url image s HF).
    by destruct (loadTexImage2DGlNull url image s).
  - apply InFlight_resumeLoadGlNull; [|done]. by apply bool_decide_eq_false in Hs.
  - apply InFlight_rejectLoad; [|done]. by apply bool_decide_eq_false in Hs.
Qed.

Lemma InFlight_run id p ops s :
  existsb (settles p) ops = false → InFlight id p s → InFlight id p (run ops s).
Proof.
  revert s. induction ops as [|op ops IH]; intros s Hs HF; [done|].
  cbn in Hs. apply orb_false_iff in Hs as [Hs1 Hs2].
  rewrite run_cons. apply IH; [done|]. by apply InFlight_step.
Qed.

(** Only a request adds to the Desired Set. *)
Lemma desiredImages_discardUnused_from urls s :
  desiredImages (foldl discardIfUnused s urls) ⊆ desiredImages s.
Proof.
  revert s. induction urls as [|u urls IH]; intros s; [done|].
  cbn. etransitivity; [apply IH|]. unfold discardIfUnused.
  destruct (layerImageCache s !! u) as [li|]; [|done].
  destruct (LayerImage.renderId li <? renderId s); [|done].
  destruct (decide (u ∈ desiredImages s)) as [Hin|Hout].
  - apply loaderState_discardTexImage2D in Hin as (_ & _ & -> & _). set_solver.
  - by rewrite discardTexImage2D_not_desired.
Qed.

Lemma desiredImages_resumeLoad p image s :
  desiredImages (resumeLoad p image s) = desiredImages s.
Proof.
  unfold resumeLoad. destruct (promises s !! p) as [[url|v|e]|]; try done.
  destruct (decide (url ∈ desiredImages s)) as [Hw|Hw].
  - by destruct (finishLoad_wanted url image true s Hw) as (li & -> & _).
  - rewrite (finishLoad_unwanted url image true s Hw). cbn zeta.
    set (s1 := set_texImage2DPromiseCache _ _).
    pose proof (loaderState_releaseImage (Some image) s1) as Hl.
    apply loaderState_eq in Hl as (_ & _ & Hd & _).
    cbn [desiredImages set_promises]. by rewrite Hd.
Qed.

Lemma desiredImages_loadTexImage2DGlNull url image s :
  desiredImages (snd (loadTexImage2DGlNull url image s)) = {[url]} ∪ desiredImages s.
Proof.
  rewrite loadTexImage2DGlNull_cases. cbn zeta.
  by destruct (texImage2DPromiseCache s !! url).
Qed.

Lemma desiredImages_resumeLoadGlNull p image s :
  desiredImages (resumeLoadGlNull p image s) = desiredImages s.
Proof.
  destruct (resumeLoadGlNull_cases p image s) as [(url & _ & _ & ->)|[_ ->]]; [done|].
  apply desiredImages_resumeLoad.
Qed.

Lemma desiredImages_rejectLoad p s : desiredImages (rejectLoad p s) = desiredImages s.
Proof. by destruct (rejectLoad_cases p s) as [(url & _ & ->)|[_ ->]]. Qed.

Lemma desiredImages_step id op s :
  requests id op = false → id ∉ desiredImages s → id ∉ desiredImages (snd (step op s)).
Proof.
  intros Hr Hid.
  destruct op as [url image|url| |ls|size|mode|zoom|pan|flag|size dpr|promise image
                 |url image|promise image|promise]; cbn in *; try done;
    [| | | |
     pose proof (desiredImages_loadTexImage2DGlNull url image s) as Hd;
     destruct (loadTexImage2DGlNull url image s) as [q s']; cbn in *; rewrite Hd;
     apply bool_decide_eq_false in Hr; set_solver
     | by rewrite desiredImages_resumeLoadGlNull
     | by rewrite desiredImages_rejectLoad].
  - pose proof (desiredImages_loadTexImage2D url image s) as Hd.
    destruct (loadTexImage2D url image s) as [q s']. cbn in *. rewrite Hd.
    apply bool_decide_eq_false in Hr. set_solver.
  - destruct (decide (url ∈ desiredImages s)) as [Hin|Hout].
    + apply loaderState_discardTexImage2D in Hin as (_ & _ & Hd & _).
      destruct (discardTexImage2D url s) as [b s']. cbn in *. rewrite Hd. set_solver.
    + by rewrite discardTexImage2D_not_desired.
  - unfold render. set (s1 := renderLayersToFramebuffer _).
    assert (Hl : loaderState s1 = loaderState s).
    { unfold s1. by rewrite loaderState_renderLayersToFramebuffer. }
    apply loaderState_eq in Hl as (_ & _ & Hd & _).
    destruct (offscreenWriteColorAttachment s1) as [att|]; [|by rewrite Hd].
    cbn zeta. set (s2 := issue (presentDraw _ att) _).
    destruct (autoDiscard s2).
    + intros Hin. apply desiredImages_discardUnused_from in Hin.
      change (desiredImages s2) with (desiredImages s1) in Hin. by rewrite Hd in Hin.
    + change (desiredImages s2) with (desiredImages s1). by rewrite Hd.
  - unfold resumeLoad. destruct (promises s !! promise) as [[url|v|e]|]; try done.
    destruct (decide (url ∈ desiredImages s)) as [Hw|Hw].
    + by destruct (finishLoad_wanted url image true s Hw) as (li & -> & _).
    + rewrite (finishLoad_unwanted url image true s Hw). cbn zeta.
      set (s1 := set_texImage2DPromiseCache _ _).
      pose proof (loaderState_releaseImage (Some image) s1) as Hl.
      apply loaderState_eq in Hl as (_ & _ & Hd & _).
      cbn [desiredImages set_promises]. by rewrite Hd.
Qed.

Lemma desiredImages_run id ops s :
  existsb (requests id) ops = false → id ∉ desiredImages s →
  id ∉ desiredImages (run ops s).
Proof.
  revert s. induction ops as [|op ops IH]; intros s Hr Hid; [done|].
  cbn in Hr. apply orb_false_iff in Hr as [Hr1 Hr2].
  rewrite run_cons. apply IH; [done|]. by apply desiredImages_step.
Qed.

Lemma first_request_InFlight id s :
  texImage2DPromiseCache s !! id = None →
  InFlight id (fst (loadTexImage2D id None s)) (snd (loadTexImage2D id None s)).
Proof.
  intros Hnone. destruct (first_request_FanIn id s Hnone) as [F1 F2 F3 _].
  split; [done | by intros []].
Qed.

Lemma discard_leaves_undesired id s : id ∉ desiredImages (snd (discardTexImage2D id s)).
Proof.
  destruct (decide (id ∈ desiredImages s)) as [Hin|Hout].
  - apply loaderState_discardTexImage2D in Hin as (_ & _ & -> & _). set_solver.
  - by rewrite discardTexImage2D_not_desired.
Qed.

(** The suspended load of an identifier that is no longer desired settles
    as cancelled and touches no cache. *)
Lemma cancelled_settlement id p image s :
  InFlight id p s → id ∉ desiredImages s →
  promises (resumeLoad p image s) !! p = Some (Fulfilled None)
  ∧ layerImageCache (resumeLoad p image s) = layerImageCache s
  ∧ desiredImages (resumeLoad p image s) = desiredImages s
  ∧ texImage2DPromiseCache (resumeLoad p image s) !! id = None
  ∧ history (resumeLoad p image s) = EvLoadCompleted id false :: history s.
Proof.
  intros [F1 F2] Hid. unfold resumeLoad. rewrite F1.
  rewrite (finishLoad_unwanted id image true s Hid). cbn zeta.
  set (s1 := set_texImage2DPromiseCache _ _).
  assert (Hr : ∀ i, promises (releaseImage i s1) = promises s
                    ∧ layerImageCache (releaseImage i s1) = layerImageCache s
                    ∧ desiredImages (releaseImage i s1) = desiredImages s
                    ∧ texImage2DPromiseCache (releaseImage i s1)
                      = delete id (texImage2DPromiseCache s)
                    ∧ history (releaseImage i s1) = EvLoadCompleted id false :: history s).
  { intros [[h|h]|]; cbn; [destruct (imageBitmapSupported s)|..]; done. }
  destruct (Hr (Some image)) as (Hp & Hc & Hd & Hm & Hh).
  cbn [promises layerImageCache desiredImages texImage2DPromiseCache history set_promises].
  rewrite Hp, Hc, Hd, Hm, Hh. split; [|by rewrite lookup_delete_eq].
  apply list_lookup_insert_eq. by apply lookup_lt_Some in F1.
Qed.

(** C3, as amended. A first request for [id] (not the name of an inherited
    object property) starts a fetch with promise [p].  If
    [discardTexImage2D(id)] is then called before [p] settles, and [id] is
    not requested again before the fetch ends, then: when the fetch
    delivers, [p] is fulfilled with [null] (whatever [gl.createTexture()]
    would answer, for it is not asked) and the Resident Cache is left as it
    was; when the fetch fails, [p] is rejected and nothing else changes.
    Either way [id] is afterwards in none of the Desired Set, the Resident
    Cache and the Pending-Load Map.  [discardTexImage2D] answers [false]
    and leaves the state as it is when the identifier is not desired, and
    answers [true] otherwise. *)
Theorem discard_before_settlement_cancels s id ops1 ops2 image :
  inheritedKey id = false →
  texImage2DPromiseCache s !! id = None →
  let p := fst (loadTexImage2D id None s) in
  let s1 := snd (loadTexImage2D id None s) in
  existsb (settles p) (ops1 ++ ops2) = false →
  existsb (requests id) ops2 = false →
  let s2 := run (ops1 ++ CallDiscardTexImage2D id :: ops2) s1 in
  let s3 := resumeLoad p image s2 in
  let s4 := rejectLoad p s2 in
  promises s2 !! p = Some (Pending id)
  ∧ (promises s3 !! p = Some (Fulfilled None)
     ∧ resumeLoadGlNull p image s2 = s3
     ∧ layerImageCache s3 = layerImageCache s2
     ∧ id ∉ desiredImages s3
     ∧ layerImageCache s3 !! id = None
     ∧ texImage2DPromiseCache s3 !! id = None)
  ∧ (promises s4 !! p = Some (Rejected fetchFailed)
     ∧ layerImageCache s4 = layerImageCache s2
     ∧ id ∉ desiredImages s4
     ∧ layerImageCache s4 !! id = None
     ∧ texImage2DPromiseCache s4 !! id = None)
  ∧ (∀ s' : LayerCompositor,
       (id ∉ desiredImages s' → discardTexImage2D id s' = (false, s'))
       ∧ (id ∈ desiredImages s' → fst (discardTexImage2D id s') = true)).
Proof.
  intros _ Hnone p s1 Hsettle Hreq s2 s3 s4.
  rewrite existsb_app in Hsettle. apply orb_false_iff in Hsettle as [Hs1 Hs2].
  pose proof (first_request_InFlight id s Hnone) as HF. fold p s1 in HF.
  apply (InFlight_run id p ops1 s1 Hs1) in HF.
  assert (HF2 : InFlight id p s2 ∧ id ∉ desiredImages s2).
  { unfold s2. rewrite run_app, run_cons. split.
    - apply InFlight_run; [done|]. by apply InFlight_step.
    - apply desiredImages_run; [done|]. cbn.
      pose proof (discard_leaves_undesired id (run ops1 s1)).
      by destruct (discardTexImage2D id (run ops1 s1)). }
  destruct HF2 as [HF2 Hout].
  destruct (cancelled_settlement id p image s2 HF2 Hout) as (Hp & Hc & Hd & Hm & Hh).
  fold s3 in Hp, Hc, Hd, Hm, Hh.
  destruct HF2 as [F1 F2]. destruct (F2 Hout) as [Hres Hmap].
  split; [done|]. split; [|split].
  - split; [done|]. split.
    { destruct (resumeLoadGlNull_cases p image s2) as [(url & Hu & Hw & _)|[_ ->]]; [|done].
      rewrite F1 in Hu. by injection Hu as <-. }
    split; [done|]. split; [by rewrite Hd|]. split; [|done].
    rewrite Hc. by apply not_elem_of_dom.
  - assert (H4 : s4 = set_promises (<[p := Rejected fetchFailed]> (promises s2)) s2).
    { unfold s4. destruct (rejectLoad_cases p s2) as [(url & _ & ->)|[Hno _]]; [done|].
      by destruct (Hno id). }
    rewrite H4. cbn.
    split; [apply list_lookup_insert_eq; by apply lookup_lt_Some in F1|].
    split; [done|]. split; [done|]. split; [by apply not_elem_of_dom | done].
  - intros s'. split.
    + apply discardTexImage2D_not_desired.
    + apply discardTexImage2D_desired.
Qed.

Lemma discard_before_settlement_cancels_witness :
  let s := initial (Vector2.mk 800 600) 1 true in
  let ops1 := [CallLoadTexImage2D "a" None; CallRender] in
  let ops2 := [CallLoadTexImage2D "b" (Some (HTMLImageElement 4)); CallRender] in
  let s2 := run (ops1 ++ CallDiscardTexImage2D "a" :: ops2)
                (snd (loadTexImage2D "a" None s)) in
  let s3 := resumeLoad 0 (ImageBitmap 9) s2 in
  promises s2 !! 0%nat = Some (Pending "a")
  ∧ promises s3 !! 0%nat = Some (Fulfilled None)
  ∧ layerImageCache s3 = layerImageCache s2
  ∧ layerImageCache s3 !! "a" = None
  ∧ texImage2DPromiseCache s3 !! "a" = None.
Proof.
  intros s ops1 ops2 s2 s3.
  destruct (discard_before_settlement_cancels s "a" ops1 ops2 (ImageBitmap 9))
    as (H1 & (H2 & _ & H3 & _ & H5 & H6) & _).
  - reflexivity.
  - reflexivity.
  - reflexivity.
  - reflexivity.
  - repeat split; assumption.
Defined.

(** C3, the claim as stated fails: a fetch that fails after the discard
    leaves the task rejected, not resolved to [null]. *)
Lemma discard_then_failed_fetch_rejects :
  let s := initial (Vector2.mk 800 600) 1 true in
  let ops := [CallLoadTexImage2D "a" None; CallDiscardTexImage2D "a"; FetchFails 0] in
  fst (exec ops s) = [RPromise 0; RBool true; RVoid]
  ∧ promises (run [CallLoadTexImage2D "a" None; CallDiscardTexImage2D "a"] s)
    = [Pending "a"]
  ∧ promises (run ops s) = [Rejected fetchFailed]
  ∧ promises (run ops s) !! 0%nat ≠ Some (Fulfilled None).
Proof. vm_compute. repeat split; try reflexivity. discriminate. Qed.

(** ** The copy-then-blend protocol *)

Lemma sceneState_eq s s' :
  sceneState s = sceneState s' →
  autoDiscard s = autoDiscard s' ∧ renderId s = renderId s'
  ∧ layers s = layers s' ∧ layerVersion s = layerVersion s'
  ∧ offlineLayerVersion s = offlineLayerVersion s' ∧ targets s = targets s'.
Proof.
  unfold sceneState. intros H. injection H. intros.
  repeat split; try assumption. unfold targets. congruence.
Qed.

Lemma sceneState_TexImage2D_dispose id s :
  sceneState (set_context (TexImage2D_dispose id (context s)) s) = sceneState s.
Proof. unfold TexImage2D_dispose. by destruct (bool_decide _). Qed.

Lemma sceneState_releaseImage image s : sceneState (releaseImage image s) = sceneState s.
Proof.
  unfold releaseImage. destruct image as [[h|h]|]; try done.
  by destruct (imageBitmapSupported s).
Qed.

Lemma sceneState_LayerImage_dispose li s :
  sceneState (LayerImage_dispose li s) = sceneState s.
Proof.
  unfold LayerImage_dispose. destruct (LayerImage.disposed li); [done|].
  by rewrite sceneState_releaseImage, sceneState_TexImage2D_dispose.
Qed.

Lemma sceneState_finishLoad url image hadToFetch s :
  sceneState (snd (finishLoad url image hadToFetch s)) = sceneState s.
Proof.
  destruct (decide (url ∈ desiredImages s)) as [Hw|Hw].
  - by destruct (finishLoad_wanted url image hadToFetch s Hw) as (li & -> & _).
  - rewrite (finishLoad_unwanted url image hadToFetch s Hw). cbn [snd].
    destruct hadToFetch; [|done]. cbn zeta. by rewrite sceneState_releaseImage.
Qed.

Lemma sceneState_loadTexImage2D url image s :
  sceneState (snd (loadTexImage2D url image s)) = sceneState s.
Proof.
  unfold loadTexImage2D. destruct (texImage2DPromiseCache _ !! url); [done|].
  destruct image as [img|]; [|done].
  pose proof (sceneState_finishLoad url img false
                (set_desiredImages ({[url]} ∪ desiredImages s) s)) as H.
  by destruct (finishLoad url img false _).
Qed.

Lemma sceneState_resumeLoad p image s : sceneState (resumeLoad p image s) = sceneState s.
Proof.
  unfold resumeLoad. destruct (promises s !! p) as [[url|v|e]|]; try done.
  pose proof (sceneState_finishLoad url image true s) as H.
  by destruct (finishLoad url image true s).
Qed.

Lemma sceneState_loadTexImage2DGlNull url image s :
  sceneState (snd (loadTexImage2DGlNull url image s)) = sceneState s.
Proof.
  rewrite loadTexImage2DGlNull_cases. cbn zeta.
  by destruct (texImage2DPromiseCache s !! url).
Qed.

Lemma sceneState_resumeLoadGlNull p image s :
  sceneState (resumeLoadGlNull p image s) = sceneState s.
Proof.
  destruct (resumeLoadGlNull_cases p image s) as [(url & _ & _ & ->)|[_ ->]]; [done|].
  apply sceneState_resumeLoad.
Qed.

Lemma sceneState_rejectLoad p s : sceneState (rejectLoad p s) = sceneState s.
Proof. by destruct (rejectLoad_cases p s) as [(url & _ & ->)|[_ ->]]. Qed.

Lemma sceneState_discardTexImage2D url s :
  sceneState (snd (discardTexImage2D url s)) = sceneState s.
Proof.
  unfold discardTexImage2D. destruct (bool_decide _); [|done]. cbn zeta.
  set (s1 := set_history _ _).
  change (sceneState s) with (sceneState s1).
  destruct (layerImageCache s1 !! url) as [li|]; [|done].
  by rewrite <-(sceneState_LayerImage_dispose li s1).
Qed.

Lemma sceneState_discardIfUnused s url : sceneState (discardIfUnused s url) = sceneState s.
Proof.
  unfold discardIfUnused. destruct (layerImageCache s !! url) as [li|]; [|done].
  destruct (LayerImage.renderId li <? renderId s); [|done].
  apply sceneState_discardTexImage2D.
Qed.

Lemma sceneState_discardUnused_from urls s :
  sceneState (foldl discardIfUnused s urls) = sceneState s.
Proof.
  revert s. induction urls as [|u urls IH]; intros s; [done|].
  cbn. by rewrite IH, sceneState_discardIfUnused.
Qed.

Lemma sceneState_compositeLayer r w m v s layer :
  sceneState (compositeLayer r w m v s layer) = sceneState s.
Proof.
  unfold compositeLayer.
  by destruct (Layer.mask layer), (Layer.isTriviallyBlended layer).
Qed.

Lemma sceneState_foldl_compositeLayer r w m v ls s :
  sceneState (foldl (compositeLayer r w m v) s ls) = sceneState s.
Proof.
  revert s. induction ls as [|l ls IH]; intros s; [done|].
  cbn. by rewrite IH, sceneState_compositeLayer.
Qed.

Lemma issued_issue c s : issued (issue c s) = issued s ++ [c].
Proof. reflexivity. Qed.

Lemma layerPasses_targets r w m v s s' layer :
  targets s = targets s' → layerPasses r w m v s layer = layerPasses r w m v s' layer.
Proof.
  unfold targets. intros H. simplify_eq.
  unfold layerPasses, copyDraw, blendDraw, copyUniforms, blendUniforms.
  by repeat match goal with H : _ = _ |- _ => rewrite H end.
Qed.

Lemma compositeLayer_issued r w m v s layer :
  issued (compositeLayer r w m v s layer) = issued s ++ layerPasses r w m v s layer
  ∧ targets (compositeLayer r w m v s layer) = targets s.
Proof.
  unfold compositeLayer, layerPasses, issued.
  destruct (Layer.mask layer) as [mask|], (Layer.isTriviallyBlended layer); cbn;
    rewrite <-?app_assoc; done.
Qed.

Lemma foldl_compositeLayer_issued r w m v ls s :
  issued (foldl (compositeLayer r w m v) s ls)
  = issued s ++ flat_map (layerPasses r w m v s) ls
  ∧ targets (foldl (compositeLayer r w m v) s ls) = targets s.
Proof.
  revert s. induction ls as [|l ls IH]; intros s.
  - cbn. by rewrite app_nil_r.
  - cbn [foldl flat_map].
    destruct (compositeLayer_issued r w m v s l) as [Hi Ht].
    destruct (IH (compositeLayer r w m v s l)) as [IHi IHt].
    rewrite IHi, IHt, Hi, <-app_assoc. split; [|done].
    f_equal. f_equal. apply flat_map_ext. intros layer.
    by apply layerPasses_targets.
Qed.

Lemma replaceWriteTarget_targets s :
  ∃ w a, offscreenWriteFramebuffer (replaceWriteTarget s) = Some w
         ∧ offscreenWriteColorAttachment (replaceWriteTarget s) = Some a
         ∧ offscreenReadFramebuffer (replaceWriteTarget s) = offscreenReadFramebuffer s
         ∧ offscreenReadColorAttachment (replaceWriteTarget s)
           = offscreenReadColorAttachment s
         ∧ offscreenSize (replaceWriteTarget s) = offscreenSize s.
Proof.
  unfold replaceWriteTarget.
  destruct (offscreenWriteFramebuffer s); cbn;
    destruct (offscreenWriteColorAttachment s); cbn; eauto 10.
Qed.

Lemma replaceReadTarget_targets s :
  ∃ r a, offscreenReadFramebuffer (replaceReadTarget s) = Some r
         ∧ offscreenReadColorAttachment (replaceReadTarget s) = Some a
         ∧ offscreenWriteFramebuffer (replaceReadTarget s) = offscreenWriteFramebuffer s
         ∧ offscreenWriteColorAttachment (replaceReadTarget s)
           = offscreenWriteColorAttachment s
         ∧ offscreenSize (replaceReadTarget s) = offscreenSize s.
Proof.
  unfold replaceReadTarget.
  destruct (offscreenReadFramebuffer s); cbn;
    destruct (offscreenReadColorAttachment s); cbn; eauto 10.
Qed.

Lemma updateOffscreen_has_targets s :
  ∃ w r, offscreenWriteFramebuffer (updateOffscreen s) = Some w
         ∧ offscreenReadFramebuffer (updateOffscreen s) = Some r.
Proof.
  unfold updateOffscreen. destruct (offscreenOutdated s) eqn:Hout.
  - set (s1 := set_offscreenSize _ s).
    destruct (replaceWriteTarget_targets s1) as (w & a & Hw & _).
    destruct (replaceReadTarget_targets (replaceWriteTarget s1))
      as (r & a' & Hr & _ & Hw' & _).
    exists w, r. by rewrite Hw', Hw, Hr.
  - unfold offscreenOutdated in Hout.
    destruct (offscreenWriteFramebuffer s) as [w|]; [|done].
    destruct (offscreenReadFramebuffer s) as [r|]; [|done]. eauto.
Qed.

Lemma recomposition_issued s w r :
  let s0 := updateOffscreen s in
  offlineLayerVersion s0 < layerVersion s0 →
  offscreenWriteFramebuffer s0 = Some w →
  offscreenReadFramebuffer s0 = Some r →
  issued (renderLayersToFramebuffer s)
  = issued s0
    ++ [CmdClear (OffscreenFramebuffer w) transparentBlack 0;
        CmdClear (OffscreenFramebuffer r) transparentBlack 0]
    ++ flat_map (layerPasses r w (imageToOffscreen s0) (viewToImageUv s0) s0) (layers s0)
    ++ match offscreenWriteColorAttachment s0 with
       | Some att => [CmdGenerateMipmaps att]
       | None => []
       end
  ∧ targets (renderLayersToFramebuffer s) = targets s0
  ∧ offlineLayerVersion (renderLayersToFramebuffer s) = layerVersion s0
  ∧ layerVersion (renderLayersToFramebuffer s) = layerVersion s0.
Proof.
  intros s0 Hlt Hw Hr. unfold renderLayersToFramebuffer. fold s0.
  assert (Hge : offlineLayerVersion s0 >=? layerVersion s0 = false) by lia.
  rewrite Hge. cbn [offscreenWriteFramebuffer offscreenReadFramebuffer
                     set_offlineLayerVersion]. rewrite Hw, Hr.
  match goal with
  | |- context [foldl ?f ?a ?l] =>
      destruct (foldl_compositeLayer_issued r w (imageToOffscreen s0) (viewToImageUv s0)
                  l a) as [Hi Ht];
      change (foldl f a l)
        with (foldl (compositeLayer r w (imageToOffscreen s0) (viewToImageUv s0)) a l)
  end.
  set (s2 := foldl _ _ _) in *.
  assert (Hatt : offscreenWriteColorAttachment s2 = offscreenWriteColorAttachment s0).
  { unfold targets in Ht. by simplify_eq. }
  assert (Hver : offlineLayerVersion s2 = layerVersion s0
                 ∧ layerVersion s2 = layerVersion s0).
  { pose proof (sceneState_foldl_compositeLayer r w (imageToOffscreen s0)
                  (viewToImageUv s0) (layers s0)
                  (issue (CmdClear (OffscreenFramebuffer r) transparentBlack 0)
                     (issue (CmdClear (OffscreenFramebuffer w) transparentBlack 0)
                        (set_offlineLayerVersion (layerVersion s0) s0)))) as Hs.
    apply sceneState_eq in Hs as (_ & _ & _ & Hv & Ho & _). done. }
  rewrite Hatt.
  assert (Hpass : flat_map
            (layerPasses r w (imageToOffscreen s0) (viewToImageUv s0)
               (issue (CmdClear (OffscreenFramebuffer r) transparentBlack 0)
                  (issue (CmdClear (OffscreenFramebuffer w) transparentBlack 0)
                     (set_offlineLayerVersion (layerVersion s0) s0))))
            (layers s0)
          = flat_map (layerPasses r w (imageToOffscreen s0) (viewToImageUv s0) s0)
              (layers s0)).
  { apply flat_map_ext. intros layer. by apply layerPasses_targets. }
  change (targets s2 = targets s0) in Ht.
  change (layers (issue _ _)) with (layers s0) in Hi. rewrite Hpass in Hi.
  rewrite !issued_issue in Hi. change (issued (set_offlineLayerVersion _ s0))
    with (issued s0) in Hi.
  destruct (offscreenWriteColorAttachment s0) as [att|].
  - split; [|split; [exact Ht | exact Hver]].
    rewrite issued_issue, Hi. by rewrite <-!app_assoc.
  - split; [|split; [exact Ht | exact Hver]].
    rewrite Hi, app_nil_r. by rewrite <-!app_assoc.
Qed.

(** The two replacement blocks touch the context and the targets only. *)
Lemma replaceWriteTarget_rest s :
  stackState (replaceWriteTarget s) = stackState s
  ∧ zoomScale (replaceWriteTarget s) = zoomScale s
  ∧ layerImageCache (replaceWriteTarget s) = layerImageCache s.
Proof.
  unfold replaceWriteTarget.
  destruct (offscreenWriteFramebuffer s); cbn;
    destruct (offscreenWriteColorAttachment s); repeat split; reflexivity.
Qed.

Lemma replaceReadTarget_rest s :
  stackState (replaceReadTarget s) = stackState s
  ∧ zoomScale (replaceReadTarget s) = zoomScale s
  ∧ layerImageCache (replaceReadTarget s) = layerImageCache s.
Proof.
  unfold replaceReadTarget.
  destruct (offscreenReadFramebuffer s); cbn;
    destruct (offscreenReadColorAttachment s); repeat split; reflexivity.
Qed.

Lemma updateOffscreen_rest s :
  stackState (updateOffscreen s) = stackState s
  ∧ zoomScale (updateOffscreen s) = zoomScale s
  ∧ layerImageCache (updateOffscreen s) = layerImageCache s.
Proof.
  unfold updateOffscreen. destruct (offscreenOutdated s); [|done].
  set (s1 := set_offscreenSize (roundedImageSize s) s).
  destruct (replaceWriteTarget_rest s1) as (H1 & H2 & H3).
  destruct (replaceReadTarget_rest (replaceWriteTarget s1)) as (H4 & H5 & H6).
  by rewrite H4, H5, H6, H1, H2, H3.
Qed.

Lemma layers_updateOffscreen s : layers (updateOffscreen s) = layers s.
Proof.
  destruct (updateOffscreen_rest s) as (H & _). unfold stackState in H. congruence.
Qed.

Lemma copyUniforms_lookup layer m v s :
  copyUniforms layer m v s !! "layerMap" = Some (UTexture (offscreenWriteColorAttachment s))
  ∧ copyUniforms layer m v s !! "localToView" = Some (UMatrix4 (Layer.planeToImage layer))
  ∧ copyUniforms layer m v s !! "viewToScreen" = Some (UMatrix4 m)
  ∧ copyUniforms layer m v s !! "viewToLayerUv" = Some (UMatrix3 v).
Proof. repeat split; reflexivity. Qed.

Lemma copyUniforms_plain layer m v s :
  copyUniforms layer m v s !! "imageMap" = Some (UTexture (offscreenWriteColorAttachment s))
  ∧ copyUniforms layer m v s !! "viewToImageUv" = Some (UMatrix3 v)
  ∧ copyUniforms layer m v s !! "mipmapBias" = Some (UNumber 0)
  ∧ copyUniforms layer m v s !! "maskMode" = Some (UInt 0)
  ∧ copyUniforms layer m v s !! "blendMode" = Some (UInt 0)
  ∧ copyUniforms layer m v s !! "opacity" = Some (UNumber 1).
Proof. repeat split; reflexivity. Qed.

Lemma blendUniforms_lookup layer m v s :
  blendUniforms layer m v s !! "imageMap" = Some (UTexture (offscreenReadColorAttachment s))
  ∧ blendUniforms layer m v s !! "layerMap" = Some (UTexture (Some (Layer.texImage2D layer)))
  ∧ blendUniforms layer m v s !! "localToView" = Some (UMatrix4 (Layer.planeToImage layer))
  ∧ blendUniforms layer m v s !! "viewToScreen" = Some (UMatrix4 m).
Proof.
  unfold blendUniforms. destruct (Layer.mask layer) as [mask|]; repeat split; reflexivity.
Qed.

(** C4. When the stack is recomposed, the commands issued after the two
    clears are, layer by layer in stack order, the passes of the protocol:
    for a layer that is not trivially blended a copy draw into the read
    target followed at once by the layer's blend draw into the write
    target, for a trivially blended layer the blend draw alone.  The copy
    draw samples the write target's colour attachment, is placed by the
    layer's own [planeToImage] under the offscreen projection (so it covers
    the layer's rectangle only) and replaces what it covers: it samples the
    write target at the image coordinate of the fragment (its layer
    coordinate is the image coordinate), with no mask, blend mode 0 and
    opacity 1, under the source-replacing blend state.  The blend draw reads
    the read target's attachment as its destination image. *)
Theorem copy_then_blend_protocol s :
  let s0 := updateOffscreen s in
  offlineLayerVersion s0 < layerVersion s0 →
  ∃ w r,
    offscreenWriteFramebuffer s0 = Some w
    ∧ offscreenReadFramebuffer s0 = Some r
    ∧ issued (renderLayersToFramebuffer s)
      = issued s0
        ++ [CmdClear (OffscreenFramebuffer w) transparentBlack 0;
            CmdClear (OffscreenFramebuffer r) transparentBlack 0]
        ++ flat_map (layerPasses r w (imageToOffscreen s0) (viewToImageUv s0) s0) (layers s)
        ++ match offscreenWriteColorAttachment s0 with
           | Some att => [CmdGenerateMipmaps att]
           | None => []
           end
    ∧ ∀ i layer, layers s !! i = Some layer →
        let passes := layerPasses r w (imageToOffscreen s0) (viewToImageUv s0) s0 in
        let copyU := copyUniforms layer (imageToOffscreen s0) (viewToImageUv s0) s0 in
        let blendU := blendUniforms layer (imageToOffscreen s0) (viewToImageUv s0) s0 in
        let copy := CmdDraw (OffscreenFramebuffer r) copyU copySourceBlendState in
        let blend := CmdDraw (OffscreenFramebuffer w) blendU
                             (Layer.blendModeBlendState layer) in
        flat_map passes (layers s)
        = flat_map passes (take i (layers s))
          ++ (if Layer.isTriviallyBlended layer then [blend] else [copy; blend])
          ++ flat_map passes (drop (S i) (layers s))
        ∧ copyU !! "layerMap" = Some (UTexture (offscreenWriteColorAttachment s0))
        ∧ copyU !! "localToView" = Some (UMatrix4 (Layer.planeToImage layer))
        ∧ copyU !! "viewToScreen" = Some (UMatrix4 (imageToOffscreen s0))
        ∧ copyU !! "viewToLayerUv" = Some (UMatrix3 (viewToImageUv s0))
        ∧ copyU !! "imageMap" = Some (UTexture (offscreenWriteColorAttachment s0))
        ∧ copyU !! "viewToImageUv" = Some (UMatrix3 (viewToImageUv s0))
        ∧ copyU !! "mipmapBias" = Some (UNumber 0)
        ∧ copyU !! "maskMode" = Some (UInt 0)
        ∧ copyU !! "blendMode" = Some (UInt 0)
        ∧ copyU !! "opacity" = Some (UNumber 1)
        ∧ blendU !! "imageMap" = Some (UTexture (offscreenReadColorAttachment s0))
        ∧ blendU !! "localToView" = Some (UMatrix4 (Layer.planeToImage layer)).
Proof.
  intros s0 Hlt.
  destruct (updateOffscreen_has_targets s) as (w & r & Hw & Hr). fold s0 in Hw, Hr.
  exists w, r. split; [done|]. split; [done|].
  destruct (recomposition_issued s w r Hlt Hw Hr) as (Hi & _ & _). fold s0 in Hi.
  unfold s0 in Hi at 5. rewrite layers_updateOffscreen in Hi. fold s0 in Hi.
  split; [exact Hi|].
  intros i layer Hlayer passes copyU blendU copy blend.
  destruct (copyUniforms_lookup layer (imageToOffscreen s0) (viewToImageUv s0) s0)
    as (C1 & C2 & C3 & C4).
  destruct (copyUniforms_plain layer (imageToOffscreen s0) (viewToImageUv s0) s0)
    as (C5 & C6 & C7 & C8 & C9 & C10).
  destruct (blendUniforms_lookup layer (imageToOffscreen s0) (viewToImageUv s0) s0)
    as (B1 & _ & B3 & _).
  split; [|repeat split; assumption].
  rewrite <-(take_drop_middle (layers s) i layer Hlayer) at 1.
  rewrite flat_map_app. cbn [flat_map]. f_equal.
  unfold passes at 1, layerPasses. fold copyU blendU.
  unfold copyDraw, blendDraw. by destruct (Layer.isTriviallyBlended layer).
Qed.

Lemma copy_then_blend_protocol_witness :
  let bottom := Layer.mk "a" None true (Matrix4Given 1) 10 (Matrix3Given 1) 0 1
                         (BlendStateGiven 0) in
  let top := Layer.mk "b" None false (Matrix4Given 2) 11 (Matrix3Given 2) 3 (1 # 2)
                      copySourceBlendState in
  let s := setLayers [bottom; top] (initial (Vector2.mk 800 600) 1 true) in
  let s0 := updateOffscreen s in
  ∃ w r,
    issued (renderLayersToFramebuffer s)
    = issued s0
      ++ [CmdClear (OffscreenFramebuffer w) transparentBlack 0;
          CmdClear (OffscreenFramebuffer r) transparentBlack 0]
      ++ [blendDraw w bottom (imageToOffscreen s0) (viewToImageUv s0) s0;
          copyDraw r top (imageToOffscreen s0) (viewToImageUv s0) s0;
          blendDraw w top (imageToOffscreen s0) (viewToImageUv s0) s0]
      ++ match offscreenWriteColorAttachment s0 with
         | Some att => [CmdGenerateMipmaps att]
         | None => []
         end.
Proof.
  intros bottom top s s0.
  destruct (copy_then_blend_protocol s) as (w & r & _ & _ & Hi & _).
  - vm_compute. reflexivity.
  - exists w, r. exact Hi.
Defined.

(** ** Recomposition caching *)


Lemma issued_Framebuffer_dispose id s :
  ∃ new, issued (set_context (Framebuffer_dispose id (context s)) s) = issued s ++ new
         ∧ existsb drawsOffscreen new = false.
Proof.
  unfold Framebuffer_dispose. destruct (bool_decide _).
  - by exists [CmdDeleteFramebuffer id].
  - exists []. split; [|done]. unfold issued. cbn. by rewrite app_nil_r.
Qed.









Lemma stackState_updateOffscreen s : stackState (updateOffscreen s) = stackState s.
Proof. by destruct (updateOffscreen_rest s) as (H & _). Qed.

Lemma stackState_eq s s' :
  stackState s = stackState s' →
  autoDiscard s = autoDiscard s' ∧ renderId s = renderId s' ∧ layers s = layers s'
  ∧ layerVersion s = layerVersion s' ∧ offlineLayerVersion s = offlineLayerVersion s'.
Proof. unfold stackState. intros H. by simplify_eq. Qed.

Lemma Attached_updateOffscreen s : Attached s → Attached (updateOffscreen s).
Proof.
  intros HA. unfold updateOffscreen. destruct (offscreenOutdated s); [|done].
  set (s1 := set_offscreenSize _ s).
  destruct (replaceWriteTarget_targets s1) as (w & a & _ & Ha & _).
  destruct (replaceReadTarget_targets (replaceWriteTarget s1)) as (_ & _ & _ & _ & _ & Ha' & _).
  intros _. rewrite Ha', Ha. by eexists.
Qed.

(** The two ways [renderLayersToFramebuffer] goes. *)
Lemma renderLayersToFramebuffer_cases s :
  let s0 := updateOffscreen s in
  (Composed s0 ∧ renderLayersToFramebuffer s = s0)
  ∨ (offlineLayerVersion s0 < layerVersion s0
     ∧ targets (renderLayersToFramebuffer s) = targets s0
     ∧ offlineLayerVersion (renderLayersToFramebuffer s) = layerVersion s0
     ∧ layerVersion (renderLayersToFramebuffer s) = layerVersion s0).
Proof.
  intros s0. destruct (Z.le_gt_cases (layerVersion s0) (offlineLayerVersion s0)) as [Hle|Hlt].
  - left. split; [done|]. unfold renderLayersToFramebuffer. fold s0.
    by rewrite (proj2 (Z.geb_le _ _) Hle).
  - right. split; [done|].
    destruct (updateOffscreen_has_targets s) as (w & r & Hw & Hr).
    by destruct (recomposition_issued s w r Hlt Hw Hr) as (_ & Ht & Ho & Hv).
Qed.


Lemma targets_renderLayersToFramebuffer s :
  targets (renderLayersToFramebuffer s) = targets (updateOffscreen s).
Proof.
  by destruct (renderLayersToFramebuffer_cases s) as [[Hc ->]|(_ & Ht & _)].
Qed.

(** What [render] leaves of the scene once the offscreen part is done. *)
Lemma render_after_recomposition s :
  let s1 := renderLayersToFramebuffer (set_renderId (renderId s + 1) s) in
  layerVersion (render s) = layerVersion s1
  ∧ offlineLayerVersion (render s) = offlineLayerVersion s1
  ∧ targets (render s) = targets s1.
Proof.
  intros s1. unfold render. fold s1.
  destruct (offscreenWriteColorAttachment s1) as [att|]; [|done].
  cbn zeta. set (s2 := issue (presentDraw _ att) _).
  destruct (autoDiscard s2); [|done].
  pose proof (sceneState_discardUnused_from
                (map fst (map_to_list (layerImageCache s2))) s2) as Hs.
  unfold discardUnused.
  by apply sceneState_eq in Hs as (_ & _ & _ & -> & -> & ->).
Qed.


Lemma Attached_targets s s' : targets s = targets s' → Attached s → Attached s'.
Proof.
  unfold targets, Attached. intros H HA. injection H as _ Hw Ha _ _.
  by rewrite <-Hw, <-Ha.
Qed.

Lemma Attached_render s : Attached s → Attached (render s).
Proof.
  intros HA. destruct (render_after_recomposition s) as (_ & _ & Ht).
  rewrite targets_renderLayersToFramebuffer in Ht.
  apply (Attached_updateOffscreen (set_renderId (renderId s + 1) s)) in HA.
  by apply (Attached_targets _ _ (eq_sym Ht)).
Qed.

Lemma Attached_sceneState s s' : sceneState s = sceneState s' → Attached s → Attached s'.
Proof.
  intros (_ & _ & _ & _ & _ & Ht)%sceneState_eq HA. by apply (Attached_targets s).
Qed.


Lemma Attached_step op s : Attached s → Attached (snd (step op s)).
Proof.
  intros HA.
  destruct op as [url image|url| |ls|size|mode|zoom|pan|flag|size dpr|p image
                 |url image|p image|p]; cbn; try done.
  - pose proof (sceneState_loadTexImage2D url image s) as H.
    destruct (loadTexImage2D url image s). by apply (Attached_sceneState s).
  - pose proof (sceneState_discardTexImage2D url s) as H.
    destruct (discardTexImage2D url s). by apply (Attached_sceneState s).
  - by apply Attached_render.
  - apply (Attached_sceneState s); [|done]. by rewrite sceneState_resumeLoad.
  - pose proof (sceneState_loadTexImage2DGlNull url image s) as H.
    destruct (loadTexImage2DGlNull url image s). by apply (Attached_sceneState s).
  - apply (Attached_sceneState s); [|done]. by rewrite sceneState_resumeLoadGlNull.
  - apply (Attached_sceneState s); [|done]. by rewrite sceneState_rejectLoad.
Qed.

Lemma Attached_run ops s : Attached s → Attached (run ops s).
Proof.
  revert s. induction ops as [|op ops IH]; intros s HA; [done|].
  rewrite run_cons. apply IH. by apply Attached_step.
Qed.




Lemma Attached_initial size dpr bitmaps : Attached (initial size dpr bitmaps).
Proof. intros [w Hw]. discriminate. Qed.




(** ** Auto-discard *)

(** C6, the code at the failing input.  With auto-discard on, a stack of
    one layer whose image is resident is rendered twice without a change of
    the stack: the first render keeps the image, the second, which skips the
    recomposition and so the usage marks, discards it and deletes its
    texture although the current stack still refers to it. *)
Theorem auto_discard_evicts_image_in_use :
  let layer := Layer.mk "a" None true (Matrix4Given 1) 0 (Matrix3Given 1) 0 1
                        (BlendStateGiven 0) in
  let s := run [SetAutoDiscard true; SetImageSize (Vector2.mk 1000 1000);
                CallLoadTexImage2D "a" None; FetchDelivers 0 (ImageBitmap 7);
                SetLayers [layer]; CallRender]
               (initial (Vector2.mk 800 600) 1 true) in
  (layers s = [layer]
   ∧ LayerImage.texImage2D <$> layerImageCache s !! "a" = Some (Layer.texImage2D layer)
   ∧ LayerImage.renderId <$> layerImageCache s !! "a" = Some (renderId s))
  ∧ (layers (render s) = [layer]
     ∧ layerImageCache (render s) !! "a" = None
     ∧ texImage2DPromiseCache (render s) !! "a" = None
     ∧ elements (desiredImages (render s)) = []
     ∧ head (RenderingContext.commands (context (render s))) = Some (CmdDeleteTexture 0)
     ∧ closedBitmaps (render s) = [7%nat]).
Proof. vm_compute. repeat split; reflexivity. Qed.

(** ** Pan clamping and zoom identity *)

Lemma Qsign_magnitude a : (0 <= Qabs (Qsign a) <= 1)%Q.
Proof.
  split; [apply Qabs_nonneg|]. destruct a as [n d]. unfold Qsign. cbn.
  destruct n; unfold Qle; cbn; lia.
Qed.

(** [Math.sign(a) * Math.min(Math.abs(a), h)] stays within [h]. *)
Lemma clamp_magnitude a h : (0 <= h)%Q → (Qabs (Qsign a * Qmin (Qabs a) h) <= h)%Q.
Proof.
  intros Hh. rewrite Qabs_Qmult.
  assert (Hm : (0 <= Qabs (Qmin (Qabs a) h) <= h)%Q).
  { split; [apply Qabs_nonneg|]. rewrite Qabs_pos; [apply Q.le_min_r|].
    apply Q.min_glb; [apply Qabs_nonneg | done]. }
  apply Qle_trans with (1 * h)%Q.
  - apply Qmult_le_compat_nonneg; [apply Qsign_magnitude | done].
  - rewrite Qmult_1_l. apply Qle_refl.
Qed.

Lemma clampD_cases a h :
  (0 <= h)%Q → clampD a h = Double.NaN ∨ withinD (clampD a h) h.
Proof.
  intros Hh. destruct a as [q| | |]; cbn.
  - right. eexists. split; [reflexivity|]. by apply clamp_magnitude.
  - right. eexists. split; [reflexivity|].
    rewrite Qmult_1_l, Qabs_pos by done. apply Qle_refl.
  - right. eexists. split; [reflexivity|].
    setoid_replace (-1 * h)%Q with (- h)%Q using relation Qeq by ring.
    rewrite Qabs_opp, Qabs_pos by done. apply Qle_refl.
  - by left.
Qed.

Lemma Qeq_bool_false a : ¬ (a == 0)%Q → Qeq_bool a 0 = false.
Proof.
  intros Hne. destruct (Qeq_bool a 0) eqn:E; [|done]. by apply Qeq_bool_iff in E.
Qed.

Lemma Qdiv_nonzero a b : ¬ (a == 0)%Q → ¬ (b == 0)%Q → ¬ (a / b == 0)%Q.
Proof.
  intros Ha Hb Hz. apply Ha.
  rewrite <-(Qmult_div_r a b) by done. rewrite Hz. apply Qmult_0_r.
Qed.

(** Where neither extent on the fit axis is zero, no special value arises
    and the doubles follow the rationals. *)
Lemma imagePanOffsetD_finite s :
  ¬ (fitExtent s (canvasSize s) == 0)%Q →
  ¬ (fitExtent s (imageSize s) == 0)%Q →
  imagePanOffsetD s
  = (Double.Finite (Vector2.x (imagePanOffset s)),
     Double.Finite (Vector2.y (imagePanOffset s))).
Proof.
  unfold fitExtent, imagePanOffsetD, imageToCanvasScaleD, imagePanOffset, imageToCanvasScale.
  intros Hc Hi.
  destruct (imageFitMode s); cbn [Double.div];
    rewrite (Qeq_bool_false _ Hi);
    rewrite (Qeq_bool_false _ (Qdiv_nonzero _ _ Hc Hi)); reflexivity.
Qed.

(** With an image of positive extent on the fit axis, a canvas of non-zero
    extent there keeps the offset a number. *)
Lemma imagePanOffsetD_number s :
  ¬ (fitExtent s (canvasSize s) == 0)%Q →
  ¬ (fitExtent s (imageSize s) == 0)%Q →
  (0 <= Vector2.x (imageSize s))%Q → (0 <= Vector2.y (imageSize s))%Q →
  withinD (fst (imagePanOffsetD s)) (Vector2.x (imageSize s) * (1 # 2))
  ∧ withinD (snd (imagePanOffsetD s)) (Vector2.y (imageSize s) * (1 # 2)).
Proof.
  intros Hc Hi Hx Hy. rewrite (imagePanOffsetD_finite s Hc Hi). cbn [fst snd].
  split; (eexists; split; [reflexivity|]); unfold imagePanOffset;
    cbn [Vector2.x Vector2.y]; apply clamp_magnitude;
    (apply Qmult_le_0_compat; [done | discriminate]).
Qed.

(** C7, as amended. When [render] runs with [zoomScale > 1] on an image of
    non-negative size, each component of the clamped pan offset is either
    NaN or a number of magnitude at most half the image extent on its axis.
    It is such a number, and the viewport centre is the fitted image's
    centre moved by it (carried back to canvas space and scaled by
    [1 - 1/zoomScale]), whenever neither the canvas nor the image has a
    zero extent on the axis the fit mode divides by.  For an image of 1000
    by 1000 the offset is at most 500 in magnitude on each axis, whatever
    the pan position, the device pixel ratio, the fit mode and every canvas
    size whose extent on the fit axis is not zero. *)
Theorem pan_offset_clamped s :
  Qlt_bool 1 (zoomScale s) = true →
  (0 <= Vector2.x (imageSize s))%Q →
  (0 <= Vector2.y (imageSize s))%Q →
  ((fst (imagePanOffsetD s) = Double.NaN
    ∨ withinD (fst (imagePanOffsetD s)) (Vector2.x (imageSize s) * (1 # 2)))
   ∧ (snd (imagePanOffsetD s) = Double.NaN
      ∨ withinD (snd (imagePanOffsetD s)) (Vector2.y (imageSize s) * (1 # 2))))
  ∧ (¬ (fitExtent s (canvasSize s) == 0)%Q → ¬ (fitExtent s (imageSize s) == 0)%Q →
     withinD (fst (imagePanOffsetD s)) (Vector2.x (imageSize s) * (1 # 2))
     ∧ withinD (snd (imagePanOffsetD s)) (Vector2.y (imageSize s) * (1 # 2))
     ∧ imagePanOffsetD s
       = (Double.Finite (Vector2.x (imagePanOffset s)),
          Double.Finite (Vector2.y (imagePanOffset s)))
     ∧ canvasImageCenter s
       = Vector2.add
           (Vector2.multiplyByScalar (1 - 1 / zoomScale s)%Q
              (Vector2.multiplyByScalar (imageToCanvasScale s) (imagePanOffset s)))
           (Vector2.multiplyByScalar (1 # 2) (canvasImageSize s)))
  ∧ (imageSize s = Vector2.mk 1000 1000 → ¬ (fitExtent s (canvasSize s) == 0)%Q →
     withinD (fst (imagePanOffsetD s)) 500 ∧ withinD (snd (imagePanOffsetD s)) 500).
Proof.
  intros Hzoom Hx Hy.
  assert (Hhx : (0 <= Vector2.x (imageSize s) * (1 # 2))%Q)
    by (apply Qmult_le_0_compat; [done | discriminate]).
  assert (Hhy : (0 <= Vector2.y (imageSize s) * (1 # 2))%Q)
    by (apply Qmult_le_0_compat; [done | discriminate]).
  split; [|split].
  - split; unfold imagePanOffsetD; cbn [fst snd]; by apply clampD_cases.
  - intros Hc Hi. destruct (imagePanOffsetD_number s Hc Hi Hx Hy) as [H1 H2].
    split; [done|]. split; [done|]. split; [by apply imagePanOffsetD_finite|].
    unfold canvasImageCenter. by rewrite Hzoom.
  - intros Hsize Hc.
    assert (Hi : ¬ (fitExtent s (imageSize s) == 0)%Q).
    { unfold fitExtent. rewrite Hsize. by destruct (imageFitMode s). }
    destruct (imagePanOffsetD_number s Hc Hi Hx Hy) as [(qx & Ex & Bx) (qy & Ey & By)].
    rewrite Hsize in Bx, By. cbn [Vector2.x Vector2.y] in Bx, By.
    split; [exists qx | exists qy]; (split; [done|]);
      (eapply Qle_trans; [eassumption | discriminate]).
Qed.

Lemma pan_offset_clamped_witness :
  let s := run [SetImageSize (Vector2.mk 1000 1000); SetZoomScale 3;
                SetPanPosition (Vector2.mk 5000 (-7000))]
               (initial (Vector2.mk 800 600) 2 true) in
  imagePanOffsetD s
  = (Double.Finite (1 * (1000 * (1 # 2)))%Q, Double.Finite (-1 * (1000 * (1 # 2)))%Q)
  ∧ withinD (fst (imagePanOffsetD s)) 500
  ∧ withinD (snd (imagePanOffsetD s)) 500.
Proof.
  intros s.
  destruct (pan_offset_clamped s) as (_ & _ & H).
  - reflexivity.
  - vm_compute. discriminate.
  - vm_compute. discriminate.
  - split; [vm_compute; reflexivity|]. apply H; [reflexivity|].
    vm_compute. discriminate.
Defined.

(** C7, the claim as stated fails: on a canvas of height 0 (the fit mode
    being [FitHeight], the constructor's value) the fit scale is 0, its
    inverse is infinite, and both components of the clamped offset of an
    image of 1000 by 1000 are NaN, which is not at most 500. *)
Lemma pan_offset_nan_on_flat_canvas :
  let s := run [SetImageSize (Vector2.mk 1000 1000); SetZoomScale 2]
               (initial (Vector2.mk 800 0) 1 true) in
  Qlt_bool 1 (zoomScale s) = true
  ∧ imageToCanvasScaleD s = Double.Finite (0 / 1000)
  ∧ Double.div (Double.Finite 1) (imageToCanvasScaleD s) = Double.PosInf
  ∧ imagePanOffsetD s = (Double.NaN, Double.NaN)
  ∧ Double.leb (Double.abs (fst (imagePanOffsetD s))) (Double.Finite 500) = false
  ∧ Double.leb (Double.abs (snd (imagePanOffsetD s))) (Double.Finite 500) = false.
Proof. vm_compute. repeat split; reflexivity. Qed.

Lemma zoomScale_updateOffscreen s : zoomScale (updateOffscreen s) = zoomScale s.
Proof. by destruct (updateOffscreen_rest s) as (_ & H & _). Qed.

Lemma zoomScale_renderLayersToFramebuffer s :
  zoomScale (renderLayersToFramebuffer s) = zoomScale s.
Proof.
  rewrite <-(zoomScale_updateOffscreen s).
  unfold renderLayersToFramebuffer. set (s0 := updateOffscreen s).
  destruct (offlineLayerVersion s0 >=? layerVersion s0); [done|].
  cbn [offscreenWriteFramebuffer offscreenReadFramebuffer set_offlineLayerVersion].
  destruct (offscreenWriteFramebuffer s0) as [w|]; [|done].
  destruct (offscreenReadFramebuffer s0) as [r|]; [|done].
  match goal with
  | |- context [foldl (compositeLayer ?r ?w ?m ?v) ?a ?l] =>
      pose proof (sceneState_foldl_compositeLayer r w m v l a) as Hs;
      set (s2 := foldl (compositeLayer r w m v) a l) in *
  end.
  assert (Hz : zoomScale s2 = zoomScale s0).
  { unfold sceneState in Hs. injection Hs. intros. assumption. }
  by destruct (offscreenWriteColorAttachment s2).
Qed.

(** *** The pan position is only read by the presenter *)

Lemma replaceWriteTarget_pan pan s :
  replaceWriteTarget (moved pan s) = moved pan (replaceWriteTarget s).
Proof.
  unfold replaceWriteTarget, moved. cbn.
  destruct (offscreenWriteFramebuffer s); cbn;
    destruct (offscreenWriteColorAttachment s); reflexivity.
Qed.

Lemma replaceReadTarget_pan pan s :
  replaceReadTarget (moved pan s) = moved pan (replaceReadTarget s).
Proof.
  unfold replaceReadTarget, moved. cbn.
  destruct (offscreenReadFramebuffer s); cbn;
    destruct (offscreenReadColorAttachment s); reflexivity.
Qed.

Lemma updateOffscreen_pan pan s :
  updateOffscreen (moved pan s) = moved pan (updateOffscreen s).
Proof.
  unfold updateOffscreen.
  change (offscreenOutdated (moved pan s)) with (offscreenOutdated s).
  destruct (offscreenOutdated s); [|done].
  change (set_offscreenSize (roundedImageSize (moved pan s)) (moved pan s))
    with (moved pan (set_offscreenSize (roundedImageSize s) s)).
  by rewrite replaceWriteTarget_pan, replaceReadTarget_pan.
Qed.

Lemma compositeLayer_pan pan r w m v s layer :
  compositeLayer r w m v (moved pan s) layer = moved pan (compositeLayer r w m v s layer).
Proof.
  unfold compositeLayer, moved.
  by destruct (Layer.mask layer), (Layer.isTriviallyBlended layer).
Qed.

Lemma foldl_compositeLayer_pan pan r w m v ls s :
  foldl (compositeLayer r w m v) (moved pan s) ls
  = moved pan (foldl (compositeLayer r w m v) s ls).
Proof.
  revert s. induction ls as [|l ls IH]; intros s; [done|].
  cbn [foldl]. by rewrite compositeLayer_pan, IH.
Qed.

Lemma renderLayersToFramebuffer_pan pan s :
  renderLayersToFramebuffer (moved pan s) = moved pan (renderLayersToFramebuffer s).
Proof.
  unfold renderLayersToFramebuffer. rewrite updateOffscreen_pan.
  set (s0 := updateOffscreen s).
  change (offlineLayerVersion (moved pan s0)) with (offlineLayerVersion s0).
  change (layerVersion (moved pan s0)) with (layerVersion s0).
  destruct (offlineLayerVersion s0 >=? layerVersion s0); [done|].
  cbn [offscreenWriteFramebuffer offscreenReadFramebuffer set_offlineLayerVersion moved
       set_panPosition].
  destruct (offscreenWriteFramebuffer s0) as [w|]; [|done].
  destruct (offscreenReadFramebuffer s0) as [r|]; [|done].
  match goal with
  | |- context [foldl ?f ?a (layers ?b)] =>
      change (foldl f a (layers b))
        with (foldl f (moved pan (issue (CmdClear (OffscreenFramebuffer r) transparentBlack 0)
                   (issue (CmdClear (OffscreenFramebuffer w) transparentBlack 0)
                      (set_offlineLayerVersion (layerVersion s0) s0)))) (layers s0))
  end.
  rewrite foldl_compositeLayer_pan.
  set (s2 := foldl _ _ _).
  change (offscreenWriteColorAttachment (moved pan s2))
    with (offscreenWriteColorAttachment s2).
  by destruct (offscreenWriteColorAttachment s2).
Qed.

Lemma discardTexImage2D_pan pan url s :
  snd (discardTexImage2D url (moved pan s)) = moved pan (snd (discardTexImage2D url s)).
Proof.
  unfold discardTexImage2D.
  change (desiredImages (moved pan s)) with (desiredImages s).
  destruct (bool_decide (url ∈ desiredImages s)); [|done].
  cbn. destruct (layerImageCache s !! url) as [li|]; [|done].
  unfold LayerImage_dispose. destruct (LayerImage.disposed li); [done|].
  unfold releaseImage. destruct (LayerImage.image li) as [[h|h]|]; try done.
  cbn. by destruct (imageBitmapSupported s).
Qed.

Lemma discardIfUnused_pan pan s url :
  discardIfUnused (moved pan s) url = moved pan (discardIfUnused s url).
Proof.
  unfold discardIfUnused.
  change (layerImageCache (moved pan s)) with (layerImageCache s).
  change (renderId (moved pan s)) with (renderId s).
  destruct (layerImageCache s !! url) as [li|]; [|done].
  destruct (LayerImage.renderId li <? renderId s); [|done].
  apply discardTexImage2D_pan.
Qed.

Lemma discardUnused_pan pan s : discardUnused (moved pan s) = moved pan (discardUnused s).
Proof.
  unfold discardUnused.
  change (layerImageCache (moved pan s)) with (layerImageCache s).
  generalize (map fst (map_to_list (layerImageCache s))). intros urls.
  revert s. induction urls as [|u urls IH]; intros s; [done|].
  cbn [foldl]. by rewrite discardIfUnused_pan, IH.
Qed.

(** Without zoom the centre does not read the pan position. *)
Lemma canvasImageCenter_pan pan s :
  Qlt_bool 1 (zoomScale s) = false →
  canvasImageCenter (moved pan s) = canvasImageCenter s.
Proof.
  intros Hz. unfold canvasImageCenter.
  change (zoomScale (moved pan s)) with (zoomScale s). by rewrite Hz.
Qed.

Lemma presentUniforms_pan pan s att :
  Qlt_bool 1 (zoomScale s) = false →
  presentUniforms (moved pan s) att = presentUniforms s att.
Proof.
  intros Hz. unfold presentUniforms. by rewrite canvasImageCenter_pan.
Qed.

Lemma issue_pan pan c s : issue c (moved pan s) = moved pan (issue c s).
Proof. reflexivity. Qed.

Lemma autoDiscard_pan pan s : autoDiscard (moved pan s) = autoDiscard s.
Proof. reflexivity. Qed.

Lemma presentDraw_pan pan s att :
  Qlt_bool 1 (zoomScale s) = false → presentDraw (moved pan s) att = presentDraw s att.
Proof. intros Hz. unfold presentDraw. by rewrite presentUniforms_pan. Qed.

Lemma render_pan pan s :
  Qlt_bool 1 (zoomScale s) = false → render (moved pan s) = moved pan (render s).
Proof.
  intros Hz. unfold render.
  change (set_renderId (renderId (moved pan s) + 1) (moved pan s))
    with (moved pan (set_renderId (renderId s + 1) s)).
  rewrite renderLayersToFramebuffer_pan.
  set (s1 := renderLayersToFramebuffer _).
  change (offscreenWriteColorAttachment (moved pan s1))
    with (offscreenWriteColorAttachment s1).
  destruct (offscreenWriteColorAttachment s1) as [att|]; [|done].
  cbn zeta.
  assert (Hz1 : Qlt_bool 1 (zoomScale s1) = false).
  { unfold s1. by rewrite zoomScale_renderLayersToFramebuffer. }
  set (clr := CmdClear CanvasFramebuffer transparentBlack 0).
  rewrite (issue_pan pan clr s1).
  rewrite (presentDraw_pan pan (issue clr s1) att Hz1).
  rewrite (issue_pan pan (presentDraw (issue clr s1) att) (issue clr s1)).
  set (s2 := issue (presentDraw (issue clr s1) att) (issue clr s1)).
  rewrite (autoDiscard_pan pan s2).
  destruct (autoDiscard s2); [|done]. apply discardUnused_pan.
Qed.

Lemma no_zoom_at_one z : (z == 1)%Q → Qlt_bool 1 z = false.
Proof.
  intros Hz. unfold Qlt_bool. apply negb_false_iff, Qle_bool_iff.
  rewrite Hz. apply Qle_refl.
Qed.

(** C8. With [zoomScale] equal to 1, a state and the same state with any
    other pan position give the same viewport centre and the same
    presentation draw, and [render] does the same on both: it issues the
    same commands and leaves states that again differ in the pan position
    only. *)
Theorem zoom_identity_ignores_pan s pan :
  (zoomScale s == 1)%Q →
  canvasImageCenter (set_panPosition pan s) = canvasImageCenter s
  ∧ (∀ att, presentDraw (set_panPosition pan s) att = presentDraw s att)
  ∧ render (set_panPosition pan s) = set_panPosition pan (render s)
  ∧ issued (render (set_panPosition pan s)) = issued (render s).
Proof.
  intros Hz%no_zoom_at_one. split; [|split; [|split]].
  - by apply canvasImageCenter_pan.
  - intros att. unfold presentDraw. f_equal. by apply presentUniforms_pan.
  - by apply render_pan.
  - by rewrite render_pan.
Qed.

Lemma zoom_identity_ignores_pan_witness :
  let s := run [SetImageSize (Vector2.mk 1000 500); SetPanPosition (Vector2.mk (1 # 10) (9 # 10))]
               (initial (Vector2.mk 800 600) 2 true) in
  let pan := Vector2.mk (7 # 10) (2 # 10) in
  canvasImageCenter (set_panPosition pan s) = canvasImageCenter s
  ∧ issued (render (set_panPosition pan s)) = issued (render s).
Proof.
  intros s pan.
  destruct (zoom_identity_ignores_pan s pan) as (H1 & _ & _ & H4).
  - reflexivity.
  - split; assumption.
Defined.

(** ** The mask outside its domain *)




(** ** Auto-discard after a recomposition *)

Lemma mark_mark rid a b entry : mark rid a (mark rid b entry) = mark rid (a || b) entry.
Proof. by destruct a, b, entry. Qed.

Lemma markUsed_lookup k s url :
  layerImageCache (markUsed k s) !! url
  = mark (renderId s) (bool_decide (url = k)) (layerImageCache s !! url).
Proof.
  unfold markUsed, mark. cbn. rewrite lookup_alter.
  destruct (decide (k = url)) as [->|Hne].
  - by rewrite bool_decide_eq_true_2.
  - by rewrite bool_decide_eq_false_2 by congruence.
Qed.

Lemma compositeLayer_cache r w m v s layer url :
  layerImageCache (compositeLayer r w m v s layer) !! url
  = mark (renderId s) (bool_decide (url ∈ layerUrls layer)) (layerImageCache s !! url)
  ∧ renderId (compositeLayer r w m v s layer) = renderId s.
Proof.
  assert (Hc : layerImageCache (compositeLayer r w m v s layer)
               = layerImageCache
                   (match Layer.mask layer with
                    | Some lm => markUsed (LayerMask.url lm) (markUsed (Layer.url layer) s)
                    | None => markUsed (Layer.url layer) s
                    end)).
  { unfold compositeLayer.
    by destruct (Layer.mask layer), (Layer.isTriviallyBlended layer). }
  assert (Hr : renderId (compositeLayer r w m v s layer) = renderId s).
  { unfold compositeLayer.
    by destruct (Layer.mask layer), (Layer.isTriviallyBlended layer). }
  split; [|done]. rewrite Hc. unfold layerUrls.
  destruct (Layer.mask layer) as [lm|].
  - rewrite !markUsed_lookup, mark_mark. cbn [renderId markUsed set_layerImageCache].
    f_equal. apply eq_true_iff_eq.
    rewrite orb_true_iff, !bool_decide_eq_true. set_solver.
  - rewrite markUsed_lookup. f_equal. apply bool_decide_ext. set_solver.
Qed.

Lemma foldl_compositeLayer_cache r w m v ls s url :
  layerImageCache (foldl (compositeLayer r w m v) s ls) !! url
  = mark (renderId s) (bool_decide (url ∈ referencedUrls ls)) (layerImageCache s !! url)
  ∧ renderId (foldl (compositeLayer r w m v) s ls) = renderId s.
Proof.
  revert s. induction ls as [|l ls IH]; intros s.
  - cbn. split; [|done]. rewrite bool_decide_eq_false_2; [done | set_solver].
  - cbn [foldl]. destruct (compositeLayer_cache r w m v s l url) as [Hc Hr].
    destruct (IH (compositeLayer r w m v s l)) as [IHc IHr].
    rewrite IHc, IHr, Hc, Hr, mark_mark. split; [|done]. f_equal.
    unfold referencedUrls. cbn [flat_map].
    apply eq_true_iff_eq. rewrite orb_true_iff, !bool_decide_eq_true. set_solver.
Qed.

Lemma layerImageCache_updateOffscreen s :
  layerImageCache (updateOffscreen s) = layerImageCache s.
Proof. by destruct (updateOffscreen_rest s) as (_ & _ & H). Qed.

(** What [renderLayersToFramebuffer] does to the Resident Cache. *)
Lemma renderLayersToFramebuffer_cache s url :
  renderId (renderLayersToFramebuffer s) = renderId s
  ∧ layerImageCache (renderLayersToFramebuffer s) !! url
    = mark (renderId s)
           (bool_decide (offlineLayerVersion s < layerVersion s)
            && bool_decide (url ∈ referencedUrls (layers s)))
           (layerImageCache s !! url).
Proof.
  pose proof (stackState_updateOffscreen s) as Hs.
  apply stackState_eq in Hs as (_ & Hr & Hl & Hv & Ho).
  pose proof (layerImageCache_updateOffscreen s) as Hc.
  destruct (updateOffscreen_has_targets s) as (w & r & Hw & Hrd).
  unfold renderLayersToFramebuffer. set (s0 := updateOffscreen s) in *.
  rewrite <-Hv, <-Ho, <-Hr, <-Hl, <-Hc.
  destruct (offlineLayerVersion s0 >=? layerVersion s0) eqn:Hge.
  - rewrite bool_decide_eq_false_2 by lia. done.
  - rewrite bool_decide_eq_true_2 by lia.
    cbn [offscreenWriteFramebuffer offscreenReadFramebuffer set_offlineLayerVersion].
    rewrite Hw, Hrd.
    match goal with
    | |- context [foldl (compositeLayer ?r ?w ?m ?v) ?a ?l] =>
        destruct (foldl_compositeLayer_cache r w m v l a url) as [Hfc Hfr];
        set (s2 := foldl (compositeLayer r w m v) a l) in *
    end.
    cbn in Hfc, Hfr.
    destruct (offscreenWriteColorAttachment s2); cbn; by rewrite Hfc, Hfr.
Qed.

Lemma layerImageCache_LayerImage_dispose li s :
  layerImageCache (LayerImage_dispose li s) = layerImageCache s.
Proof.
  unfold LayerImage_dispose. destruct (LayerImage.disposed li); [done|].
  unfold releaseImage. destruct (LayerImage.image li) as [[h|h]|]; try done.
  cbn. by destruct (imageBitmapSupported s).
Qed.

Lemma layerImageCache_discardTexImage2D url s :
  layerImageCache (snd (discardTexImage2D url s))
  = if bool_decide (url ∈ desiredImages s) then delete url (layerImageCache s)
    else layerImageCache s.
Proof.
  unfold discardTexImage2D. destruct (bool_decide (url ∈ desiredImages s)); [|done].
  cbn. destruct (layerImageCache s !! url) as [li|]; [|done].
  by rewrite layerImageCache_LayerImage_dispose.
Qed.

(** One turn of the auto-discard loop, for a cache whose identifiers are
    all desired. *)
Lemma discardIfUnused_cache s u :
  dom (layerImageCache s) ⊆ desiredImages s →
  layerImageCache (discardIfUnused s u)
  = match layerImageCache s !! u with
    | Some li => if LayerImage.renderId li <? renderId s
                 then delete u (layerImageCache s) else layerImageCache s
    | None => layerImageCache s
    end
  ∧ renderId (discardIfUnused s u) = renderId s
  ∧ dom (layerImageCache (discardIfUnused s u)) ⊆ desiredImages (discardIfUnused s u).
Proof.
  intros Hsub. unfold discardIfUnused.
  destruct (layerImageCache s !! u) as [li|] eqn:Hu; [|done].
  destruct (LayerImage.renderId li <? renderId s); [|done].
  assert (Hin : u ∈ desiredImages s) by (apply Hsub, elem_of_dom; eauto).
  rewrite layerImageCache_discardTexImage2D, bool_decide_eq_true_2 by done.
  split; [done|]. split.
  - pose proof (sceneState_discardTexImage2D u s) as Hs.
    by apply sceneState_eq in Hs as (_ & -> & _).
  - destruct (loaderState_discardTexImage2D u s Hin) as (_ & _ & -> & _).
    rewrite dom_delete_L. set_solver.
Qed.

Lemma discardUnused_from_cache urls s url :
  dom (layerImageCache s) ⊆ desiredImages s →
  layerImageCache (foldl discardIfUnused s urls) !! url
  = match layerImageCache s !! url with
    | Some li => if (LayerImage.renderId li <? renderId s) && bool_decide (url ∈ urls)
                 then None else Some li
    | None => None
    end.
Proof.
  revert s. induction urls as [|u urls IH]; intros s Hsub.
  - cbn. destruct (layerImageCache s !! url) as [li|]; [|done].
    rewrite bool_decide_eq_false_2 by set_solver. by rewrite andb_false_r.
  - cbn [foldl]. destruct (discardIfUnused_cache s u Hsub) as (Hc & Hr & Hsub').
    rewrite (IH _ Hsub'), Hr, Hc. clear IH Hc Hr Hsub'.
    destruct (decide (url = u)) as [->|Hne].
    + destruct (layerImageCache s !! u) as [li|] eqn:Hu; [|by rewrite Hu].
      destruct (LayerImage.renderId li <? renderId s) eqn:Hold.
      * rewrite lookup_delete_eq. cbn. rewrite bool_decide_eq_true_2; [done | set_solver].
      * by rewrite Hu, Hold.
    + assert (Hmem : bool_decide (url ∈ u :: urls) = bool_decide (url ∈ urls)).
      { apply bool_decide_ext. set_solver. }
      rewrite Hmem.
      destruct (layerImageCache s !! u) as [li|]; [|done].
      destruct (LayerImage.renderId li <? renderId s); [|done].
      by rewrite lookup_delete_ne.
Qed.

Lemma discardUnused_cache s url :
  dom (layerImageCache s) ⊆ desiredImages s →
  layerImageCache (discardUnused s) !! url
  = match layerImageCache s !! url with
    | Some li => if LayerImage.renderId li <? renderId s then None else Some li
    | None => None
    end.
Proof.
  intros Hsub. unfold discardUnused. rewrite (discardUnused_from_cache _ s url Hsub).
  destruct (layerImageCache s !! url) as [li|] eqn:Hu; [|done].
  rewrite bool_decide_eq_true_2; [by rewrite andb_true_r|].
  apply list_elem_of_fmap. exists (url, li). split; [done|].
  by apply elem_of_map_to_list.
Qed.

Lemma Fresh_from s s' :
  Fresh s → renderId s <= renderId s' →
  (∀ url li, layerImageCache s' !! url = Some li →
             layerImageCache s !! url = Some li
             ∨ LayerImage.renderId li <= renderId s') →
  Fresh s'.
Proof.
  intros [F1 F2] Hr Hc. split; [lia|].
  intros url li Hli. destruct (Hc url li Hli) as [Hold|Hnew]; [|done].
  apply F2 in Hold. lia.
Qed.

Lemma Fresh_finishLoad url image hadToFetch s :
  Fresh s → Fresh (snd (finishLoad url image hadToFetch s)).
Proof.
  intros HF. destruct (decide (url ∈ desiredImages s)) as [Hw|Hw].
  - destruct (finishLoad_wanted url image hadToFetch s Hw) as (li & -> & ->).
    apply (Fresh_from s); [done | done |]. cbn. intros u li.
    destruct (decide (url = u)) as [->|Hne].
    + rewrite lookup_insert_eq. intros [= <-]. right. cbn. destruct HF. lia.
    + rewrite lookup_insert_ne by done. auto.
  - rewrite (finishLoad_unwanted url image hadToFetch s Hw). cbn [snd].
    apply (Fresh_from s); [done | |].
    + destruct hadToFetch; [|done]. cbn zeta.
      pose proof (sceneState_releaseImage (Some image)
        (set_texImage2DPromiseCache (delete url (texImage2DPromiseCache s))
           (set_history (EvLoadCompleted url false :: history s) s))) as Hs.
      apply sceneState_eq in Hs as (_ & -> & _). done.
    + intros u li. destruct hadToFetch; [|auto]. cbn zeta.
      unfold releaseImage. destruct image as [h|h]; [|auto].
      destruct (imageBitmapSupported _); auto.
Qed.

Lemma Fresh_same s s' :
  renderId s' = renderId s → layerImageCache s' = layerImageCache s → Fresh s → Fresh s'.
Proof.
  intros Hr Hc HF. apply (Fresh_from s); [done | lia |]. rewrite Hc. auto.
Qed.

Lemma Fresh_loadTexImage2D url image s : Fresh s → Fresh (snd (loadTexImage2D url image s)).
Proof.
  intros HF. unfold loadTexImage2D.
  destruct (texImage2DPromiseCache _ !! url); [by apply (Fresh_same s)|].
  destruct image as [img|]; [|by apply (Fresh_same s)].
  pose proof (Fresh_finishLoad url img false
                (set_desiredImages ({[url]} ∪ desiredImages s) s)) as H.
  destruct (finishLoad url img false _) as [v s1]. cbn in *.
  apply (Fresh_same s1); [done | done |]. apply H. by apply (Fresh_same s).
Qed.

Lemma Fresh_resumeLoad p image s : Fresh s → Fresh (resumeLoad p image s).
Proof.
  intros HF. unfold resumeLoad. destruct (promises s !! p) as [[url|v|e]|]; try done.
  pose proof (Fresh_finishLoad url image true s HF) as H.
  destruct (finishLoad url image true s) as [v s1]. cbn in *.
  by apply (Fresh_same s1).
Qed.

Lemma Fresh_discardTexImage2D url s : Fresh s → Fresh (snd (discardTexImage2D url s)).
Proof.
  intros HF. apply (Fresh_from s); [done | |].
  - pose proof (sceneState_discardTexImage2D url s) as Hs.
    apply sceneState_eq in Hs as (_ & -> & _). done.
  - intros u li. rewrite layerImageCache_discardTexImage2D.
    destruct (bool_decide _); [|auto]. intros [_ H]%lookup_delete_Some. auto.
Qed.

Lemma discardUnused_from_subset urls s url li :
  layerImageCache (foldl discardIfUnused s urls) !! url = Some li →
  layerImageCache s !! url = Some li.
Proof.
  revert s. induction urls as [|u urls IH]; intros s; [done|].
  cbn [foldl]. intros H%IH. revert H. unfold discardIfUnused.
  destruct (layerImageCache s !! u) as [li'|]; [|done].
  destruct (LayerImage.renderId li' <? renderId s); [|done].
  rewrite layerImageCache_discardTexImage2D.
  destruct (bool_decide _); [|done]. by intros [_ H]%lookup_delete_Some.
Qed.

Lemma autoDiscard_renderLayersToFramebuffer s :
  autoDiscard (renderLayersToFramebuffer s) = autoDiscard s.
Proof.
  pose proof (stackState_updateOffscreen s) as Hs.
  apply stackState_eq in Hs as (<- & _).
  unfold renderLayersToFramebuffer. set (s0 := updateOffscreen s).
  destruct (offlineLayerVersion s0 >=? layerVersion s0); [done|].
  cbn [offscreenWriteFramebuffer offscreenReadFramebuffer set_offlineLayerVersion].
  destruct (offscreenWriteFramebuffer s0) as [w|]; [|done].
  destruct (offscreenReadFramebuffer s0) as [r|]; [|done].
  match goal with
  | |- context [foldl (compositeLayer ?r ?w ?m ?v) ?a ?l] =>
      pose proof (sceneState_foldl_compositeLayer r w m v l a) as Hs;
      set (s2 := foldl (compositeLayer r w m v) a l) in *
  end.
  apply sceneState_eq in Hs as (Ha & _).
  by destruct (offscreenWriteColorAttachment s2).
Qed.

Lemma render_presented s :
  render s = if isUndefined (offscreenWriteColorAttachment
                               (renderLayersToFramebuffer (set_renderId (renderId s + 1) s)))
             then presented s
             else if autoDiscard s then discardUnused (presented s) else presented s.
Proof.
  unfold render, presented.
  pose proof (autoDiscard_renderLayersToFramebuffer (set_renderId (renderId s + 1) s)) as Ha.
  destruct (offscreenWriteColorAttachment _) as [att|]; [|done].
  cbn [isUndefined]. cbn zeta.
  match goal with |- (if ?b then _ else _) = _ => change b with
    (autoDiscard (renderLayersToFramebuffer (set_renderId (renderId s + 1) s))) end.
  by rewrite Ha.
Qed.

Lemma presented_cache s url :
  renderId (presented s) = renderId s + 1
  ∧ layerImageCache (presented s) !! url
    = mark (renderId s + 1)
           (bool_decide (offlineLayerVersion s < layerVersion s)
            && bool_decide (url ∈ referencedUrls (layers s)))
           (layerImageCache s !! url)
  ∧ loaderState (presented s) = loaderState s.
Proof.
  destruct (renderLayersToFramebuffer_cache (set_renderId (renderId s + 1) s) url)
    as [Hr Hc].
  pose proof (loaderState_renderLayersToFramebuffer (set_renderId (renderId s + 1) s)) as Hl.
  change (loaderState (set_renderId (renderId s + 1) s)) with (loaderState s) in Hl.
  cbn [renderId layerImageCache offlineLayerVersion layerVersion layers set_renderId]
    in Hr, Hc.
  unfold presented.
  destruct (offscreenWriteColorAttachment _) as [att|]; cbn zeta;
    [change (renderId (issue _ (issue _ ?x))) with (renderId x);
     change (layerImageCache (issue _ (issue _ ?x))) with (layerImageCache x);
     change (loaderState (issue _ (issue _ ?x))) with (loaderState x)|];
    by rewrite Hr, Hc, Hl.
Qed.

Lemma Fresh_render s : Fresh s → Fresh (render s).
Proof.
  intros HF.
  assert (HFp : Fresh (presented s)).
  { apply (Fresh_from s); [done | |].
    - destruct (presented_cache s "") as (-> & _). lia.
    - intros url li. destruct (presented_cache s url) as (-> & -> & _).
      unfold mark. destruct (_ && _); [|auto].
      destruct (layerImageCache s !! url) as [li0|]; [|done].
      intros [= <-]. right. done. }
  rewrite render_presented. destruct (isUndefined _); [done|].
  destruct (autoDiscard s); [|done].
  apply (Fresh_from (presented s)); [done | |].
  - pose proof (sceneState_discardUnused_from
                  (map fst (map_to_list (layerImageCache (presented s)))) (presented s)) as Hs.
    apply sceneState_eq in Hs as (_ & Hr & _). unfold discardUnused. lia.
  - intros url li H. left. by apply discardUnused_from_subset in H.
Qed.

Lemma Fresh_step op s : Fresh s → Fresh (snd (step op s)).
Proof.
  intros HF.
  destruct op as [url image|url| |ls|size|mode|zoom|pan|flag|size dpr|p image
                 |url image|p image|p]; cbn; try (by apply (Fresh_same s)).
  - pose proof (Fresh_loadTexImage2D url image s HF).
    by destruct (loadTexImage2D url image s).
  - pose proof (Fresh_discardTexImage2D url s HF).
    by destruct (discardTexImage2D url s).
  - by apply Fresh_render.
  - by apply Fresh_resumeLoad.
  - destruct (loadTexImage2DGlNull_frame url image s) as (m & ps & d & H).
    destruct (loadTexImage2DGlNull url image s) as [q s']. cbn in *. subst s'.
    by apply (Fresh_same s).
  - destruct (resumeLoadGlNull_frame p image s) as [(m & ps & d & ->)| ->].
    + by apply (Fresh_same s).
    + by apply Fresh_resumeLoad.
  - destruct (rejectLoad_frame p s) as (m & ps & d & ->). by apply (Fresh_same s).
Qed.

Lemma Fresh_run ops s : Fresh s → Fresh (run ops s).
Proof.
  revert s. induction ops as [|op ops IH]; intros s HF; [done|].
  rewrite run_cons. apply IH. by apply Fresh_step.
Qed.

Lemma Fresh_initial size dpr bitmaps : Fresh (initial size dpr bitmaps).
Proof. split; cbn; [lia|]. intros url li. by rewrite lookup_empty. Qed.

Lemma Attached_presents s :
  Attached s →
  isUndefined (offscreenWriteColorAttachment
                 (renderLayersToFramebuffer (set_renderId (renderId s + 1) s))) = false.
Proof.
  intros HA. set (s' := set_renderId (renderId s + 1) s).
  apply (Attached_updateOffscreen s') in HA.
  pose proof (targets_renderLayersToFramebuffer s') as Ht.
  destruct (updateOffscreen_has_targets s') as (w & r & Hw & _).
  destruct HA as [att Hatt]; [by rewrite Hw|].
  unfold targets in Ht. injection Ht as _ _ Ha _ _. by rewrite Ha, Hatt.
Qed.

(** X1. What auto-discard leaves resident, in a reachable state.  After the
    usage marks of the frame, every image older than the frame's render id
    is discarded.  So a render that recomposes the stack keeps exactly the
    resident images that a layer or a mask of the stack refers to, and a
    render that skips the recomposition keeps none. *)
Theorem auto_discard_after_render size dpr bitmaps ops :
  let s := run ops (initial size dpr bitmaps) in
  autoDiscard s = true →
  (∀ url, layerImageCache (render s) !! url
          = match layerImageCache (presented s) !! url with
            | Some li => if LayerImage.renderId li <? renderId (presented s)
                         then None else Some li
            | None => None
            end)
  ∧ renderId (render s) = renderId s + 1
  ∧ (offlineLayerVersion s < layerVersion s →
     ∀ url, layerImageCache (render s) !! url
            = if bool_decide (url ∈ referencedUrls (layers s))
              then LayerImage.set_renderId (renderId s + 1) <$> layerImageCache s !! url
              else None)
  ∧ (layerVersion s <= offlineLayerVersion s → layerImageCache (render s) = ∅).
Proof.
  intros s Hauto.
  assert (HI : CacheInv s) by apply CacheInv_run, CacheInv_initial.
  assert (HA : Attached s) by apply Attached_run, Attached_initial.
  assert (HF : Fresh s) by apply Fresh_run, Fresh_initial.
  assert (Hsub : dom (layerImageCache (presented s)) ⊆ desiredImages (presented s)).
  { destruct (presented_cache s "") as (_ & _ & Hl).
    apply loaderState_eq in Hl as (-> & _ & -> & _).
    intros url. apply (inv_desired s HI). }
  assert (Hrender : render s = discardUnused (presented s)).
  { rewrite render_presented, (Attached_presents s HA). by rewrite Hauto. }
  assert (Hrule : ∀ url, layerImageCache (render s) !! url
          = match layerImageCache (presented s) !! url with
            | Some li => if LayerImage.renderId li <? renderId (presented s)
                         then None else Some li
            | None => None
            end).
  { intros url. rewrite Hrender. by apply discardUnused_cache. }
  split; [exact Hrule|]. split; [|split].
  - rewrite Hrender.
    pose proof (sceneState_discardUnused_from
                  (map fst (map_to_list (layerImageCache (presented s)))) (presented s)) as Hs.
    apply sceneState_eq in Hs as (_ & Hr & _). unfold discardUnused. rewrite Hr.
    by destruct (presented_cache s "") as (-> & _).
  - intros Hlt url. rewrite Hrule.
    destruct (presented_cache s url) as (-> & -> & _).
    rewrite bool_decide_eq_true_2 by done. cbn [andb]. unfold mark.
    destruct (bool_decide (url ∈ referencedUrls (layers s))).
    + destruct (layerImageCache s !! url) as [li|]; [|done]. cbn.
      by rewrite (proj2 (Z.ltb_ge _ _)) by lia.
    + destruct (layerImageCache s !! url) as [li|] eqn:Hli; [|done].
      apply (fresh_images s HF) in Hli.
      by rewrite (proj2 (Z.ltb_lt _ _)) by lia.
  - intros Hle. apply map_eq. intros url. rewrite lookup_empty, Hrule.
    destruct (presented_cache s url) as (-> & -> & _).
    rewrite bool_decide_eq_false_2 by lia. cbn [andb mark].
    destruct (layerImageCache s !! url) as [li|] eqn:Hli; [|done].
    apply (fresh_images s HF) in Hli.
    by rewrite (proj2 (Z.ltb_lt _ _)) by lia.
Qed.

Lemma auto_discard_after_render_witness :
  let layer := Layer.mk "a" (Some (LayerMask.mk "m" 1 5 None (Matrix3Given 2))) true
                        (Matrix4Given 1) 0 (Matrix3Given 1) 0 1 (BlendStateGiven 0) in
  let s := run [SetAutoDiscard true; CallLoadTexImage2D "a" (Some (ImageBitmap 1));
                CallLoadTexImage2D "m" (Some (ImageBitmap 2));
                CallLoadTexImage2D "z" (Some (ImageBitmap 3)); SetLayers [layer];
                CallRender]
               (initial (Vector2.mk 800 600) 1 true) in
  dom (layerImageCache s) = {["a"; "m"]}
  ∧ layerImageCache (render s) = ∅.
Proof.
  intros layer s.
  pose proof (auto_discard_after_render (Vector2.mk 800 600) 1 true
                [SetAutoDiscard true; CallLoadTexImage2D "a" (Some (ImageBitmap 1));
                 CallLoadTexImage2D "m" (Some (ImageBitmap 2));
                 CallLoadTexImage2D "z" (Some (ImageBitmap 3)); SetLayers [layer];
                 CallRender]) as H.
  cbv zeta in H. fold s in H.
  destruct H as (_ & _ & _ & Hskip).
  - vm_compute. reflexivity.
  - split; [vm_compute; reflexivity|].
    apply Hskip. vm_compute. discriminate.
Defined.

(** ** The offscreen buffer manager on its own *)


Lemma replaceWriteTarget_fresh s :
  let n := RenderingContext.nextResourceId (context s) in
  offscreenWriteFramebuffer (replaceWriteTarget s) = Some n
  ∧ offscreenWriteColorAttachment (replaceWriteTarget s) = Some (S n)
  ∧ RenderingContext.nextResourceId (context (replaceWriteTarget s)) = S (S n)
  ∧ offscreenReadFramebuffer (replaceWriteTarget s) = offscreenReadFramebuffer s
  ∧ offscreenReadColorAttachment (replaceWriteTarget s) = offscreenReadColorAttachment s
  ∧ offscreenSize (replaceWriteTarget s) = offscreenSize s
  ∧ imageSize (replaceWriteTarget s) = imageSize s.
Proof.
  unfold replaceWriteTarget, Framebuffer_dispose, TexImage2D_dispose.
  destruct (offscreenWriteFramebuffer s); cbn;
    destruct (offscreenWriteColorAttachment s); cbn;
    repeat case_bool_decide; cbn; repeat split; reflexivity.
Qed.

Lemma replaceReadTarget_fresh s :
  let n := RenderingContext.nextResourceId (context s) in
  offscreenReadFramebuffer (replaceReadTarget s) = Some n
  ∧ offscreenReadColorAttachment (replaceReadTarget s) = Some (S n)
  ∧ RenderingContext.nextResourceId (context (replaceReadTarget s)) = S (S n)
  ∧ offscreenWriteFramebuffer (replaceReadTarget s) = offscreenWriteFramebuffer s
  ∧ offscreenWriteColorAttachment (replaceReadTarget s) = offscreenWriteColorAttachment s
  ∧ offscreenSize (replaceReadTarget s) = offscreenSize s
  ∧ imageSize (replaceReadTarget s) = imageSize s.
Proof.
  unfold replaceReadTarget, Framebuffer_dispose, TexImage2D_dispose.
  destruct (offscreenReadFramebuffer s); cbn;
    destruct (offscreenReadColorAttachment s); cbn;
    repeat case_bool_decide; cbn; repeat split; reflexivity.
Qed.



(** ** When a render recomposes *)










(** ** Rendering without auto-discard, and the life of one request *)

Lemma closedBitmaps_replaceWriteTarget s :
  closedBitmaps (replaceWriteTarget s) = closedBitmaps s.
Proof.
  unfold replaceWriteTarget.
  destruct (offscreenWriteFramebuffer s); cbn;
    destruct (offscreenWriteColorAttachment s); reflexivity.
Qed.

Lemma closedBitmaps_replaceReadTarget s :
  closedBitmaps (replaceReadTarget s) = closedBitmaps s.
Proof.
  unfold replaceReadTarget.
  destruct (offscreenReadFramebuffer s); cbn;
    destruct (offscreenReadColorAttachment s); reflexivity.
Qed.

Lemma closedBitmaps_updateOffscreen s : closedBitmaps (updateOffscreen s) = closedBitmaps s.
Proof.
  unfold updateOffscreen. destruct (offscreenOutdated s); [|done].
  by rewrite closedBitmaps_replaceReadTarget, closedBitmaps_replaceWriteTarget.
Qed.

Lemma closedBitmaps_foldl_compositeLayer r w m v ls s :
  closedBitmaps (foldl (compositeLayer r w m v) s ls) = closedBitmaps s.
Proof.
  revert s. induction ls as [|l ls IH]; intros s; [done|].
  cbn [foldl]. rewrite IH. unfold compositeLayer.
  by destruct (Layer.mask l), (Layer.isTriviallyBlended l).
Qed.

Lemma closedBitmaps_renderLayersToFramebuffer s :
  closedBitmaps (renderLayersToFramebuffer s) = closedBitmaps s.
Proof.
  rewrite <-(closedBitmaps_updateOffscreen s).
  unfold renderLayersToFramebuffer. set (s0 := updateOffscreen s).
  destruct (offlineLayerVersion s0 >=? layerVersion s0); [done|].
  cbn [offscreenWriteFramebuffer offscreenReadFramebuffer set_offlineLayerVersion].
  destruct (offscreenWriteFramebuffer s0) as [w|]; [|done].
  destruct (offscreenReadFramebuffer s0) as [r|]; [|done].
  match goal with
  | |- context [foldl (compositeLayer ?r ?w ?m ?v) ?a ?l] =>
      pose proof (closedBitmaps_foldl_compositeLayer r w m v l a) as Hc;
      set (s2 := foldl (compositeLayer r w m v) a l) in *
  end.
  by destruct (offscreenWriteColorAttachment s2).
Qed.

Lemma closedBitmaps_presented s : closedBitmaps (presented s) = closedBitmaps s.
Proof.
  unfold presented.
  pose proof (closedBitmaps_renderLayersToFramebuffer (set_renderId (renderId s + 1) s)) as H.
  by destruct (offscreenWriteColorAttachment _).
Qed.

(** X4. With [autoDiscard] off, [render] discards nothing: the Desired
    Set, the Pending-Load Map, the promises, the fetches started and the
    bitmaps closed are as before, and a resident image changes only by
    receiving the new render id, which happens exactly to the images that a
    layer or mask of the stack refers to in a render that recomposes. *)
Theorem render_without_auto_discard_keeps_images s :
  autoDiscard s = false →
  renderId (render s) = renderId s + 1
  ∧ desiredImages (render s) = desiredImages s
  ∧ texImage2DPromiseCache (render s) = texImage2DPromiseCache s
  ∧ promises (render s) = promises s
  ∧ fetchLog (render s) = fetchLog s
  ∧ closedBitmaps (render s) = closedBitmaps s
  ∧ dom (layerImageCache (render s)) = dom (layerImageCache s)
  ∧ ∀ url, layerImageCache (render s) !! url
           = mark (renderId s + 1)
                  (bool_decide (offlineLayerVersion s < layerVersion s)
                   && bool_decide (url ∈ referencedUrls (layers s)))
                  (layerImageCache s !! url).
Proof.
  intros Hauto.
  assert (Hr : render s = presented s).
  { rewrite render_presented, Hauto. by destruct (isUndefined _). }
  rewrite Hr. destruct (presented_cache s "") as (Hid & _ & Hl).
  apply loaderState_eq in Hl as (Hd & Hp & Hw & Hq & _ & Hf).
  repeat split; try done.
  - apply closedBitmaps_presented.
  - intros url. by destruct (presented_cache s url) as (_ & Hc & _).
Qed.

Lemma render_without_auto_discard_keeps_images_witness :
  let layer := Layer.mk "a" None true (Matrix4Given 1) 0 (Matrix3Given 1) 0 1
                        (BlendStateGiven 0) in
  let s := run [CallLoadTexImage2D "a" (Some (ImageBitmap 1));
                CallLoadTexImage2D "b" (Some (ImageBitmap 2)); SetLayers [layer];
                CallRender; CallRender]
               (initial (Vector2.mk 800 600) 1 true) in
  dom (layerImageCache (render s)) = dom (layerImageCache s)
  ∧ closedBitmaps (render s) = closedBitmaps s.
Proof.
  intros layer s.
  destruct (render_without_auto_discard_keeps_images s) as (_ & _ & _ & _ & _ & H6 & H7 & _).
  - reflexivity.
  - split; assumption.
Defined.



Lemma set_desiredImages_same s : set_desiredImages (desiredImages s) s = s.
Proof. by destruct s. Qed.

(** X6. In a reachable state, a request for a url that has an entry in the
    Pending-Load Map, pending or settled, returns that entry's promise and
    leaves the whole state as it is: nothing is fetched or uploaded, and an
    image passed along is neither used nor released. *)
Theorem request_with_entry_changes_nothing size dpr bitmaps ops url image p :
  let s := run ops (initial size dpr bitmaps) in
  texImage2DPromiseCache s !! url = Some p →
  loadTexImage2D url image s = (p, s).
Proof.
  intros s Hp.
  assert (HI : CacheInv s) by apply CacheInv_run, CacheInv_initial.
  destruct (inv_pending s HI url p Hp) as [Hin _].
  unfold loadTexImage2D. cbn [texImage2DPromiseCache set_desiredImages]. rewrite Hp.
  f_equal. replace ({[url]} ∪ desiredImages s) with (desiredImages s) by set_solver.
  apply set_desiredImages_same.
Qed.

Lemma request_with_entry_changes_nothing_witness :
  let s := run [CallLoadTexImage2D "a" None; FetchDelivers 0 (ImageBitmap 7)]
               (initial (Vector2.mk 800 600) 1 true) in
  loadTexImage2D "a" (Some (HTMLImageElement 9)) s = (0%nat, s).
Proof.
  intros s.
  apply (request_with_entry_changes_nothing (Vector2.mk 800 600) 1 true
           [CallLoadTexImage2D "a" None; FetchDelivers 0 (ImageBitmap 7)]).
  vm_compute. reflexivity.
Defined.

(** ** The viewport: fitting and centring *)









(** ** The fragment function in the copy, present and blend draws *)

(** X9. With [maskMode] and [blendMode] both 0, the values the compositor
    sets for the copy draw and for the presentation draw, the fragment
    function makes one texture fetch, from [layerMap] at [v_layer_uv], and
    its result is the same for any textures, [getMaskValue] and
    [compositeColors] that leave that one texel as it is; when moreover
    [convertToPremultipliedAlpha] is not 1 and [opacity] is 1, the colour
    is that texel, channel by channel. *)
Theorem copy_draw_passes_layer_texel texture2D texture2D' gm gm' cc cc' un vy :
  Shader.maskMode un = 0 →
  Shader.blendMode un = 0 →
  texture2D Shader.layerMap (Shader.v_layer_uv vy) (Shader.mipmapBias un)
  = texture2D' Shader.layerMap (Shader.v_layer_uv vy) (Shader.mipmapBias un) →
  Shader.main texture2D gm cc un vy = Shader.main texture2D' gm' cc' un vy
  ∧ snd (Shader.main texture2D gm cc un vy) = [(Shader.layerMap, Shader.v_layer_uv vy)]
  ∧ (Shader.convertToPremultipliedAlpha un =? 1 = false ∧ (Shader.opacity un == 1)%Q →
     vec4_equiv (fst (Shader.main texture2D gm cc un vy))
                (texture2D Shader.layerMap (Shader.v_layer_uv vy) (Shader.mipmapBias un))).
Proof.
  intros Hmask Hblend Htexel.
  unfold Shader.main, Shader.applyBlend. rewrite Hmask, Hblend, Htexel. cbn [Z.eqb fst snd app].
  split; [done|]. split; [done|].
  intros [Hconv Hop]. rewrite Hconv. unfold vec4_equiv, Shader.scale. cbn.
  rewrite Hop, !Qmult_1_r. done.
Qed.

Lemma copy_draw_passes_layer_texel_witness :
  let texture2D := λ (sampler : Shader.Sampler) (uv : Shader.vec2) (bias : Q),
        match sampler with
        | Shader.layerMap => Shader.mkVec4 (1 # 2) (1 # 4) 0 1
        | _ => Shader.mkVec4 1 1 1 1
        end in
  let texture2D' := λ (sampler : Shader.Sampler) (uv : Shader.vec2) (bias : Q),
        match sampler with
        | Shader.layerMap => Shader.mkVec4 (1 # 2) (1 # 4) 0 1
        | _ => Shader.zero4
        end in
  let gm := λ (un : Shader.Uniforms) (c : Shader.vec4), Shader.a c in
  let gm' := λ (un : Shader.Uniforms) (c : Shader.vec4), 0%Q in
  let cc := λ (un : Shader.Uniforms) (c d : Shader.vec4), c in
  let cc' := λ (un : Shader.Uniforms) (c d : Shader.vec4), d in
  let un := Shader.mkUniforms 0 0 0 0 1 1 in
  let vy := Shader.mkVaryings (Shader.mkVec2 0 0) (Shader.mkVec2 (1 # 2) (1 # 2))
                              (Shader.mkVec2 (3 # 2) (1 # 2)) in
  Shader.main texture2D gm cc un vy = Shader.main texture2D' gm' cc' un vy
  ∧ snd (Shader.main texture2D gm cc un vy) = [(Shader.layerMap, Shader.v_layer_uv vy)].
Proof.
  intros texture2D texture2D' gm gm' cc cc' un vy.
  destruct (copy_draw_passes_layer_texel texture2D texture2D' gm gm' cc cc' un vy)
    as (H1 & H2 & _); [reflexivity | reflexivity | reflexivity |].
  split; assumption.
Defined.

(** ** Reading a framebuffer back *)

(** X11. [Framebuffer.readPixels] leaves [context.framebuffer] as it found
    it on every path, the three that throw inside the [try] block included.
    It returns the buffer it was given exactly when the first attachment at
    [Color0] exists and is RGBA, the status is complete and the buffer
    holds at least [pixelByteLength] bytes; then the calls added are the
    status check and one [gl.readPixels] of the attachment's full size.
    When it throws no [gl.readPixels] is issued: the log is unchanged if
    the attachment is missing or not RGBA, and grows by the status check
    alone otherwise. *)
Theorem readPixels_restores_framebuffer
    Color0 RGBA COMPLETE sizeOfDataType numPixelFormatComponents this pixelBuffer status ctx :
  let run := Framebuffer.readPixels Color0 RGBA COMPLETE sizeOfDataType
               numPixelFormatComponents this pixelBuffer status ctx in
  let color0 := find (λ a, Framebuffer.attachmentPoint a =? Color0)
                     (Framebuffer.attachments this) in
  let readable tex :=
    Framebuffer.pixelFormat tex = RGBA ∧ status = COMPLETE
    ∧ (Framebuffer.pixelByteLength sizeOfDataType numPixelFormatComponents tex
       <= Framebuffer.byteLength pixelBuffer)%Q in
  Framebuffer.framebuffer (snd run) = Framebuffer.framebuffer ctx
  ∧ (∀ buffer, fst run = Returned buffer →
       buffer = pixelBuffer
       ∧ ∃ a, color0 = Some a ∧ readable (Framebuffer.texImage2D a)
         ∧ Framebuffer.gl (snd run)
           = Framebuffer.gl ctx
             ++ [Framebuffer.gl_checkFramebufferStatus;
                 Framebuffer.gl_readPixels
                   (Vector2.width (Framebuffer.size (Framebuffer.texImage2D a)))
                   (Vector2.height (Framebuffer.size (Framebuffer.texImage2D a)))
                   (Framebuffer.pixelFormat (Framebuffer.texImage2D a))
                   (Framebuffer.dataType (Framebuffer.texImage2D a)) pixelBuffer])
  ∧ (∀ a, color0 = Some a → readable (Framebuffer.texImage2D a) →
       fst run = Returned pixelBuffer)
  ∧ (∀ e, fst run = Threw e →
       Framebuffer.gl (snd run) = Framebuffer.gl ctx
       ∨ Framebuffer.gl (snd run) = Framebuffer.gl ctx ++ [Framebuffer.gl_checkFramebufferStatus]).
Proof.
  intros run color0 readable. unfold run, Framebuffer.readPixels. fold color0.
  destruct color0 as [a|].
  2: { cbn. split; [done|]. split; [intros ? [=]|]. split; [intros ? [=] | by left]. }
  cbn zeta. unfold readable.
  destruct (Z.eqb_spec (Framebuffer.pixelFormat (Framebuffer.texImage2D a)) RGBA) as [Hf|Hf];
    cbn [negb].
  2: { cbn. split; [done|]. split; [intros ? [=]|].
       split; [intros ? [= <-] (? & _); done | by left]. }
  unfold Framebuffer.readPixels_try. cbn zeta.
  destruct (Z.eqb_spec status COMPLETE) as [Hs|Hs]; cbn [negb].
  2: { cbn. split; [done|]. split; [intros ? [=]|].
       split; [intros ? [= <-] (_ & ? & _); done | by right]. }
  unfold Qlt_bool.
  destruct (Qle_bool (Framebuffer.pixelByteLength sizeOfDataType numPixelFormatComponents
                        (Framebuffer.texImage2D a))
                     (Framebuffer.byteLength pixelBuffer)) eqn:Hlen; cbn [negb].
  - apply Qle_bool_iff in Hlen. cbn. split; [done|]. split; [|split].
    + intros ? [= <-]. split; [done|]. exists a. by rewrite <-app_assoc.
    + done.
    + intros ? [=].
  - cbn. split; [done|]. split; [intros ? [=]|]. split; [|by right].
    intros ? [= <-] (_ & _ & Hle). apply Qle_bool_iff in Hle. congruence.
Qed.

Lemma gl_attach_all attachments ctx :
  Framebuffer.gl
    (foldl (λ ctx attachment,
              Framebuffer.call
                (Framebuffer.gl_framebufferTexture2D
                   (Framebuffer.attachmentPoint attachment)
                   (Framebuffer.texImage2D attachment)) ctx)
           ctx attachments)
  = Framebuffer.gl ctx
    ++ map (λ a, Framebuffer.gl_framebufferTexture2D
                   (Framebuffer.attachmentPoint a) (Framebuffer.texImage2D a))
           attachments.
Proof.
  revert ctx. induction attachments as [|a l IH]; intros ctx.
  - cbn. by rewrite app_nil_r.
  - cbn [foldl map]. rewrite IH. cbn. by rewrite <-app_assoc.
Qed.

Lemma dispose_again this ctx :
  Framebuffer.disposed this = true → Framebuffer.dispose this ctx = (this, ctx).
Proof. intros H. unfold Framebuffer.dispose. by rewrite H. Qed.

Lemma dispose_repeated this ctx n :
  Framebuffer.disposed this = true →
  Nat.iter n (λ p, Framebuffer.dispose (fst p) (snd p)) (this, ctx) = (this, ctx).
Proof.
  intros H. induction n as [|n IH]; [done|].
  rewrite Nat.iter_succ, IH. cbn [fst snd]. by apply dispose_again.
Qed.

(** X12. A framebuffer that [constructor] returned is deleted once however
    often [dispose] is called on it: after the first call the object is
    disposed and the log holds one [gl.deleteFramebuffer] of the handle
    that [gl.createFramebuffer] gave; every later call changes nothing.
    When [gl.createFramebuffer] gives nothing, [constructor] throws after
    that one call.  [constructor] makes one [gl.framebufferTexture2D] call
    per attachment and no [gl.bindFramebuffer]. *)
Theorem framebuffer_deleted_once attachments created ctx :
  match Framebuffer.constructor attachments created ctx with
  | (Threw e, ctx1) =>
      created = None ∧ e = Framebuffer.createFramebufferFailed
      ∧ Framebuffer.gl ctx1 = Framebuffer.gl ctx ++ [Framebuffer.gl_createFramebuffer]
  | (Returned this, ctx1) =>
      created = Some (Framebuffer.glFramebuffer this)
      ∧ Framebuffer.gl ctx1
        = Framebuffer.gl ctx ++ Framebuffer.gl_createFramebuffer
            :: map (λ a, Framebuffer.gl_framebufferTexture2D
                           (Framebuffer.attachmentPoint a) (Framebuffer.texImage2D a))
                   attachments
      ∧ let '(this2, ctx2) := Framebuffer.dispose this ctx1 in
        Framebuffer.disposed this2 = true
        ∧ Framebuffer.gl ctx2
          = Framebuffer.gl ctx1
            ++ [Framebuffer.gl_deleteFramebuffer (Framebuffer.glFramebuffer this)]
        ∧ ∀ n, Nat.iter n (λ p, Framebuffer.dispose (fst p) (snd p)) (this2, ctx2)
               = (this2, ctx2)
  end.
Proof.
  unfold Framebuffer.constructor. destruct created as [h|]; [|done].
  split; [done|]. split.
  - rewrite gl_attach_all. cbn. by rewrite <-app_assoc.
  - cbn [Framebuffer.dispose Framebuffer.disposed negb]. unfold Framebuffer.dispose.
    cbn [Framebuffer.disposed negb Framebuffer.glFramebuffer Framebuffer.attachments].
    split; [done|]. split; [done|]. intros n. by apply dispose_repeated.
Qed.

(** ** Vertex array objects *)

Lemma foldl_append_calls {A B} (f : A → list B) l acc :
  foldl (λ calls x, calls ++ f x) acc l = acc ++ flat_map f l.
Proof.
  revert acc. induction l as [|x l IH]; intros acc; cbn.
  - by rewrite app_nil_r.
  - rewrite IH. by rewrite <-app_assoc.
Qed.

Lemma find_none_existsb {A} (p : A → bool) l : find p l = None ↔ existsb p l = false.
Proof.
  induction l as [|x l IH]; cbn; [done|].
  destruct (p x); cbn; [split; discriminate | exact IH].
Qed.

Lemma bindAttribute_length attributes nva :
  length (VertexArrayObject.bindAttribute attributes nva)
  = if VertexArrayObject.inProgram attributes nva then 3%nat else 0%nat.
Proof.
  unfold VertexArrayObject.bindAttribute, VertexArrayObject.inProgram.
  destruct (find _ attributes) eqn:Hf.
  - destruct (existsb _ attributes) eqn:He; [done|].
    apply find_none_existsb in He. congruence.
  - apply find_none_existsb in Hf. by rewrite Hf.
Qed.

Lemma bindAttribute_filter attributes geo :
  flat_map (VertexArrayObject.bindAttribute attributes)
           (List.filter (VertexArrayObject.inProgram attributes) geo)
  = flat_map (VertexArrayObject.bindAttribute attributes) geo.
Proof.
  induction geo as [|nva geo IH]; [done|]. cbn.
  pose proof (bindAttribute_length attributes nva) as Hl.
  destruct (VertexArrayObject.inProgram attributes nva); cbn; rewrite IH; [done|].
  by destruct (VertexArrayObject.bindAttribute attributes nva).
Qed.

Lemma bindAttribute_calls_length attributes geo :
  length (flat_map (VertexArrayObject.bindAttribute attributes) geo)
  = (3 * length (List.filter (VertexArrayObject.inProgram attributes) geo))%nat.
Proof.
  induction geo as [|nva geo IH]; [done|]. cbn [flat_map List.filter].
  rewrite length_app, IH, bindAttribute_length.
  destruct (VertexArrayObject.inProgram attributes nva); cbn [length]; lia.
Qed.

(** X13. The vertex array object's constructor binds only the attributes
    that exist in the program: the attributes of the geometry without a
    program attribute of the same name cause no call at all (dropping them
    from the geometry gives the same outcome and the same calls); each
    other one causes three calls, so the calls number two plus three times
    their count; and a location is enabled exactly when it is the location
    of the first program attribute bearing the name of some attribute of
    the geometry. *)
Theorem vertex_array_binds_program_attributes attributes geo created :
  let matched := List.filter (VertexArrayObject.inProgram attributes) geo in
  VertexArrayObject.constructor attributes matched created
  = VertexArrayObject.constructor attributes geo created
  ∧ ∀ vao, created = Some vao →
      let calls := snd (VertexArrayObject.constructor attributes geo created) in
      length calls = (2 + 3 * length matched)%nat
      ∧ ∀ location,
          VertexArrayObject.gl_enableVertexAttribArray location ∈ calls
          ↔ ∃ nva attribute,
              nva ∈ geo
              ∧ find (λ attribute, String.eqb (VertexArrayObject.attributeName attribute)
                                              (VertexArrayObject.name nva)) attributes
                = Some attribute
              ∧ VertexArrayObject.glLocation attribute = location.
Proof.
  intros matched. unfold VertexArrayObject.constructor. split.
  - destruct created as [vao|]; [|done].
    rewrite !foldl_append_calls. cbn [app]. unfold matched.
    by rewrite bindAttribute_filter.
  - intros vao ->. cbn [snd]. rewrite foldl_append_calls. cbn [app length]. split.
    + rewrite bindAttribute_calls_length. unfold matched. lia.
    + intros location. rewrite !elem_of_cons. rewrite list_elem_of_In, in_flat_map.
      split.
      * intros [Heq|[Heq|(nva & Hin & Hcall)]]; [discriminate..|].
        unfold VertexArrayObject.bindAttribute in Hcall.
        destruct (find _ attributes) as [attribute|] eqn:Hf; [|by destruct Hcall].
        exists nva, attribute. split; [by apply list_elem_of_In|]. split; [done|].
        destruct Hcall as [Hc|[Hc|[Hc|[]]]]; congruence.
      * intros (nva & attribute & Hin & Hf & Hloc). right; right.
        exists nva. split; [by apply list_elem_of_In|].
        unfold VertexArrayObject.bindAttribute. rewrite Hf, Hloc. by left.
Qed.

Lemma vertex_array_binds_program_attributes_witness :
  let attributes := [VertexArrayObject.mkProgramAttribute "position" 0;
                     VertexArrayObject.mkProgramAttribute "uv" 1] in
  let va := VertexArrayObject.mkVertexAttribute (VertexArrayObject.mkBuffer 34962 5)
              3 5126 false 0 0 in
  let geo := [VertexArrayObject.mkNamedVertexAttribute "normal" va;
              VertexArrayObject.mkNamedVertexAttribute "uv" va] in
  length (snd (VertexArrayObject.constructor attributes geo (Some 4%nat))) = 5%nat.
Proof.
  intros attributes va geo.
  destruct (vertex_array_binds_program_attributes attributes geo (Some 4%nat)) as [_ H].
  destruct (H 4%nat eq_refl) as [Hlen _]. exact Hlen.
Defined.

(** ** Texture uploads *)

Ltac run_method :=
  unfold mbind, TexImage2D.M_bind, mret, TexImage2D.M_ret, TexImage2D.call,
    TexImage2D.this, TexImage2D.update, TexImage2D.throw; cbn [fst snd].

Lemma uploads_app cs1 cs2 :
  TexImage2D.uploads (cs1 ++ cs2) = TexImage2D.uploads cs1 ++ TexImage2D.uploads cs2.
Proof. apply omap_app. Qed.

(** One [loadImage] of a source at hand: it returns, makes one upload, and
    touches only [size], which at level 0 becomes the size of the source. *)
Lemma loadImage_returns image target level o log :
  ∃ size cs,
    TexImage2D.loadImage (Some image) target level (o, log)
    = (Returned (), (TexImage2D.set_size size o, log ++ cs))
    ∧ TexImage2D.uploads cs = [(default (TexImage2D.target o) target, level, image)]
    ∧ (level = 0%nat → size = TexImage2D.sourceSize image)
    ∧ ∀ c, c ∈ cs →
        c = TexImage2D.gl_texImage2D (default (TexImage2D.target o) target) level image
        ∨ ∃ flag, c = TexImage2D.gl_pixelStorei_UNPACK_PREMULTIPLY_ALPHA_WEBGL flag.
Proof.
  unfold TexImage2D.loadImage. run_method.
  set (tg := default (TexImage2D.target o) target).
  destruct image as [sz|w h d|w h d|w h d]; run_method.
  - destruct (Nat.eqb_spec level 0); run_method.
    + exists sz, [TexImage2D.gl_texImage2D tg level (TexImage2D.SourceVector2 sz)].
      repeat split; try done. intros c ->%list_elem_of_singleton. by left.
    + exists (TexImage2D.size o),
        [TexImage2D.gl_texImage2D tg level (TexImage2D.SourceVector2 sz)].
      repeat split; try done; [by destruct o|]. intros c ->%list_elem_of_singleton. by left.
  - destruct (Nat.eqb_spec level 0); run_method.
    + exists (Vector2.mk w h),
        [TexImage2D.gl_texImage2D tg level (TexImage2D.SourceArrayBufferImage w h d)].
      repeat split; try done. intros c ->%list_elem_of_singleton. by left.
    + exists (TexImage2D.size o),
        [TexImage2D.gl_texImage2D tg level (TexImage2D.SourceArrayBufferImage w h d)].
      repeat split; try done; [by destruct o|]. intros c ->%list_elem_of_singleton. by left.
  - exists (Vector2.mk w h),
      [TexImage2D.gl_pixelStorei_UNPACK_PREMULTIPLY_ALPHA_WEBGL true;
       TexImage2D.gl_texImage2D tg level (TexImage2D.SourceHTMLImageElement w h d);
       TexImage2D.gl_pixelStorei_UNPACK_PREMULTIPLY_ALPHA_WEBGL false].
    rewrite <-!app_assoc. repeat split; try done.
    intros c Hc. repeat (apply elem_of_cons in Hc as [->|Hc]); eauto. by apply elem_of_nil in Hc.
  - exists (Vector2.mk w h),
      [TexImage2D.gl_pixelStorei_UNPACK_PREMULTIPLY_ALPHA_WEBGL false;
       TexImage2D.gl_texImage2D tg level (TexImage2D.SourceOtherImage w h d);
       TexImage2D.gl_pixelStorei_UNPACK_PREMULTIPLY_ALPHA_WEBGL false].
    rewrite <-!app_assoc. repeat split; try done.
    intros c Hc. repeat (apply elem_of_cons in Hc as [->|Hc]); eauto. by apply elem_of_nil in Hc.
Qed.

Lemma set_size_set_size a b o :
  TexImage2D.set_size a (TexImage2D.set_size b o) = TexImage2D.set_size a o.
Proof. done. Qed.

Lemma set_size_same o : TexImage2D.set_size (TexImage2D.size o) o = o.
Proof. by destruct o. Qed.

(** The faces loop of one level. *)
Lemma for_faces_returns (images : list TexImage2D.TextureSource) level faces o log :
  (∀ face, face ∈ faces → is_Some (images !! (level * 6 + face)%nat)) →
  ∃ size cs,
    TexImage2D.for_ faces
      (λ face, TexImage2D.loadImage (images !! (level * 6 + face)%nat)
                 (Some (TexImage2D.CubeMapPositiveX face)) level) (o, log)
    = (Returned (), (TexImage2D.set_size size o, log ++ cs))
    ∧ TexImage2D.uploads cs
      = omap (λ face, (λ image, (TexImage2D.CubeMapPositiveX face, level, image))
                        <$> images !! (level * 6 + face)%nat) faces.
Proof.
  revert o log. induction faces as [|face faces IH]; intros o log Hall.
  - exists (TexImage2D.size o), []. cbn. run_method.
    by rewrite app_nil_r, set_size_same.
  - destruct (Hall face) as [image Himage]; [set_solver|].
    cbn [TexImage2D.for_]. unfold mbind at 1, TexImage2D.M_bind at 1. rewrite Himage.
    destruct (loadImage_returns image (Some (TexImage2D.CubeMapPositiveX face)) level o log)
      as (sz1 & cs1 & -> & Hu1 & _).
    destruct (IH (TexImage2D.set_size sz1 o) (log ++ cs1)) as (sz2 & cs2 & -> & Hu2);
      [intros f Hf; apply Hall; set_solver|].
    exists sz2, (cs1 ++ cs2). rewrite set_size_set_size, app_assoc. split; [done|].
    rewrite uploads_app, Hu1, Hu2. cbn [omap list_omap]. by rewrite Himage.
Qed.

Lemma omap_seq_total {A} (h : nat → option A) n :
  (∀ i, (i < n)%nat → is_Some (h i)) →
  length (omap h (seq 0 n)) = n
  ∧ ∀ i, (i < n)%nat → omap h (seq 0 n) !! i = h i.
Proof.
  induction n as [|n IH]; intros Hall; [split; [done | lia]|].
  destruct IH as [Hlen Hget]; [intros; apply Hall; lia|].
  destruct (Hall n) as [x Hx]; [lia|].
  rewrite seq_S, omap_app. cbn [omap list_omap plus]. rewrite Hx. split.
  - rewrite length_app, Hlen. cbn. lia.
  - intros i Hi. destruct (decide (i < n)%nat) as [Hlt|Hge].
    + rewrite lookup_app_l by lia. by apply Hget.
    + assert (i = n) as -> by lia.
      rewrite lookup_app_r by lia. rewrite Hlen, Nat.sub_diag. done.
Qed.

Lemma for_app l1 l2 body st :
  TexImage2D.for_ (l1 ++ l2) body st
  = match TexImage2D.for_ l1 body st with
    | (Returned _, st') => TexImage2D.for_ l2 body st'
    | (Threw e, st') => (Threw e, st')
    end.
Proof.
  revert st. induction l1 as [|i l1 IH]; intros st; [done|].
  cbn [app TexImage2D.for_]. unfold mbind, TexImage2D.M_bind.
  destruct (body i st) as [[[]|e] st']; [apply IH | done].
Qed.

(** The levels loop: [levels] full groups of six images. *)
Lemma for_levels_returns (images : list TexImage2D.TextureSource) levels o log :
  (6 * levels ≤ length images)%nat →
  ∃ size cs,
    TexImage2D.for_ (seq 0 levels)
      (λ level, TexImage2D.for_ (seq 0 6)
         (λ face, TexImage2D.loadImage (images !! (level * 6 + face)%nat)
                    (Some (TexImage2D.CubeMapPositiveX face)) level)) (o, log)
    = (Returned (), (TexImage2D.set_size size o, log ++ cs))
    ∧ length (TexImage2D.uploads cs) = (6 * levels)%nat
    ∧ (∀ i image, (i < 6 * levels)%nat → images !! i = Some image →
         TexImage2D.uploads cs !! i
         = Some (TexImage2D.CubeMapPositiveX (i mod 6), (i / 6)%nat, image))
    ∧ (levels = 0%nat → cs = [] ∧ TexImage2D.set_size size o = o).
Proof.
  induction levels as [|k IH]; intros Hlen.
  - exists (TexImage2D.size o), []. cbn. run_method.
    rewrite app_nil_r, set_size_same. repeat split; try done. lia.
  - destruct IH as (sz1 & cs1 & Hrun1 & Hlen1 & Hget1 & _); [lia|].
    assert (Hall : ∀ face, face ∈ seq 0 6 → is_Some (images !! (k * 6 + face)%nat)).
    { intros face Hf%elem_of_seq. apply lookup_lt_is_Some. lia. }
    destruct (for_faces_returns images k (seq 0 6) (TexImage2D.set_size sz1 o) (log ++ cs1) Hall)
      as (sz2 & cs2 & Hrun2 & Hu2).
    exists sz2, (cs1 ++ cs2).
    rewrite seq_S, for_app, Hrun1. cbn [plus TexImage2D.for_].
    unfold mbind at 1, TexImage2D.M_bind at 1. rewrite Hrun2.
    rewrite set_size_set_size, app_assoc. split; [by run_method|].
    destruct (omap_seq_total
                (λ face, (λ image, (TexImage2D.CubeMapPositiveX face, k, image))
                           <$> images !! (k * 6 + face)%nat) 6) as [Hlen2 Hget2].
    { intros i Hi. destruct (Hall i) as [x Hx]; [apply elem_of_seq; lia|].
      rewrite Hx. by eexists. }
    rewrite <-Hu2 in Hlen2, Hget2.
    rewrite uploads_app. split; [rewrite length_app; lia|]. split; [|lia].
    intros i image Hi Himage. destruct (decide (i < 6 * k)%nat) as [Hlt|Hge].
    + rewrite lookup_app_l by lia. by apply Hget1.
    + rewrite lookup_app_r by lia. rewrite Hlen1, Hget2 by lia.
      replace (k * 6 + (i - 6 * k))%nat with i by lia. rewrite Himage.
      assert (Hm : (i mod 6 = i - 6 * k)%nat)
        by (symmetry; apply (Nat.mod_unique i 6 k); lia).
      assert (Hd : (i / 6 = k)%nat)
        by (symmetry; apply (Nat.div_unique i 6 k (i - 6 * k)); lia).
      rewrite Hm, Hd. reflexivity.
Qed.

Lemma loadImages_cube o log :
  TexImage2D.target o = TexImage2D.TextureCubeMap →
  length (TexImage2D.images o) ≠ 1%nat →
  let images := TexImage2D.images o in
  let count := (6 * (length images / 6))%nat in
  ∃ size cs,
    TexImage2D.loadImages images (o, log)
    = (Returned (),
       (TexImage2D.set_size size o,
        log ++ TexImage2D.gl_bindTexture TexImage2D.TextureCubeMap
                 (Some (TexImage2D.glTexture o)) :: cs))
    ∧ length (TexImage2D.uploads cs) = count
    ∧ (∀ i image, (i < count)%nat → images !! i = Some image →
         TexImage2D.uploads cs !! i
         = Some (TexImage2D.CubeMapPositiveX (i mod 6), (i / 6)%nat, image))
    ∧ ((length images < 6)%nat → cs = [] ∧ TexImage2D.set_size size o = o).
Proof.
  intros Htarget Hn images count.
  unfold TexImage2D.loadImages. run_method. rewrite Htarget.
  assert (Hone : (length images =? 1)%nat = false) by (apply Nat.eqb_neq; done).
  rewrite Hone. rewrite decide_True by done. cbn zeta.
  destruct (for_levels_returns images (length images / 6) o
              (log ++ [TexImage2D.gl_bindTexture TexImage2D.TextureCubeMap
                         (Some (TexImage2D.glTexture o))]))
    as (sz & cs & Hrun & Hlen & Hget & Hzero).
  { apply Nat.Div0.mul_div_le. }
  exists sz, cs. fold images. rewrite Hrun, <-app_assoc.
  split; [done|]. split; [done|]. split; [done|].
  intros Hsmall. apply Hzero. by apply Nat.div_small.
Qed.

(** X15. [loadImages] on a cube-map texture, called as the constructor
    calls it (with the object's own images, their number not 1): it
    returns; after binding the texture it uploads the first
    [6 * floor(n / 6)] images in order, image [i] to face [i mod 6] at
    level [i / 6], and ignores the rest; with fewer than six images it
    uploads nothing, leaves the size as it was and reports no error. *)
Theorem cube_map_upload_schedule o log :
  TexImage2D.target o = TexImage2D.TextureCubeMap →
  length (TexImage2D.images o) ≠ 1%nat →
  let images := TexImage2D.images o in
  let count := (6 * (length images / 6))%nat in
  ∃ o' cs,
    TexImage2D.loadImages images (o, log)
    = (Returned (),
       (o', log ++ TexImage2D.gl_bindTexture TexImage2D.TextureCubeMap
                     (Some (TexImage2D.glTexture o)) :: cs))
    ∧ length (TexImage2D.uploads cs) = count
    ∧ (∀ i image, (i < count)%nat → images !! i = Some image →
         TexImage2D.uploads cs !! i
         = Some (TexImage2D.CubeMapPositiveX (i mod 6), (i / 6)%nat, image))
    ∧ ((length images < 6)%nat → cs = [] ∧ o' = o).
Proof.
  intros Htarget Hn images count.
  destruct (loadImages_cube o log Htarget Hn) as (size & cs & H).
  by exists (TexImage2D.set_size size o), cs.
Qed.

Lemma cube_map_upload_schedule_witness :
  let image := λ n : nat, TexImage2D.SourceArrayBufferImage 4 4 n in
  let o := TexImage2D.mk None false 9 (Vector2.mk 0 0)
             [image 0%nat; image 1%nat; image 2%nat; image 3%nat; image 4%nat; image 5%nat;
              image 6%nat]
             TexImage2D.TextureCubeMap (TexParameters.mk 0 0 0 0 1 false) in
  ∃ o' cs,
    TexImage2D.loadImages (TexImage2D.images o) (o, [])
    = (Returned (),
       (o', TexImage2D.gl_bindTexture TexImage2D.TextureCubeMap (Some 9%nat) :: cs))
    ∧ length (TexImage2D.uploads cs) = 6%nat.
Proof.
  intros image o.
  destruct (cube_map_upload_schedule o []) as (o' & cs & Hrun & Hlen & _).
  - reflexivity.
  - cbn. lia.
  - exists o', cs. split; [exact Hrun | exact Hlen].
Defined.

(** ** Constructing and disposing a texture *)

(** What the constructor does once [loadImages] has returned. *)
Lemma construct_after_load isPow2 maxAllowableAnisotropy o log size cs :
  TexImage2D.loadImages (TexImage2D.images o) (o, log)
  = (Returned (), (TexImage2D.set_size size o, log ++ cs)) →
  ∃ rest,
    TexImage2D.construct isPow2 maxAllowableAnisotropy (o, log)
    = (Returned (),
       (TexImage2D.set_size size o,
        log ++ cs ++ rest ++ [TexImage2D.gl_bindTexture (TexImage2D.target o) None]))
    ∧ TexImage2D.uploads rest = []
    ∧ (TexImage2D.gl_generateMipmap (TexImage2D.target o) ∈ rest
       ↔ TexParameters.generateMipmaps (TexImage2D.texParameters o) = true
         ∧ isPow2 (Vector2.width size) && isPow2 (Vector2.height size) = true).
Proof.
  intros Hload. unfold TexImage2D.construct. run_method. rewrite Hload.
  cbn [TexImage2D.target TexImage2D.set_size TexImage2D.size TexImage2D.texParameters].
  set (tg := TexImage2D.target o). set (ps := TexImage2D.texParameters o).
  set (params := [TexImage2D.gl_texParameteri tg TexImage2D.TEXTURE_WRAP_S (TexParameters.wrapS ps);
                  TexImage2D.gl_texParameteri tg TexImage2D.TEXTURE_WRAP_T (TexParameters.wrapT ps);
                  TexImage2D.gl_texParameteri tg TexImage2D.TEXTURE_MAG_FILTER
                    (TexParameters.magFilter ps);
                  TexImage2D.gl_texParameteri tg TexImage2D.TEXTURE_MIN_FILTER
                    (TexParameters.minFilter ps)]).
  set (aniso := if Qlt_bool 1 (TexParameters.anisotropyLevels ps)
                then match maxAllowableAnisotropy with
                     | Some m =>
                         [TexImage2D.gl_getParameter_MAX_TEXTURE_MAX_ANISOTROPY_EXT;
                          TexImage2D.gl_texParameterf_TEXTURE_MAX_ANISOTROPY_EXT tg
                            (Qmin (TexParameters.anisotropyLevels ps) m)]
                     | None => []
                     end
                else []).
  set (mips := if TexParameters.generateMipmaps ps
               then if isPow2 (Vector2.width size) && isPow2 (Vector2.height size)
                    then [TexImage2D.gl_generateMipmap tg] else []
               else []).
  exists (params ++ aniso ++ mips). split; [|split].
  - unfold params, aniso, mips.
    destruct (Qlt_bool 1 (TexParameters.anisotropyLevels ps)), maxAllowableAnisotropy,
      (TexParameters.generateMipmaps ps);
      cbn -[Qmin app]; fold tg;
      destruct (isPow2 (Vector2.width size) && isPow2 (Vector2.height size));
      cbn -[Qmin app]; rewrite <-?app_assoc; cbn [app]; reflexivity.
  - unfold params, aniso, mips.
    by destruct (Qlt_bool 1 (TexParameters.anisotropyLevels ps)), maxAllowableAnisotropy,
      (TexParameters.generateMipmaps ps),
      (isPow2 (Vector2.width size) && isPow2 (Vector2.height size)).
  - rewrite !elem_of_app. unfold params, aniso, mips. split.
    + intros [Hin|[Hin|Hin]].
      * repeat (apply elem_of_cons in Hin as [Heq|Hin]; [discriminate|]).
        by apply elem_of_nil in Hin.
      * destruct (Qlt_bool 1 _), maxAllowableAnisotropy;
          repeat (apply elem_of_cons in Hin as [Heq|Hin]; [discriminate|]);
          by apply elem_of_nil in Hin.
      * destruct (TexParameters.generateMipmaps ps); [|by apply elem_of_nil in Hin].
        destruct (isPow2 _ && isPow2 _); [done | by apply elem_of_nil in Hin].
    + intros [-> ->]. right; right. by left.
Qed.

Lemma loadImages_single image o log :
  TexImage2D.images o = [image] →
  ∃ cs,
    TexImage2D.loadImages (TexImage2D.images o) (o, log)
    = (Returned (), (TexImage2D.set_size (TexImage2D.sourceSize image) o, log ++ cs))
    ∧ TexImage2D.uploads cs = [(TexImage2D.target o, 0%nat, image)]
    ∧ ∀ target, TexImage2D.gl_generateMipmap target ∉ cs.
Proof.
  intros Himages. unfold TexImage2D.loadImages. run_method. rewrite Himages. cbn [length Nat.eqb].
  change ([image] !! 0%nat) with (Some image).
  destruct (loadImage_returns image None 0 o
              (log ++ [TexImage2D.gl_bindTexture (TexImage2D.target o)
                         (Some (TexImage2D.glTexture o))]))
    as (sz & cs & -> & Hu & Hsz & Hkinds).
  rewrite (Hsz eq_refl), <-app_assoc. eexists. split; [reflexivity|]. split.
  - rewrite uploads_app, Hu. reflexivity.
  - intros target [Heq|Hin]%elem_of_cons; [discriminate|].
    destruct (Hkinds _ Hin) as [Hc|[flag Hc]]; discriminate.
Qed.

Lemma constructor_cases isPow2 images target texParameters created
    maxAllowableAnisotropy ctx :
  match TexImage2D.constructor isPow2 images target texParameters created
          maxAllowableAnisotropy ctx with
  | (Returned o, ctx', calls) =>
      (length images = 1%nat ∨ target = TexImage2D.TextureCubeMap)
      ∧ created = Some (TexImage2D.glTexture o)
      ∧ TexImage2D.id o = Some (RenderingContext.nextResourceId ctx)
      ∧ ctx' = snd (RenderingContext.registerResource ctx)
      ∧ TexImage2D.disposed o = false
      ∧ last calls = Some (TexImage2D.gl_bindTexture target None)
  | (Threw TexImage2D.createTextureFailed, ctx', calls) =>
      created = None ∧ ctx' = ctx ∧ calls = [TexImage2D.gl_createTexture]
  | (Threw TexImage2D.unsupportedNumberOfImages, ctx', calls) =>
      length images ≠ 1%nat ∧ target ≠ TexImage2D.TextureCubeMap ∧ ctx' = ctx
      ∧ ∃ glTexture, created = Some glTexture
          ∧ calls = [TexImage2D.gl_createTexture;
                     TexImage2D.gl_bindTexture target (Some glTexture)]
  | (Threw TexImage2D.typeError, _, _) => False
  end.
Proof.
  unfold TexImage2D.constructor. destruct created as [g|]; [|done].
  set (o := TexImage2D.mk None false g (Vector2.mk 0 0) images target texParameters).
  assert (Hreturned : ∀ size cs,
            TexImage2D.loadImages (TexImage2D.images o) (o, [TexImage2D.gl_createTexture])
            = (Returned (), (TexImage2D.set_size size o, [TexImage2D.gl_createTexture] ++ cs)) →
            (length images = 1%nat ∨ target = TexImage2D.TextureCubeMap) →
            match
              match TexImage2D.construct isPow2 maxAllowableAnisotropy
                      (o, [TexImage2D.gl_createTexture]) with
              | (Returned _, (o, calls)) =>
                  let '(id, ctx) := RenderingContext.registerResource ctx in
                  (Returned (TexImage2D.set_id (Some id) o), ctx, calls)
              | (Threw e, (_, calls)) => (Threw e, ctx, calls)
              end
            with
            | (Returned o, ctx', calls) =>
                (length images = 1%nat ∨ target = TexImage2D.TextureCubeMap)
                ∧ Some g = Some (TexImage2D.glTexture o)
                ∧ TexImage2D.id o = Some (RenderingContext.nextResourceId ctx)
                ∧ ctx' = snd (RenderingContext.registerResource ctx)
                ∧ TexImage2D.disposed o = false
                ∧ last calls = Some (TexImage2D.gl_bindTexture target None)
            | (Threw TexImage2D.createTextureFailed, ctx', calls) =>
                Some g = None ∧ ctx' = ctx ∧ calls = [TexImage2D.gl_createTexture]
            | (Threw TexImage2D.unsupportedNumberOfImages, ctx', calls) =>
                length images ≠ 1%nat ∧ target ≠ TexImage2D.TextureCubeMap ∧ ctx' = ctx
                ∧ ∃ glTexture, Some g = Some glTexture
                    ∧ calls = [TexImage2D.gl_createTexture;
                               TexImage2D.gl_bindTexture target (Some glTexture)]
            | (Threw TexImage2D.typeError, _, _) => False
            end).
  { intros size cs Hload Hcase.
    destruct (construct_after_load isPow2 maxAllowableAnisotropy o _ size cs Hload)
      as (rest & -> & _).
    cbn [RenderingContext.registerResource]. cbn -[last].
    repeat split; try done.
    rewrite !app_comm_cons, !app_assoc. apply last_snoc. }
  destruct (decide (length images = 1%nat)) as [Hone|Hmany].
  - destruct images as [|image [|]]; try discriminate.
    destruct (loadImages_single image o [TexImage2D.gl_createTexture] eq_refl)
      as (cs & Hload & _ & _).
    apply (Hreturned _ cs Hload). by left.
  - destruct (decide (target = TexImage2D.TextureCubeMap)) as [Hcube|Hother].
    + destruct (loadImages_cube o [TexImage2D.gl_createTexture] Hcube Hmany)
        as (size & cs & Hload & _).
      apply (Hreturned size (TexImage2D.gl_bindTexture TexImage2D.TextureCubeMap
                               (Some (TexImage2D.glTexture o)) :: cs)); [|by right].
      exact Hload.
    + unfold TexImage2D.construct, TexImage2D.loadImages. run_method.
      cbn [TexImage2D.target TexImage2D.images TexImage2D.glTexture o].
      rewrite (proj2 (Nat.eqb_neq _ _) Hmany), decide_False by done.
      cbn. repeat split; try done. by exists g.
Qed.

(** X16. The ways [new TexImage2D(...)] ends.  It throws
    [createTexture failed] when [gl.createTexture] gives nothing, and
    [Unsupported number of images] when the number of images is not 1 and
    the target is not the cube map; then the context is as before, so the
    GL texture made is neither registered nor deleted, and in the second
    case it is left bound.  In every other case it returns: the object has
    the context's next resource id, is registered under it, and the last
    call unbinds the texture.  A read of an image that is not there does
    not happen. *)
Theorem texture_constructor_outcomes isPow2 images target texParameters created
    maxAllowableAnisotropy ctx :
  match TexImage2D.constructor isPow2 images target texParameters created
          maxAllowableAnisotropy ctx with
  | (Returned o, ctx', calls) =>
      (length images = 1%nat ∨ target = TexImage2D.TextureCubeMap)
      ∧ created = Some (TexImage2D.glTexture o)
      ∧ TexImage2D.id o = Some (RenderingContext.nextResourceId ctx)
      ∧ ctx' = snd (RenderingContext.registerResource ctx)
      ∧ TexImage2D.disposed o = false
      ∧ last calls = Some (TexImage2D.gl_bindTexture target None)
  | (Threw TexImage2D.createTextureFailed, ctx', calls) =>
      created = None ∧ ctx' = ctx ∧ calls = [TexImage2D.gl_createTexture]
  | (Threw TexImage2D.unsupportedNumberOfImages, ctx', calls) =>
      length images ≠ 1%nat ∧ target ≠ TexImage2D.TextureCubeMap ∧ ctx' = ctx
      ∧ ∃ glTexture, created = Some glTexture
          ∧ calls = [TexImage2D.gl_createTexture;
                     TexImage2D.gl_bindTexture target (Some glTexture)]
  | (Threw TexImage2D.typeError, _, _) => False
  end.
Proof. apply constructor_cases. Qed.

(** X17. A texture made from one image, as [makeColorMipmapAttachment]
    makes the offscreen attachments: the constructor returns; the one
    upload is that image at level 0 on the object's target; the object's
    size is the image's; the registry of the
    context changes as [newTexImage2D] has it; and the mipmaps are
    generated exactly when the parameters ask for them and both extents
    pass [isPow2]. *)
Theorem texture_from_one_image isPow2 image target texParameters glTexture
    maxAllowableAnisotropy ctx :
  ∃ o calls,
    TexImage2D.constructor isPow2 [image] target texParameters (Some glTexture)
      maxAllowableAnisotropy ctx
    = (Returned o, snd (RenderingContext.registerResource ctx), calls)
    ∧ TexImage2D.size o = TexImage2D.sourceSize image
    ∧ TexImage2D.uploads calls = [(target, 0%nat, image)]
    ∧ (TexImage2D.gl_generateMipmap target ∈ calls
       ↔ TexParameters.generateMipmaps texParameters = true
         ∧ isPow2 (Vector2.width (TexImage2D.sourceSize image))
           && isPow2 (Vector2.height (TexImage2D.sourceSize image)) = true)
    ∧ (∀ source,
         RenderingContext.resources (snd (RenderingContext.registerResource ctx))
         = RenderingContext.resources (snd (newTexImage2D source ctx))
         ∧ TexImage2D.id o = Some (fst (newTexImage2D source ctx))).
Proof.
  unfold TexImage2D.constructor.
  set (o := TexImage2D.mk None false glTexture (Vector2.mk 0 0) [image] target texParameters).
  destruct (loadImages_single image o [TexImage2D.gl_createTexture] eq_refl)
    as (cs & Hload & Hu & Hnomip).
  destruct (construct_after_load isPow2 maxAllowableAnisotropy o _ _ cs Hload)
    as (rest & -> & Hrest & Hmip).
  cbn [RenderingContext.registerResource snd]. eexists _, _. split; [reflexivity|].
  split; [done|]. split; [|split; [|done]].
  - change ([TexImage2D.gl_createTexture] ++ cs ++ rest ++ [TexImage2D.gl_bindTexture
              (TexImage2D.target o) None])
      with ([TexImage2D.gl_createTexture] ++ (cs ++ rest ++ [TexImage2D.gl_bindTexture
              (TexImage2D.target o) None])).
    rewrite !uploads_app, Hu, Hrest. done.
  - unfold o in Hmip. cbn [TexImage2D.texParameters TexImage2D.target] in Hmip.
    rewrite <-Hmip. cbn [TexImage2D.target o]. rewrite !elem_of_app, elem_of_cons.
    split.
    + intros [[Heq|Hin]|[Hin|[Hin|Hin]]]; try done.
      * by apply elem_of_nil in Hin.
      * by apply Hnomip in Hin.
      * apply list_elem_of_singleton in Hin. discriminate.
    + intros Hin. right. right. by left.
Qed.

(** X18. A texture made and then disposed: the first [dispose] issues one
    [gl.deleteTexture] of the handle [gl.createTexture] gave, marks the
    object disposed and takes its id out of the context's registry, which
    (the id being new to it) is then as before the construction, the id
    counter apart; a second [dispose] makes no call and changes nothing. *)
Theorem texture_made_then_disposed isPow2 images target texParameters glTexture
    maxAllowableAnisotropy ctx o ctx1 calls :
  RenderingContext.nextResourceId ctx ∉ RenderingContext.resources ctx →
  TexImage2D.constructor isPow2 images target texParameters (Some glTexture)
    maxAllowableAnisotropy ctx = (Returned o, ctx1, calls) →
  ∃ o2 ctx2,
    TexImage2D.dispose o ctx1 = (o2, ctx2, [TexImage2D.gl_deleteTexture glTexture])
    ∧ TexImage2D.disposed o2 = true
    ∧ RenderingContext.resources ctx2 = RenderingContext.resources ctx
    ∧ RenderingContext.nextResourceId ctx2 = S (RenderingContext.nextResourceId ctx)
    ∧ TexImage2D.dispose o2 ctx2 = (o2, ctx2, []).
Proof.
  intros Hfresh Hmade.
  pose proof (constructor_cases isPow2 images target texParameters (Some glTexture)
                maxAllowableAnisotropy ctx) as Hcases.
  rewrite Hmade in Hcases. destruct Hcases as (_ & [= Hg] & Hid & -> & Hlive & _).
  unfold TexImage2D.dispose. rewrite Hlive, Hid, <-Hg. cbn [negb].
  eexists _, _. split; [reflexivity|]. cbn. repeat split; try done. set_solver.
Qed.

Lemma texture_made_then_disposed_witness :
  let ctx := RenderingContext.mk (Vector2.mk 800 600) 1 3 {[0%nat; 2%nat]} [] in
  let images := [TexImage2D.SourceVector2 (Vector2.mk 4 4)] in
  let texParameters := TexParameters.mk 0 0 0 0 1 true in
  let o := TexImage2D.mk (Some 3%nat) false 7 (Vector2.mk 4 4) images TexImage2D.Texture2D
             texParameters in
  let ctx1 := snd (RenderingContext.registerResource ctx) in
  ∃ calls o2 ctx2,
    TexImage2D.constructor (λ _, true) images TexImage2D.Texture2D texParameters
      (Some 7%nat) None ctx = (Returned o, ctx1, calls)
    ∧ TexImage2D.dispose o ctx1 = (o2, ctx2, [TexImage2D.gl_deleteTexture 7])
    ∧ RenderingContext.resources ctx2 = RenderingContext.resources ctx.
Proof.
  intros ctx images texParameters o ctx1.
  eexists _.
  destruct (texture_made_then_disposed (λ _, true) images TexImage2D.Texture2D
              texParameters 7%nat None ctx o ctx1
              (snd (TexImage2D.constructor (λ _, true) images TexImage2D.Texture2D
                      texParameters (Some 7%nat) None ctx)))
    as (o2 & ctx2 & Hd & _ & Hr & _).
  - vm_compute. set_solver.
  - reflexivity.
  - exists o2, ctx2. split; [reflexivity|]. split; [exact Hd | exact Hr].
Defined.

(** ** Resources the compositor lets go of *)



Lemma targetIds_targets s s' : targets s' = targets s → targetIds s' = targetIds s.
Proof. unfold targets, targetIds. by intros [= _ -> -> -> ->]. Qed.



Lemma targets_sceneState s s' : sceneState s' = sceneState s → targets s' = targets s.
Proof. by intros (_ & _ & _ & _ & _ & Ht)%sceneState_eq. Qed.




Lemma Tame_LayerImage_dispose url li s :
  layerImageCache s !! url = Some li →
  registered s ∖ {[LayerImage.texImage2D li]} ⊆ registered (LayerImage_dispose li s)
  ∧ nextId (LayerImage_dispose li s) = nextId s
  ∧ targets (LayerImage_dispose li s) = targets s
  ∧ layerImageCache (LayerImage_dispose li s) = layerImageCache s.
Proof.
  intros Hli. split; [|split; [|split]].
  - unfold LayerImage_dispose, TexImage2D_dispose, releaseImage, registered.
    destruct (LayerImage.disposed li); [set_solver|].
    destruct (LayerImage.image li) as [[h|h]|]; cbn;
      try destruct (imageBitmapSupported s); cbn;
      case_bool_decide; cbn; set_solver.
  - unfold LayerImage_dispose, TexImage2D_dispose, releaseImage, nextId.
    destruct (LayerImage.disposed li); [done|].
    destruct (LayerImage.image li) as [[h|h]|]; cbn;
      try destruct (imageBitmapSupported s); cbn;
      by case_bool_decide.
  - apply targets_sceneState, sceneState_LayerImage_dispose.
  - apply layerImageCache_LayerImage_dispose.
Qed.


Lemma replaceWriteTarget_keeps s n :
  n ∈ registered s →
  offscreenWriteFramebuffer s ≠ Some n →
  offscreenWriteColorAttachment s ≠ Some n →
  n ∈ registered (replaceWriteTarget s).
Proof.
  unfold replaceWriteTarget, Framebuffer_dispose, TexImage2D_dispose, registered.
  intros Hin Hw Ha.
  destruct (offscreenWriteFramebuffer s) as [f|]; cbn;
    destruct (offscreenWriteColorAttachment s) as [a|]; cbn;
    repeat case_bool_decide; cbn; set_solver.
Qed.

Lemma replaceReadTarget_keeps s n :
  n ∈ registered s →
  offscreenReadFramebuffer s ≠ Some n →
  offscreenReadColorAttachment s ≠ Some n →
  n ∈ registered (replaceReadTarget s).
Proof.
  unfold replaceReadTarget, Framebuffer_dispose, TexImage2D_dispose, registered.
  intros Hin Hw Ha.
  destruct (offscreenReadFramebuffer s) as [f|]; cbn;
    destruct (offscreenReadColorAttachment s) as [a|]; cbn;
    repeat case_bool_decide; cbn; set_solver.
Qed.





Lemma context_foldl_compositeLayer r w m v ls s :
  registered (foldl (compositeLayer r w m v) s ls) = registered s
  ∧ nextId (foldl (compositeLayer r w m v) s ls) = nextId s.
Proof.
  revert s. induction ls as [|l ls IH]; intros s; [done|].
  cbn [foldl]. destruct (IH (compositeLayer r w m v s l)) as [-> ->].
  unfold compositeLayer, registered, nextId.
  by destruct (Layer.mask l), (Layer.isTriviallyBlended l).
Qed.

Lemma context_renderLayersToFramebuffer s :
  registered (renderLayersToFramebuffer s) = registered (updateOffscreen s)
  ∧ nextId (renderLayersToFramebuffer s) = nextId (updateOffscreen s).
Proof.
  unfold renderLayersToFramebuffer. set (s0 := updateOffscreen s).
  destruct (offlineLayerVersion s0 >=? layerVersion s0); [done|].
  cbn [offscreenWriteFramebuffer offscreenReadFramebuffer set_offlineLayerVersion].
  destruct (offscreenWriteFramebuffer s0) as [w|]; [|done].
  destruct (offscreenReadFramebuffer s0) as [r|]; [|done].
  match goal with
  | |- context [foldl (compositeLayer ?r ?w ?m ?v) ?a ?l] =>
      pose proof (context_foldl_compositeLayer r w m v l a) as [Hr Hn];
      set (s2 := foldl (compositeLayer r w m v) a l) in *
  end.
  by destruct (offscreenWriteColorAttachment s2).
Qed.















(** ** The resident textures are alive *)

Lemma Live_frame s s' :
  registered s' = registered s → nextId s' = nextId s →
  targetIds s' = targetIds s →
  (∀ url li', layerImageCache s' !! url = Some li' →
     ∃ li, layerImageCache s !! url = Some li
           ∧ LayerImage.texImage2D li' = LayerImage.texImage2D li
           ∧ LayerImage.url li' = LayerImage.url li
           ∧ LayerImage.disposed li' = LayerImage.disposed li) →
  Live s → Live s'.
Proof.
  intros Hr Hn Ht Hc [B R D T]. split.
  - intros n. rewrite Hr, Hn. apply B.
  - intros url li' Hl. destruct (Hc url li' Hl) as (li & Hs & -> & -> & ->).
    rewrite Hr. by apply R.
  - intros u1 u2 l1 l2 H1 H2 Heq.
    destruct (Hc u1 l1 H1) as (m1 & Hs1 & E1 & _).
    destruct (Hc u2 l2 H2) as (m2 & Hs2 & E2 & _).
    apply (D u1 u2 m1 m2 Hs1 Hs2). congruence.
  - intros n Hin. rewrite Ht in Hin. destruct (T n Hin) as [Hlt Hno].
    rewrite Hn. split; [done|]. intros (url & li' & Hl & Htex).
    destruct (Hc url li' Hl) as (li & Hs & E & _). apply Hno. exists url, li.
    split; [done | congruence].
Qed.

Lemma Live_same_cache s s' :
  registered s' = registered s → nextId s' = nextId s →
  targetIds s' = targetIds s → layerImageCache s' = layerImageCache s →
  Live s → Live s'.
Proof.
  intros Hr Hn Ht Hc. apply Live_frame; [done..|].
  intros url li' Hl. exists li'. by rewrite <-Hc.
Qed.

Lemma Live_finishLoad url image hadToFetch s :
  Live s → Live (snd (finishLoad url image hadToFetch s)).
Proof.
  intros HL. destruct (decide (url ∈ desiredImages s)) as [Hw|Hw].
  - destruct (finishLoad_wanted url image hadToFetch s Hw) as (li & -> & Hli).
    destruct HL as [B R D T]. cbn [snd]. subst li.
    assert (Hold : ∀ u li, layerImageCache s !! u = Some li →
                           (LayerImage.texImage2D li < nextId s)%nat).
    { intros u li Hl. apply B. by apply (R u li). }
    split.
    + intros n. unfold registered, nextId. cbn. fold (registered s) (nextId s).
      intros [->%elem_of_singleton|Hin]%elem_of_union; [lia|].
      specialize (B n Hin). lia.
    + intros u li Hl. cbn in Hl. unfold registered. cbn. fold (registered s).
      destruct (decide (u = url)) as [->|Hne].
      * rewrite lookup_insert_eq in Hl. injection Hl as <-. cbn. set_solver.
      * rewrite lookup_insert_ne in Hl by done.
        destruct (R u li Hl) as (? & ? & ?). set_solver.
    + intros u1 u2 l1 l2 H1 H2 Heq. cbn in H1, H2.
      destruct (decide (u1 = url)) as [->|N1], (decide (u2 = url)) as [->|N2]; [done|..].
      * rewrite lookup_insert_eq in H1. rewrite lookup_insert_ne in H2 by done.
        injection H1 as <-. cbn in Heq. specialize (Hold u2 l2 H2).
        unfold nextId in Hold. lia.
      * rewrite lookup_insert_eq in H2. rewrite lookup_insert_ne in H1 by done.
        injection H2 as <-. cbn in Heq. specialize (Hold u1 l1 H1).
        unfold nextId in Hold. lia.
      * rewrite lookup_insert_ne in H1, H2 by done. by apply (D u1 u2 l1 l2).
    + intros n Hin. change (Some n ∈ targetIds s) in Hin.
      destruct (T n Hin) as [Hlt Hno]. split; [unfold nextId in *; cbn; lia|].
      intros (u & li & Hl & Htex). cbn in Hl.
      destruct (decide (u = url)) as [->|Hne].
      * rewrite lookup_insert_eq in Hl. injection Hl as <-. cbn in Htex.
        unfold nextId in Hlt. lia.
      * rewrite lookup_insert_ne in Hl by done. apply Hno. by exists u, li.
  - rewrite (finishLoad_unwanted url image hadToFetch s Hw). cbn [snd].
    revert HL. apply Live_same_cache;
      unfold releaseImage; (destruct hadToFetch; [|done]); (destruct image; [|done]); cbn;
      by destruct (imageBitmapSupported s).
Qed.

Lemma Live_loadTexImage2D url image s : Live s → Live (snd (loadTexImage2D url image s)).
Proof.
  intros HL. unfold loadTexImage2D. cbn [texImage2DPromiseCache set_desiredImages].
  destruct (texImage2DPromiseCache s !! url); [by revert HL; apply Live_same_cache|].
  destruct image as [img|]; [|by revert HL; apply Live_same_cache].
  pose proof (Live_finishLoad url img false
                (set_desiredImages ({[url]} ∪ desiredImages s) s)) as HF.
  destruct (finishLoad url img false _) as [v s1]. cbn [snd] in *.
  assert (H1 : Live s1) by (apply HF; revert HL; by apply Live_same_cache).
  revert H1. by apply Live_same_cache.
Qed.

Lemma Live_resumeLoad p image s : Live s → Live (resumeLoad p image s).
Proof.
  intros HL. unfold resumeLoad. destruct (promises s !! p) as [[url|v|e]|]; try done.
  pose proof (Live_finishLoad url image true s HL) as HF.
  destruct (finishLoad url image true s) as [v s1]. cbn [snd] in *.
  revert HF. by apply Live_same_cache.
Qed.

Lemma registered_LayerImage_dispose li s :
  registered (LayerImage_dispose li s) ⊆ registered s.
Proof.
  unfold LayerImage_dispose, TexImage2D_dispose, releaseImage, registered.
  destruct (LayerImage.disposed li); [done|].
  destruct (LayerImage.image li) as [[h|h]|]; cbn;
    try destruct (imageBitmapSupported s); cbn;
    case_bool_decide; cbn; set_solver.
Qed.

Lemma Live_discardTexImage2D url s : Live s → Live (snd (discardTexImage2D url s)).
Proof.
  intros HL. unfold discardTexImage2D.
  destruct (bool_decide (url ∈ desiredImages s)); [|done].
  cbn zeta. set (s1 := set_history _ _). cbn [snd].
  assert (H1 : Live s1) by (revert HL; by apply Live_same_cache).
  clearbody s1. clear HL s. destruct H1 as [B R D T].
  destruct (layerImageCache s1 !! url) as [li|] eqn:Hli.
  - destruct (Tame_LayerImage_dispose url li s1 Hli) as (Hr & Hn & Ht & Hc).
    pose proof (registered_LayerImage_dispose li s1) as Hsub.
    apply targetIds_targets in Ht.
    set (s2 := LayerImage_dispose li s1) in *. split.
    + intros n Hin. change (n ∈ registered s2) in Hin.
      change ((n < nextId s2)%nat). rewrite Hn. apply B. set_solver.
    + intros u l Hl. cbn in Hl. rewrite Hc in Hl.
      apply lookup_delete_Some in Hl as [Hne Hl].
      destruct (R u l Hl) as (Hreg & Hu & Hd). split; [|done].
      change (LayerImage.texImage2D l ∈ registered s2). apply Hr.
      apply elem_of_difference. split; [done|]. intros Heq%elem_of_singleton.
      apply Hne. symmetry. by apply (D u url l li).
    + intros u1 u2 l1 l2 H1 H2 Heq. cbn in H1, H2. rewrite Hc in H1, H2.
      apply lookup_delete_Some in H1 as [_ H1]. apply lookup_delete_Some in H2 as [_ H2].
      by apply (D u1 u2 l1 l2).
    + intros n Hin. change (Some n ∈ targetIds s2) in Hin. rewrite Ht in Hin.
      destruct (T n Hin) as [Hlt Hno]. split; [change ((n < nextId s2)%nat); lia|].
      intros (u & l & Hl & Htex). cbn in Hl. rewrite Hc in Hl.
      apply lookup_delete_Some in Hl as [_ Hl]. apply Hno. by exists u, l.
  - split.
    + exact B.
    + intros u l Hl. cbn in Hl. apply lookup_delete_Some in Hl as [_ Hl]. by apply R.
    + intros u1 u2 l1 l2 H1 H2 Heq. cbn in H1, H2.
      apply lookup_delete_Some in H1 as [_ H1]. apply lookup_delete_Some in H2 as [_ H2].
      by apply (D u1 u2 l1 l2).
    + intros n Hin. destruct (T n Hin) as [Hlt Hno]. split; [done|].
      intros (u & l & Hl & Htex). cbn in Hl.
      apply lookup_delete_Some in Hl as [_ Hl]. apply Hno. by exists u, l.
Qed.

Lemma replaceWriteTarget_registered s n :
  n ∈ registered (replaceWriteTarget s) →
  n ∈ registered s ∨ (nextId s ≤ n < nextId s + 2)%nat.
Proof.
  unfold replaceWriteTarget, Framebuffer_dispose, TexImage2D_dispose, registered, nextId.
  destruct (offscreenWriteFramebuffer s) as [f|]; cbn;
    destruct (offscreenWriteColorAttachment s) as [a|]; cbn;
    repeat case_bool_decide; cbn; intros Hx;
    (destruct (decide (n = RenderingContext.nextResourceId (context s))) as [->|N1];
       [right; lia|]);
    (destruct (decide (n = S (RenderingContext.nextResourceId (context s)))) as [->|N2];
       [right; lia|]);
    left; set_solver.
Qed.

Lemma replaceReadTarget_registered s n :
  n ∈ registered (replaceReadTarget s) →
  n ∈ registered s ∨ (nextId s ≤ n < nextId s + 2)%nat.
Proof.
  unfold replaceReadTarget, Framebuffer_dispose, TexImage2D_dispose, registered, nextId.
  destruct (offscreenReadFramebuffer s) as [f|]; cbn;
    destruct (offscreenReadColorAttachment s) as [a|]; cbn;
    repeat case_bool_decide; cbn; intros Hx;
    (destruct (decide (n = RenderingContext.nextResourceId (context s))) as [->|N1];
       [right; lia|]);
    (destruct (decide (n = S (RenderingContext.nextResourceId (context s)))) as [->|N2];
       [right; lia|]);
    left; set_solver.
Qed.

Lemma Live_replaceWriteTarget s : Live s → Live (replaceWriteTarget s).
Proof.
  intros [B R D T].
  destruct (replaceWriteTarget_fresh s) as (Hw & Ha & Hn & Hr & Hra & _).
  destruct (replaceWriteTarget_rest s) as (_ & _ & Hc).
  assert (Hold : ∀ u li, layerImageCache s !! u = Some li →
                         (LayerImage.texImage2D li < nextId s)%nat).
  { intros u li Hl. apply B. by apply (R u li). }
  split.
  - intros n Hin. unfold nextId at 1. rewrite Hn. fold (nextId s).
    destruct (replaceWriteTarget_registered s n Hin) as [Hin'|Hnew]; [|lia].
    specialize (B n Hin'). lia.
  - intros u li Hl. rewrite Hc in Hl. destruct (R u li Hl) as (Hreg & Hu & Hd).
    split; [|done]. apply replaceWriteTarget_keeps; [done|..];
      intros Heq; (destruct (T (LayerImage.texImage2D li)) as [_ Hno];
                   [unfold targetIds; rewrite Heq; set_solver|]);
      apply Hno; by exists u, li.
  - intros u1 u2 l1 l2. rewrite Hc. apply D.
  - intros n Hin. unfold targetIds in Hin. rewrite Hw, Ha, Hr, Hra in Hin.
    unfold nextId at 1. rewrite Hn. fold (nextId s).
    assert (Hcase : (nextId s ≤ n < nextId s + 2)%nat ∨ Some n ∈ targetIds s).
    { apply elem_of_cons in Hin as [[= ->]|Hin]; [left; unfold nextId; lia|].
      apply elem_of_cons in Hin as [[= ->]|Hin]; [left; unfold nextId; lia|].
      right. unfold targetIds. set_solver. }
    destruct Hcase as [Hnew|Hold'].
    + split; [lia|]. intros (u & li & Hl & Htex). rewrite Hc in Hl.
      specialize (Hold u li Hl). lia.
    + destruct (T n Hold') as [Hlt Hno]. split; [lia|].
      intros (u & li & Hl & Htex). rewrite Hc in Hl. apply Hno. by exists u, li.
Qed.

Lemma Live_replaceReadTarget s : Live s → Live (replaceReadTarget s).
Proof.
  intros [B R D T].
  destruct (replaceReadTarget_fresh s) as (Hr & Hra & Hn & Hw & Ha & _).
  destruct (replaceReadTarget_rest s) as (_ & _ & Hc).
  assert (Hold : ∀ u li, layerImageCache s !! u = Some li →
                         (LayerImage.texImage2D li < nextId s)%nat).
  { intros u li Hl. apply B. by apply (R u li). }
  split.
  - intros n Hin. unfold nextId at 1. rewrite Hn. fold (nextId s).
    destruct (replaceReadTarget_registered s n Hin) as [Hin'|Hnew]; [|lia].
    specialize (B n Hin'). lia.
  - intros u li Hl. rewrite Hc in Hl. destruct (R u li Hl) as (Hreg & Hu & Hd).
    split; [|done]. apply replaceReadTarget_keeps; [done|..];
      intros Heq; (destruct (T (LayerImage.texImage2D li)) as [_ Hno];
                   [unfold targetIds; rewrite Heq; set_solver|]);
      apply Hno; by exists u, li.
  - intros u1 u2 l1 l2. rewrite Hc. apply D.
  - intros n Hin. unfold targetIds in Hin. rewrite Hw, Ha, Hr, Hra in Hin.
    unfold nextId at 1. rewrite Hn. fold (nextId s).
    assert (Hcase : (nextId s ≤ n < nextId s + 2)%nat ∨ Some n ∈ targetIds s).
    { apply elem_of_cons in Hin as [Hin|Hin]; [right; unfold targetIds; set_solver|].
      apply elem_of_cons in Hin as [Hin|Hin]; [right; unfold targetIds; set_solver|].
      apply elem_of_cons in Hin as [[= ->]|Hin]; [left; unfold nextId; lia|].
      apply elem_of_cons in Hin as [[= ->]|Hin]; [left; unfold nextId; lia|].
      by apply elem_of_nil in Hin. }
    destruct Hcase as [Hnew|Hold'].
    + split; [lia|]. intros (u & li & Hl & Htex). rewrite Hc in Hl.
      specialize (Hold u li Hl). lia.
    + destruct (T n Hold') as [Hlt Hno]. split; [lia|].
      intros (u & li & Hl & Htex). rewrite Hc in Hl. apply Hno. by exists u, li.
Qed.

Lemma Live_updateOffscreen s : Live s → Live (updateOffscreen s).
Proof.
  intros HL. unfold updateOffscreen. destruct (offscreenOutdated s); [|done].
  apply Live_replaceReadTarget, Live_replaceWriteTarget.
  revert HL. by apply Live_same_cache.
Qed.

Lemma Live_mark s s' rid :
  registered s' = registered s → nextId s' = nextId s →
  targetIds s' = targetIds s →
  (∀ url, ∃ used, layerImageCache s' !! url = mark rid used (layerImageCache s !! url)) →
  Live s → Live s'.
Proof.
  intros Hr Hn Ht Hm. apply Live_frame; [done..|].
  intros url li' Hl. destruct (Hm url) as [used Hu]. rewrite Hu in Hl. unfold mark in Hl.
  destruct used; [|by exists li'].
  destruct (layerImageCache s !! url) as [li|] eqn:Hs; [|done].
  injection Hl as <-. by exists li.
Qed.

Lemma Live_renderLayersToFramebuffer s : Live s → Live (renderLayersToFramebuffer s).
Proof.
  intros HL. apply Live_updateOffscreen in HL. revert HL.
  destruct (context_renderLayersToFramebuffer s) as [Hr Hn].
  apply (Live_mark _ _ (renderId s)); [done | done | |].
  - apply targetIds_targets, targets_renderLayersToFramebuffer.
  - intros url. destruct (renderLayersToFramebuffer_cache s url) as [_ Hc].
    rewrite layerImageCache_updateOffscreen. eauto.
Qed.

Lemma Live_presented s : Live s → Live (presented s).
Proof.
  intros HL. unfold presented. set (s0 := set_renderId (renderId s + 1) s).
  assert (H0 : Live s0) by (revert HL; by apply Live_same_cache).
  apply Live_renderLayersToFramebuffer in H0.
  set (s1 := renderLayersToFramebuffer s0) in *.
  destruct (offscreenWriteColorAttachment s1); [|done].
  revert H0. by apply Live_same_cache.
Qed.

Lemma Live_discardUnused_from urls s : Live s → Live (foldl discardIfUnused s urls).
Proof.
  revert s. induction urls as [|u urls IH]; intros s HL; [done|].
  cbn [foldl]. apply IH. unfold discardIfUnused.
  destruct (layerImageCache s !! u) as [li|]; [|done].
  destruct (LayerImage.renderId li <? renderId s); [|done].
  by apply Live_discardTexImage2D.
Qed.

Lemma Live_render s : Live s → Live (render s).
Proof.
  intros HL. rewrite render_presented.
  destruct (isUndefined _); [by apply Live_presented|].
  destruct (autoDiscard s); [|by apply Live_presented].
  by apply Live_discardUnused_from, Live_presented.
Qed.

Lemma Live_step op s : Live s → Live (snd (step op s)).
Proof.
  intros HL. destruct op; cbn [step].
  - pose proof (Live_loadTexImage2D url image s HL). by destruct (loadTexImage2D url image s).
  - pose proof (Live_discardTexImage2D url s HL). by destruct (discardTexImage2D url s).
  - by apply Live_render.
  - revert HL. by apply Live_same_cache.
  - revert HL. by apply Live_same_cache.
  - revert HL. by apply Live_same_cache.
  - revert HL. by apply Live_same_cache.
  - revert HL. by apply Live_same_cache.
  - revert HL. by apply Live_same_cache.
  - revert HL. by apply Live_same_cache.
  - by apply Live_resumeLoad.
  - destruct (loadTexImage2DGlNull_frame url image s) as (m & ps & d & H).
    destruct (loadTexImage2DGlNull url image s) as [q s']. cbn in *. subst s'.
    revert HL. by apply Live_same_cache.
  - destruct (resumeLoadGlNull_frame promise image s) as [(m & ps & d & ->)| ->].
    + revert HL. by apply Live_same_cache.
    + by apply Live_resumeLoad.
  - destruct (rejectLoad_frame promise s) as (m & ps & d & ->).
    revert HL. by apply Live_same_cache.
Qed.

Lemma Live_run ops s : Live s → Live (run ops s).
Proof.
  revert s. induction ops as [|op ops IH]; intros s HL; [done|].
  rewrite run_cons. by apply IH, Live_step.
Qed.

Lemma Live_initial size dpr bitmaps : Live (initial size dpr bitmaps).
Proof.
  split.
  - intros n Hin. unfold registered in Hin. cbn in Hin. set_solver.
  - intros url li Hl. cbn in Hl. by rewrite lookup_empty in Hl.
  - intros u1 u2 l1 l2 Hl. cbn in Hl. by rewrite lookup_empty in Hl.
  - intros n Hin. unfold targetIds in Hin. cbn in Hin. set_solver.
Qed.

(** X21. In every state the compositor reaches, the texture of each
    resident image is registered with the context (it has not been
    deleted), its entry sits under its own url and is not disposed, no two
    entries share a texture, and no offscreen target is the texture of a
    resident image.  Hence discarding a resident image deletes its texture
    and leaves every other resident texture registered. *)
Theorem resident_textures_are_alive size dpr bitmaps ops :
  let s := run ops (initial size dpr bitmaps) in
  (∀ url li, layerImageCache s !! url = Some li →
     LayerImage.texImage2D li ∈ registered s
     ∧ LayerImage.url li = url ∧ LayerImage.disposed li = false
     ∧ Some (LayerImage.texImage2D li) ∉ targetIds s
     ∧ LayerImage.texImage2D li ∉ registered (snd (discardTexImage2D url s))
     ∧ head (RenderingContext.commands (context (snd (discardTexImage2D url s))))
       = Some (CmdDeleteTexture (LayerImage.texImage2D li)))
  ∧ (∀ url1 url2 li1 li2,
       layerImageCache s !! url1 = Some li1 → layerImageCache s !! url2 = Some li2 →
       url1 ≠ url2 →
       LayerImage.texImage2D li1 ≠ LayerImage.texImage2D li2
       ∧ LayerImage.texImage2D li2 ∈ registered (snd (discardTexImage2D url1 s))).
Proof.
  intros s.
  assert (HL : Live s) by apply Live_run, Live_initial.
  assert (HI : CacheInv s) by apply CacheInv_run, CacheInv_initial.
  pose proof HL as [B R D T].
  assert (Hdiscard : ∀ url li, layerImageCache s !! url = Some li →
            context (snd (discardTexImage2D url s))
            = RenderingContext.issue (CmdDeleteTexture (LayerImage.texImage2D li))
                (RenderingContext.disposeResource (LayerImage.texImage2D li) (context s))).
  { intros url li Hl. destruct (R url li Hl) as (Hreg & _ & Hd).
    assert (Hin : url ∈ desiredImages s).
    { apply (inv_desired s HI). apply elem_of_dom. eauto. }
    unfold discardTexImage2D. rewrite bool_decide_eq_true_2 by done.
    cbn zeta. cbn [layerImageCache set_history set_desiredImages snd]. rewrite Hl.
    unfold LayerImage_dispose, TexImage2D_dispose. rewrite Hd.
    cbn [context set_history set_desiredImages].
    unfold registered in Hreg. rewrite bool_decide_eq_true_2 by done.
    unfold releaseImage. destruct (LayerImage.image li) as [[h|h]|]; cbn; try done.
    by destruct (imageBitmapSupported s). }
  split.
  - intros url li Hl. destruct (R url li Hl) as (Hreg & Hu & Hd).
    split; [done|]. split; [done|]. split; [done|]. split; [|split].
    + intros Hin. destruct (T _ Hin) as [_ Hno]. apply Hno. by exists url, li.
    + unfold registered. rewrite (Hdiscard url li Hl). cbn. set_solver.
    + by rewrite (Hdiscard url li Hl).
  - intros u1 u2 l1 l2 H1 H2 Hne. split.
    + intros Heq. apply Hne. by apply (D u1 u2 l1 l2).
    + unfold registered. rewrite (Hdiscard u1 l1 H1). cbn.
      destruct (R u2 l2 H2) as (Hreg & _). unfold registered in Hreg.
      apply elem_of_difference. split; [done|]. intros Heq%elem_of_singleton.
      apply Hne. symmetry. by apply (D u2 u1 l2 l1).
Qed.

(** ** Premultiplied unpacking *)

Lemma unpackFlag_app flag cs1 cs2 :
  unpackFlag flag (cs1 ++ cs2) = unpackFlag (unpackFlag flag cs1) cs2.
Proof. apply foldl_app. Qed.

Lemma flaggedUploads_app flag cs1 cs2 :
  flaggedUploads flag (cs1 ++ cs2)
  = flaggedUploads flag cs1 ++ flaggedUploads (unpackFlag flag cs1) cs2.
Proof.
  revert flag. induction cs1 as [|c cs1 IH]; intros flag; [done|].
  destruct c; cbn; rewrite ?IH; reflexivity.
Qed.

Lemma UnpackClean_nil : UnpackClean [].
Proof. split; [done | constructor]. Qed.

Lemma UnpackClean_app cs1 cs2 : UnpackClean cs1 → UnpackClean cs2 → UnpackClean (cs1 ++ cs2).
Proof.
  intros [F1 U1] [F2 U2]. split.
  - by rewrite unpackFlag_app, F1.
  - rewrite flaggedUploads_app, F1. by apply Forall_app.
Qed.

Lemma UnpackCleanM_ret {A} (a : A) : UnpackCleanM (mret a).
Proof. intros o log. exists []. split; [by rewrite app_nil_r | apply UnpackClean_nil]. Qed.

Lemma UnpackCleanM_throw {A} e : UnpackCleanM (@TexImage2D.throw A e).
Proof. intros o log. exists []. split; [by rewrite app_nil_r | apply UnpackClean_nil]. Qed.

Lemma UnpackCleanM_this : UnpackCleanM TexImage2D.this.
Proof. intros o log. exists []. split; [by rewrite app_nil_r | apply UnpackClean_nil]. Qed.

Lemma UnpackCleanM_update f : UnpackCleanM (TexImage2D.update f).
Proof. intros o log. exists []. split; [by rewrite app_nil_r | apply UnpackClean_nil]. Qed.

Lemma UnpackCleanM_call c : UnpackClean [c] → UnpackCleanM (TexImage2D.call c).
Proof. intros Hc o log. by exists [c]. Qed.

Lemma UnpackCleanM_bind {A B} (m : TexImage2D.M A) (f : A → TexImage2D.M B) :
  UnpackCleanM m → (∀ a, UnpackCleanM (f a)) → UnpackCleanM (m ≫= f).
Proof.
  intros Hm Hf o log. unfold mbind, TexImage2D.M_bind.
  destruct (Hm o log) as (cs1 & E1 & C1).
  destruct (m (o, log)) as [[a|e] [o1 log1]]; cbn [snd] in E1; subst log1.
  - destruct (Hf a o1 (log ++ cs1)) as (cs2 & E2 & C2).
    exists (cs1 ++ cs2). rewrite E2, app_assoc. split; [done | by apply UnpackClean_app].
  - by exists cs1.
Qed.

Lemma UnpackCleanM_for l body :
  (∀ i, UnpackCleanM (body i)) → UnpackCleanM (TexImage2D.for_ l body).
Proof.
  intros Hb. induction l as [|i l IH]; [apply UnpackCleanM_ret|].
  cbn [TexImage2D.for_]. apply UnpackCleanM_bind; [apply Hb | intros _; apply IH].
Qed.

Lemma UnpackCleanM_loadImage image target level :
  UnpackCleanM (TexImage2D.loadImage image target level).
Proof.
  intros o log. unfold TexImage2D.loadImage. run_method.
  destruct image as [[sz|w h d|w h d|w h d]|]; run_method.
  - destruct (level =? 0)%nat; run_method; eexists [_];
      (split; [reflexivity|]); (split; [done | by repeat constructor]).
  - destruct (level =? 0)%nat; run_method; eexists [_];
      (split; [reflexivity|]); (split; [done | by repeat constructor]).
  - eexists [_; _; _]. rewrite <-!app_assoc. split; [reflexivity|].
    split; [done | by repeat constructor].
  - eexists [_; _; _]. rewrite <-!app_assoc. split; [reflexivity|].
    split; [done | by repeat constructor].
  - eexists [_]. split; [reflexivity|]. split; [done | constructor].
Qed.

Ltac unpack_clean :=
  repeat first
    [ apply UnpackCleanM_loadImage
    | apply UnpackCleanM_this
    | apply UnpackCleanM_update
    | apply UnpackCleanM_throw
    | apply UnpackCleanM_ret
    | apply UnpackCleanM_call; split; [reflexivity | constructor]
    | apply UnpackCleanM_for; intros ?
    | apply UnpackCleanM_bind; [|intros ?]
    | match goal with |- UnpackCleanM (if ?b then _ else _) => destruct b end
    | match goal with |- UnpackCleanM (match ?x with _ => _ end) => destruct x end ].

Lemma UnpackCleanM_loadImages images : UnpackCleanM (TexImage2D.loadImages images).
Proof. unfold TexImage2D.loadImages. unpack_clean. Qed.

Lemma UnpackCleanM_construct isPow2 maxAllowableAnisotropy :
  UnpackCleanM (TexImage2D.construct isPow2 maxAllowableAnisotropy).
Proof.
  unfold TexImage2D.construct.
  apply UnpackCleanM_bind; [apply UnpackCleanM_this | intros o].
  apply UnpackCleanM_bind; [apply UnpackCleanM_loadImages | intros _].
  unpack_clean.
Qed.

Lemma constructor_unpack_clean isPow2 images target texParameters created
    maxAllowableAnisotropy ctx :
  let calls := snd (TexImage2D.constructor isPow2 images target texParameters created
                      maxAllowableAnisotropy ctx) in
  unpackFlag false calls = false
  ∧ ∀ image flag, (image, flag) ∈ flaggedUploads false calls →
      flag = isHTMLImageElement image.
Proof.
  intros calls.
  assert (HC : UnpackClean calls).
  { unfold calls, TexImage2D.constructor. destruct created as [g|].
    2: { split; [done | constructor]. }
    set (o := TexImage2D.mk None false g (Vector2.mk 0 0) images target texParameters).
    destruct (UnpackCleanM_construct isPow2 maxAllowableAnisotropy o
                [TexImage2D.gl_createTexture]) as (cs & E & C).
    destruct (TexImage2D.construct isPow2 maxAllowableAnisotropy
                (o, [TexImage2D.gl_createTexture])) as [[[]|e] [o1 log1]];
      cbn [snd] in E; subst log1; cbn [snd];
      (apply (UnpackClean_app [TexImage2D.gl_createTexture] cs); [|done]);
      split; [done | constructor | done | constructor]. }
  destruct HC as [F U]. split; [done|].
  intros image flag Hin. rewrite Forall_forall in U. by apply (U (image, flag)).
Qed.

(** X22. On a run of the constructor that returns (every GL call it made
    came back; a [gl.texImage2D] that throws, as on a cross-origin image,
    leaves the constructor between the two [pixelStorei] calls and is not
    such a run), whatever images the texture is made from, the calls treat
    [UNPACK_PREMULTIPLY_ALPHA_WEBGL] alike: entered with the flag off, they
    leave it off, and an image is uploaded with the flag on exactly when it
    is an [HTMLImageElement]. *)
Theorem premultiplied_unpacking_is_scoped isPow2 images target texParameters created
    maxAllowableAnisotropy ctx o ctx' calls :
  TexImage2D.constructor isPow2 images target texParameters created
    maxAllowableAnisotropy ctx = (Returned o, ctx', calls) →
  unpackFlag false calls = false
  ∧ ∀ image flag, (image, flag) ∈ flaggedUploads false calls →
      flag = isHTMLImageElement image.
Proof.
  intros Hrun.
  pose proof (constructor_unpack_clean isPow2 images target texParameters created
                maxAllowableAnisotropy ctx) as H.
  cbv zeta in H. by rewrite Hrun in H.
Qed.

Lemma premultiplied_unpacking_is_scoped_witness :
  let ctx := RenderingContext.mk (Vector2.mk 800 600) 1 3 {[0%nat; 2%nat]} [] in
  let image := TexImage2D.SourceHTMLImageElement 4 4 9 in
  let texParameters := TexParameters.mk 0 0 0 0 1 true in
  let calls := snd (TexImage2D.constructor (λ _, true) [image] TexImage2D.Texture2D
                      texParameters (Some 7%nat) None ctx) in
  unpackFlag false calls = false
  ∧ flaggedUploads false calls = [(image, true)]
  ∧ ∀ image flag, (image, flag) ∈ flaggedUploads false calls →
      flag = isHTMLImageElement image.
Proof.
  intros ctx image texParameters calls.
  destruct (premultiplied_unpacking_is_scoped (λ _, true) [image] TexImage2D.Texture2D
              texParameters (Some 7%nat) None ctx
              (TexImage2D.mk (Some 3%nat) false 7 (Vector2.mk 4 4) [image]
                 TexImage2D.Texture2D texParameters)
              (snd (RenderingContext.registerResource ctx)) calls) as [H1 H2].
  - reflexivity.
  - split; [exact H1|]. split; [reflexivity | exact H2].
Defined.

(** ** A delivery nobody waits for *)

(** X23. A fetch that delivers, in a reachable state, for an identifier
    no longer desired: the promise is fulfilled with [null]; no texture is
    made and nothing is sent to the GPU; the fetched image is released (an
    [ImageBitmap] is closed when bitmaps are supported); the Resident
    Cache and the Desired Set are as before; and the [delete] of the
    Pending-Load Map entry removes nothing, since an identifier that is
    not desired has no entry. *)
Theorem cancelled_delivery_releases_image size dpr bitmaps ops p url image :
  let s := run ops (initial size dpr bitmaps) in
  promises s !! p = Some (Pending url) →
  url ∉ desiredImages s →
  let s' := resumeLoad p image s in
  promises s' = <[p := Fulfilled None]> (promises s)
  ∧ context s' = context s
  ∧ texImage2DPromiseCache s' = texImage2DPromiseCache s
  ∧ layerImageCache s' = layerImageCache s
  ∧ desiredImages s' = desiredImages s
  ∧ fetchLog s' = fetchLog s
  ∧ closedBitmaps s'
    = match image with
      | ImageBitmap h => if imageBitmapSupported s then h :: closedBitmaps s
                         else closedBitmaps s
      | HTMLImageElement _ => closedBitmaps s
      end.
Proof.
  intros s Hp Hout s'.
  assert (HI : CacheInv s) by apply CacheInv_run, CacheInv_initial.
  assert (Hmap : texImage2DPromiseCache s !! url = None).
  { destruct (texImage2DPromiseCache s !! url) as [q|] eqn:Hq; [|done].
    by destruct (inv_pending s HI url q Hq). }
  unfold s', resumeLoad. rewrite Hp, (finishLoad_unwanted url image true s Hout).
  cbn zeta. unfold releaseImage.
  destruct image as [h|h]; cbn [imageBitmapSupported set_texImage2DPromiseCache set_history].
  - destruct (imageBitmapSupported s); cbn; by rewrite (delete_id _ _ Hmap).
  - cbn. by rewrite (delete_id _ _ Hmap).
Qed.

Lemma cancelled_delivery_releases_image_witness :
  let s := run [CallLoadTexImage2D "a" None; CallDiscardTexImage2D "a"]
               (initial (Vector2.mk 800 600) 1 true) in
  promises (resumeLoad 0 (ImageBitmap 7) s) = [Fulfilled None]
  ∧ closedBitmaps (resumeLoad 0 (ImageBitmap 7) s) = [7%nat].
Proof.
  intros s.
  destruct (cancelled_delivery_releases_image (Vector2.mk 800 600) 1 true
              [CallLoadTexImage2D "a" None; CallDiscardTexImage2D "a"] 0 "a" (ImageBitmap 7))
    as (H1 & _ & _ & _ & _ & _ & H7).
  - reflexivity.
  - vm_compute. set_solver.
  - split; [exact H1 | exact H7].
Defined.

(** ** Render ids *)

Lemma Stamped_from s s' :
  Stamped s → renderId s <= renderId s' →
  (∀ url li, layerImageCache s' !! url = Some li →
             layerImageCache s !! url = Some li
             ∨ LayerImage.renderId li = -1
             ∨ 1 <= LayerImage.renderId li <= renderId s') →
  Stamped s'.
Proof.
  intros [S1 S2] Hr Hc. split; [lia|].
  intros url li Hli. destruct (Hc url li Hli) as [Hold|Hnew]; [|done].
  apply S2 in Hold. lia.
Qed.

Lemma Stamped_same s s' :
  renderId s' = renderId s → layerImageCache s' = layerImageCache s → Stamped s → Stamped s'.
Proof.
  intros Hr Hc HS. apply (Stamped_from s); [done | lia |]. rewrite Hc. auto.
Qed.

Lemma Stamped_finishLoad url image hadToFetch s :
  Stamped s → Stamped (snd (finishLoad url image hadToFetch s)).
Proof.
  intros HS. destruct (decide (url ∈ desiredImages s)) as [Hw|Hw].
  - destruct (finishLoad_wanted url image hadToFetch s Hw) as (li & -> & ->).
    apply (Stamped_from s); [done | done |]. cbn. intros u li.
    destruct (decide (url = u)) as [->|Hne].
    + rewrite lookup_insert_eq. intros [= <-]. right. by left.
    + rewrite lookup_insert_ne by done. auto.
  - rewrite (finishLoad_unwanted url image hadToFetch s Hw). cbn [snd]. revert HS.
    apply Stamped_same; unfold releaseImage;
      (destruct hadToFetch; [|done]); (destruct image; [|done]); cbn;
      by destruct (imageBitmapSupported s).
Qed.

Lemma Stamped_loadTexImage2D url image s :
  Stamped s → Stamped (snd (loadTexImage2D url image s)).
Proof.
  intros HS. unfold loadTexImage2D.
  destruct (texImage2DPromiseCache _ !! url); [by apply (Stamped_same s)|].
  destruct image as [img|]; [|by apply (Stamped_same s)].
  pose proof (Stamped_finishLoad url img false
                (set_desiredImages ({[url]} ∪ desiredImages s) s)) as H.
  destruct (finishLoad url img false _) as [v s1]. cbn in *.
  apply (Stamped_same s1); [done | done |]. apply H. by apply (Stamped_same s).
Qed.

Lemma Stamped_resumeLoad p image s : Stamped s → Stamped (resumeLoad p image s).
Proof.
  intros HS. unfold resumeLoad. destruct (promises s !! p) as [[url|v|e]|]; try done.
  pose proof (Stamped_finishLoad url image true s HS) as H.
  destruct (finishLoad url image true s) as [v s1]. cbn in *.
  by apply (Stamped_same s1).
Qed.

Lemma Stamped_discardTexImage2D url s :
  Stamped s → Stamped (snd (discardTexImage2D url s)).
Proof.
  intros HS. apply (Stamped_from s); [done | |].
  - pose proof (sceneState_discardTexImage2D url s) as Hs.
    apply sceneState_eq in Hs as (_ & -> & _). done.
  - intros u li. rewrite layerImageCache_discardTexImage2D.
    destruct (bool_decide _); [|auto]. intros [_ H]%lookup_delete_Some. auto.
Qed.

Lemma renderId_render s : renderId (render s) = renderId s + 1.
Proof.
  destruct (presented_cache s "") as (Hp & _).
  rewrite render_presented. destruct (isUndefined _); [done|].
  destruct (autoDiscard s); [|done].
  pose proof (sceneState_discardUnused_from
                (map fst (map_to_list (layerImageCache (presented s)))) (presented s)) as Hs.
  apply sceneState_eq in Hs as (_ & Hr & _). unfold discardUnused. lia.
Qed.

Lemma Stamped_render s : Stamped s → Stamped (render s).
Proof.
  intros HS.
  assert (HSp : Stamped (presented s)).
  { apply (Stamped_from s); [done | |].
    - destruct (presented_cache s "") as (-> & _). lia.
    - intros url li. destruct (presented_cache s url) as (-> & -> & _).
      unfold mark. destruct (_ && _); [|auto].
      destruct (layerImageCache s !! url) as [li0|]; [|done].
      intros [= <-]. right. right. cbn. destruct HS. lia. }
  rewrite render_presented. destruct (isUndefined _); [done|].
  destruct (autoDiscard s); [|done].
  apply (Stamped_from (presented s)); [done | |].
  - pose proof (sceneState_discardUnused_from
                  (map fst (map_to_list (layerImageCache (presented s)))) (presented s)) as Hs.
    apply sceneState_eq in Hs as (_ & Hr & _). unfold discardUnused. lia.
  - intros url li H. left. by apply discardUnused_from_subset in H.
Qed.

Lemma Stamped_step op s : Stamped s → Stamped (snd (step op s)).
Proof.
  intros HS.
  destruct op as [url image|url| |ls|size|mode|zoom|pan|flag|size dpr|p image
                 |url image|p image|p]; cbn; try (by apply (Stamped_same s)).
  - pose proof (Stamped_loadTexImage2D url image s HS).
    by destruct (loadTexImage2D url image s).
  - pose proof (Stamped_discardTexImage2D url s HS).
    by destruct (discardTexImage2D url s).
  - by apply Stamped_render.
  - by apply Stamped_resumeLoad.
  - destruct (loadTexImage2DGlNull_frame url image s) as (m & ps & d & H).
    destruct (loadTexImage2DGlNull url image s) as [q s']. cbn in *. subst s'.
    by apply (Stamped_same s).
  - destruct (resumeLoadGlNull_frame p image s) as [(m & ps & d & ->)| ->].
    + by apply (Stamped_same s).
    + by apply Stamped_resumeLoad.
  - destruct (rejectLoad_frame p s) as (m & ps & d & ->). by apply (Stamped_same s).
Qed.

Lemma renderId_step op s :
  renderId (snd (step op s)) = renderId s + (if isRender op then 1 else 0).
Proof.
  destruct op as [url image|url| |ls|size|mode|zoom|pan|flag|size dpr|p image
                 |url image|p image|p];
    cbn [step isRender snd]; rewrite ?Z.add_0_r; try done.
  - pose proof (sceneState_loadTexImage2D url image s) as Hs.
    destruct (loadTexImage2D url image s) as [q s']. cbn in *.
    by apply sceneState_eq in Hs as (_ & -> & _).
  - pose proof (sceneState_discardTexImage2D url s) as Hs.
    destruct (discardTexImage2D url s) as [q s']. cbn in *.
    by apply sceneState_eq in Hs as (_ & -> & _).
  - apply renderId_render.
  - pose proof (sceneState_resumeLoad p image s) as Hs.
    by apply sceneState_eq in Hs as (_ & -> & _).
  - pose proof (sceneState_loadTexImage2DGlNull url image s) as Hs.
    destruct (loadTexImage2DGlNull url image s) as [q s']. cbn in *.
    by apply sceneState_eq in Hs as (_ & -> & _).
  - pose proof (sceneState_resumeLoadGlNull p image s) as Hs.
    by apply sceneState_eq in Hs as (_ & -> & _).
  - pose proof (sceneState_rejectLoad p s) as Hs.
    by apply sceneState_eq in Hs as (_ & -> & _).
Qed.

Lemma renderId_run ops s :
  renderId (run ops s) = renderId s + Z.of_nat (length (List.filter isRender ops))
  ∧ (Stamped s → Stamped (run ops s)).
Proof.
  revert s. induction ops as [|op ops IH]; intros s.
  - cbn. split; [lia | done].
  - rewrite run_cons. destruct (IH (snd (step op s))) as [Hr HS].
    rewrite Hr, renderId_step. split.
    + cbn [List.filter]. destruct (isRender op); cbn [length]; lia.
    + intros H. by apply HS, Stamped_step.
Qed.

(** X24. In every state the compositor reaches, [renderId] is the number
    of [render] calls made, and every resident image carries either [-1],
    the value it was created with, or the id of one of those renders
    (between 1 and [renderId]); in particular no image carries 0 or an id
    from the future. *)
Theorem render_id_counts_renders size dpr bitmaps ops :
  let s := run ops (initial size dpr bitmaps) in
  renderId s = Z.of_nat (length (List.filter isRender ops))
  ∧ ∀ url li, layerImageCache s !! url = Some li →
              LayerImage.renderId li = -1 ∨ 1 <= LayerImage.renderId li <= renderId s.
Proof.
  intros s. destruct (renderId_run ops (initial size dpr bitmaps)) as [Hr HS].
  split; [exact Hr|]. apply HS. split; [cbn; lia|].
  intros url li Hl. cbn in Hl. by rewrite lookup_empty in Hl.
Qed.
